(** * ionic-cache-observable: the Cache entity and the CacheService registry

    A shallow embedding of [src/cache.ts] (class [Cache<T>]) and of the
    cache service (class [CacheService]).

    The class is written against RxJS 5 and JavaScript promises.  The
    embedding makes the run-to-completion semantics of JavaScript explicit:

    - the fields of the object are a record, every method is a function on
      it;
    - a promise reaction ([p.then(k)]) never runs inside the call that
      registers it: it is queued ([microtasks]) and runs when the current
      task ends ([drain]); [get()] builds its promise observable anew on
      every call and so follows [this.ready()] in this way on every
      subscription; [get$] is one observable, built by the constructor:
      its promise observable follows [this.ready()] until the reaction of
      one subscription has run ([isScalar]) and serves every later
      subscription inside [subscribe];
    - what the outside world does (the store settles, the producer settles,
      user code calls a method, the current task ends) is an [Event];
      [step] is the handler of one event, [run] of a sequence;
    - what observers are handed is recorded in the [delivered] log.

    What is taken from the collaborators of the class:

    - a producer is subscribed when the first observer of the shared
      observable arrives, and settles once, in a task of its own, with one
      value followed by the completion, or with a failure;
    - the observable [refresh()] returns is subscribed by the caller that
      obtained it, when it obtained it, as [get()] and the filter of [get$]
      do; observers do not unsubscribe;
    - the observers user code subscribes handle what they are handed,
      failures included, and are passive: what their callbacks do is outside
      the model;
    - the observer the filter of [get$] subscribes to [refresh()] (line
      108) has no handler: it ignores values and the completion, and RxJS
      rethrows a failure it is handed, inside the loop of the subject,
      which ends the loop ([bare], [heard]); where the rethrown failure
      ends up is outside the model;
    - the observable [register] returns is cold: the lookup is made by the
      call, the handlers of [catch] and [map] run at each subscription
      ([CacheService.subscribe]);
    - user code calls the methods and assigns the two switches
      ([useLocalStorage], [allowNull]); it reads the other public fields
      ([loaded], [empty]) and does not assign them;
    - [console.error] is not modelled. *)

From Stdlib Require Import List String Ascii Bool Arith Lia.
Import ListNotations.
Local Open Scope string_scope.

(** ** Values, notifications, reactions *)

(** Identity of a subscription (an observer handed to [subscribe], or the
    consumer of a promise), allocated from [nextSub]. *)
Definition SubId := nat.

(** Identity of a user-supplied [Observable<T>] (the producer). *)
Definition Producer := nat.

(** Errors are [any] in the source; the class itself emits strings. *)
Definition err := string.

(** The three kinds of subscription the class hands out. *)
Inductive Sub : Type :=
| Stream (i : SubId)   (* a subscriber of [get$] *)
| Caller (i : SubId)   (* a subscriber of [get()] or of [refresh()] *)
| Asker (i : SubId).   (* the consumer of the promise of [isEmpty()] *)

(** What the producer does when it settles: one value, or one failure. *)
Inductive Outcome (V : Type) : Type :=
| Yield (v : V)
| Fail (e : err).
Arguments Yield {V} v.
Arguments Fail {V} e.

(** State of the initial probe of the store started by the constructor. *)
Inductive Probe : Type :=
| NoProbe            (* the constructor did not touch the store *)
| AwaitStorageReady  (* [storage.ready()] pending *)
| AwaitStorageGet    (* [storage.get(name)] pending *)
| ProbeSettled.      (* one of the four handlers of lines 120-144 has run *)

(** The double quote of the messages of the class. *)
Definition dquote : string := String (ascii_of_nat 34) EmptyString.

Section Entity.
Context {T : Type}.

(** A JavaScript value of type [T]: [undefined], [null] or a proper value. *)
Inductive jsval : Type :=
| Undefined
| Null
| Val (v : T).

(** What an observer, or the consumer of a promise, is handed. *)
Inductive Notification : Type :=
| Next (d : jsval)
| Error (e : err)
| Complete
| Resolved (b : option bool).  (* a promise fulfilled with [this.empty] *)

(** The callbacks the class registers on [this.ready()]. *)
Inductive Reaction : Type :=
| RGet (i : SubId)      (* get(), line 167: the [mergeMap] callback *)
| RStream (i : SubId)   (* get$, line 105: [() => this.data.asObservable()] *)
| RIsEmpty (i : SubId)  (* isEmpty(), line 227: [() => this.empty] *)
| RPersist (d : jsval). (* set(), line 208: [() => this.storage.set(...)] *)

(** [BehaviorSubject<T>]: the current value and the subscribed observers. *)
Record BehaviorSubject : Type := {
  value : jsval;
  observers : list SubId
}.

(** The observable built by [refresh()]:
    [this.observable.finally(..).do(..).share()].  [source] is the producer
    captured when it was built, [subscribers] the observers of the shared
    subject.  [share()] subscribes the source when the first observer
    arrives. *)
Record Shared : Type := {
  source : Producer;
  subscribers : list SubId
}.

Record Cache : Type := {
  (* fields of the class *)
  name : string;
  useLocalStorage : bool;
  loaded : bool;
  empty : option bool;                 (* declared without initialiser *)
  allowNull : bool;
  data : BehaviorSubject;
  error : list err;                    (* emissions of the error subject *)
  refreshObservable : option Shared;
  readyResolved : bool;                (* [readyPromise] is fulfilled *)
  readyReactions : list Reaction;      (* [then] callbacks waiting on it *)
  observable : Producer;
  (* the world around the object *)
  probe : Probe;
  microtasks : list Reaction;          (* reactions queued for this task *)
  writes : list jsval;                 (* pending [storage.set] calls *)
  invoked : list Producer;             (* producers subscribed so far *)
  settled : nat;                       (* producer subscriptions that ended *)
  delivered : list (Sub * Notification);
  nextSub : SubId;
  isScalar : bool;                     (* [_isScalar] of the promise observable
                                          at the head of [get$] *)
  bare : list SubId                    (* observers subscribed without an
                                          error handler (line 108) *)
}.

(** ** Field updates *)

Definition with_useLocalStorage (b : bool) (c : Cache) : Cache :=
  {| name := name c; useLocalStorage := b; loaded := loaded c;
     empty := empty c; allowNull := allowNull c; data := data c;
     error := error c; refreshObservable := refreshObservable c;
     readyResolved := readyResolved c; readyReactions := readyReactions c;
     observable := observable c; probe := probe c;
     microtasks := microtasks c; writes := writes c; invoked := invoked c;
     settled := settled c; delivered := delivered c; nextSub := nextSub c;
     isScalar := isScalar c; bare := bare c |}.

Definition with_loaded (b : bool) (c : Cache) : Cache :=
  {| name := name c; useLocalStorage := useLocalStorage c; loaded := b;
     empty := empty c; allowNull := allowNull c; data := data c;
     error := error c; refreshObservable := refreshObservable c;
     readyResolved := readyResolved c; readyReactions := readyReactions c;
     observable := observable c; probe := probe c;
     microtasks := microtasks c; writes := writes c; invoked := invoked c;
     settled := settled c; delivered := delivered c; nextSub := nextSub c;
     isScalar := isScalar c; bare := bare c |}.

Definition with_empty (b : option bool) (c : Cache) : Cache :=
  {| name := name c; useLocalStorage := useLocalStorage c; loaded := loaded c;
     empty := b; allowNull := allowNull c; data := data c;
     error := error c; refreshObservable := refreshObservable c;
     readyResolved := readyResolved c; readyReactions := readyReactions c;
     observable := observable c; probe := probe c;
     microtasks := microtasks c; writes := writes c; invoked := invoked c;
     settled := settled c; delivered := delivered c; nextSub := nextSub c;
     isScalar := isScalar c; bare := bare c |}.

Definition with_allowNull (b : bool) (c : Cache) : Cache :=
  {| name := name c; useLocalStorage := useLocalStorage c; loaded := loaded c;
     empty := empty c; allowNull := b; data := data c;
     error := error c; refreshObservable := refreshObservable c;
     readyResolved := readyResolved c; readyReactions := readyReactions c;
     observable := observable c; probe := probe c;
     microtasks := microtasks c; writes := writes c; invoked := invoked c;
     settled := settled c; delivered := delivered c; nextSub := nextSub c;
     isScalar := isScalar c; bare := bare c |}.

Definition with_data (b : BehaviorSubject) (c : Cache) : Cache :=
  {| name := name c; useLocalStorage := useLocalStorage c; loaded := loaded c;
     empty := empty c; allowNull := allowNull c; data := b;
     error := error c; refreshObservable := refreshObservable c;
     readyResolved := readyResolved c; readyReactions := readyReactions c;
     observable := observable c; probe := probe c;
     microtasks := microtasks c; writes := writes c; invoked := invoked c;
     settled := settled c; delivered := delivered c; nextSub := nextSub c;
     isScalar := isScalar c; bare := bare c |}.

Definition with_error (l : list err) (c : Cache) : Cache :=
  {| name := name c; useLocalStorage := useLocalStorage c; loaded := loaded c;
     empty := empty c; allowNull := allowNull c; data := data c;
     error := l; refreshObservable := refreshObservable c;
     readyResolved := readyResolved c; readyReactions := readyReactions c;
     observable := observable c; probe := probe c;
     microtasks := microtasks c; writes := writes c; invoked := invoked c;
     settled := settled c; delivered := delivered c; nextSub := nextSub c;
     isScalar := isScalar c; bare := bare c |}.

Definition with_refreshObservable (r : option Shared) (c : Cache) : Cache :=
  {| name := name c; useLocalStorage := useLocalStorage c; loaded := loaded c;
     empty := empty c; allowNull := allowNull c; data := data c;
     error := error c; refreshObservable := r;
     readyResolved := readyResolved c; readyReactions := readyReactions c;
     observable := observable c; probe := probe c;
     microtasks := microtasks c; writes := writes c; invoked := invoked c;
     settled := settled c; delivered := delivered c; nextSub := nextSub c;
     isScalar := isScalar c; bare := bare c |}.

Definition with_ready (b : bool) (l : list Reaction) (c : Cache) : Cache :=
  {| name := name c; useLocalStorage := useLocalStorage c; loaded := loaded c;
     empty := empty c; allowNull := allowNull c; data := data c;
     error := error c; refreshObservable := refreshObservable c;
     readyResolved := b; readyReactions := l;
     observable := observable c; probe := probe c;
     microtasks := microtasks c; writes := writes c; invoked := invoked c;
     settled := settled c; delivered := delivered c; nextSub := nextSub c;
     isScalar := isScalar c; bare := bare c |}.

Definition with_observable (p : Producer) (c : Cache) : Cache :=
  {| name := name c; useLocalStorage := useLocalStorage c; loaded := loaded c;
     empty := empty c; allowNull := allowNull c; data := data c;
     error := error c; refreshObservable := refreshObservable c;
     readyResolved := readyResolved c; readyReactions := readyReactions c;
     observable := p; probe := probe c;
     microtasks := microtasks c; writes := writes c; invoked := invoked c;
     settled := settled c; delivered := delivered c; nextSub := nextSub c;
     isScalar := isScalar c; bare := bare c |}.

Definition with_probe (p : Probe) (c : Cache) : Cache :=
  {| name := name c; useLocalStorage := useLocalStorage c; loaded := loaded c;
     empty := empty c; allowNull := allowNull c; data := data c;
     error := error c; refreshObservable := refreshObservable c;
     readyResolved := readyResolved c; readyReactions := readyReactions c;
     observable := observable c; probe := p;
     microtasks := microtasks c; writes := writes c; invoked := invoked c;
     settled := settled c; delivered := delivered c; nextSub := nextSub c;
     isScalar := isScalar c; bare := bare c |}.

Definition with_microtasks (l : list Reaction) (c : Cache) : Cache :=
  {| name := name c; useLocalStorage := useLocalStorage c; loaded := loaded c;
     empty := empty c; allowNull := allowNull c; data := data c;
     error := error c; refreshObservable := refreshObservable c;
     readyResolved := readyResolved c; readyReactions := readyReactions c;
     observable := observable c; probe := probe c;
     microtasks := l; writes := writes c; invoked := invoked c;
     settled := settled c; delivered := delivered c; nextSub := nextSub c;
     isScalar := isScalar c; bare := bare c |}.

Definition with_writes (l : list jsval) (c : Cache) : Cache :=
  {| name := name c; useLocalStorage := useLocalStorage c; loaded := loaded c;
     empty := empty c; allowNull := allowNull c; data := data c;
     error := error c; refreshObservable := refreshObservable c;
     readyResolved := readyResolved c; readyReactions := readyReactions c;
     observable := observable c; probe := probe c;
     microtasks := microtasks c; writes := l; invoked := invoked c;
     settled := settled c; delivered := delivered c; nextSub := nextSub c;
     isScalar := isScalar c; bare := bare c |}.

Definition with_invoked (l : list Producer) (c : Cache) : Cache :=
  {| name := name c; useLocalStorage := useLocalStorage c; loaded := loaded c;
     empty := empty c; allowNull := allowNull c; data := data c;
     error := error c; refreshObservable := refreshObservable c;
     readyResolved := readyResolved c; readyReactions := readyReactions c;
     observable := observable c; probe := probe c;
     microtasks := microtasks c; writes := writes c; invoked := l;
     settled := settled c; delivered := delivered c; nextSub := nextSub c;
     isScalar := isScalar c; bare := bare c |}.

Definition with_settled (n : nat) (c : Cache) : Cache :=
  {| name := name c; useLocalStorage := useLocalStorage c; loaded := loaded c;
     empty := empty c; allowNull := allowNull c; data := data c;
     error := error c; refreshObservable := refreshObservable c;
     readyResolved := readyResolved c; readyReactions := readyReactions c;
     observable := observable c; probe := probe c;
     microtasks := microtasks c; writes := writes c; invoked := invoked c;
     settled := n; delivered := delivered c; nextSub := nextSub c;
     isScalar := isScalar c; bare := bare c |}.

Definition with_delivered (l : list (Sub * Notification)) (c : Cache) : Cache :=
  {| name := name c; useLocalStorage := useLocalStorage c; loaded := loaded c;
     empty := empty c; allowNull := allowNull c; data := data c;
     error := error c; refreshObservable := refreshObservable c;
     readyResolved := readyResolved c; readyReactions := readyReactions c;
     observable := observable c; probe := probe c;
     microtasks := microtasks c; writes := writes c; invoked := invoked c;
     settled := settled c; delivered := l; nextSub := nextSub c;
     isScalar := isScalar c; bare := bare c |}.

Definition with_nextSub (n : SubId) (c : Cache) : Cache :=
  {| name := name c; useLocalStorage := useLocalStorage c; loaded := loaded c;
     empty := empty c; allowNull := allowNull c; data := data c;
     error := error c; refreshObservable := refreshObservable c;
     readyResolved := readyResolved c; readyReactions := readyReactions c;
     observable := observable c; probe := probe c;
     microtasks := microtasks c; writes := writes c; invoked := invoked c;
     settled := settled c; delivered := delivered c; nextSub := n;
     isScalar := isScalar c; bare := bare c |}.

Definition with_isScalar (b : bool) (c : Cache) : Cache :=
  {| name := name c; useLocalStorage := useLocalStorage c; loaded := loaded c;
     empty := empty c; allowNull := allowNull c; data := data c;
     error := error c; refreshObservable := refreshObservable c;
     readyResolved := readyResolved c; readyReactions := readyReactions c;
     observable := observable c; probe := probe c;
     microtasks := microtasks c; writes := writes c; invoked := invoked c;
     settled := settled c; delivered := delivered c; nextSub := nextSub c;
     isScalar := b; bare := bare c |}.

Definition with_bare (l : list SubId) (c : Cache) : Cache :=
  {| name := name c; useLocalStorage := useLocalStorage c; loaded := loaded c;
     empty := empty c; allowNull := allowNull c; data := data c;
     error := error c; refreshObservable := refreshObservable c;
     readyResolved := readyResolved c; readyReactions := readyReactions c;
     observable := observable c; probe := probe c;
     microtasks := microtasks c; writes := writes c; invoked := invoked c;
     settled := settled c; delivered := delivered c; nextSub := nextSub c;
     isScalar := isScalar c; bare := l |}.

(** ** JavaScript and RxJS primitives *)

(** Truthiness of [this.empty] in [if (this.empty)]: [undefined] is falsy. *)
Definition truthy (b : option bool) : bool :=
  match b with
  | Some true => true
  | _ => false
  end.

(** [typeof d !== 'undefined'] *)
Definition defined (d : jsval) : bool :=
  match d with
  | Undefined => false
  | _ => true
  end.

(** [d !== null] on a value. *)
Definition not_null (d : jsval) : bool :=
  match d with
  | Null => false
  | _ => true
  end.

(** [s !== null] on a subject: [this.data] is the [BehaviorSubject] object
    built by the field initialiser (line 64) and never reassigned, so the
    comparison does not look at the value it holds. *)
Definition subject_not_null (s : BehaviorSubject) : bool := true.

(** An observer is handed a notification. *)
Definition deliver (s : Sub) (n : Notification) (c : Cache) : Cache :=
  with_delivered (delivered c ++ [(s, n)]) c.

(** [this.error.next(e)] *)
Definition error_next (e : err) (c : Cache) : Cache :=
  with_error (error c ++ [e]) c.

(** [this.ready().then(k)]: on a fulfilled promise the reaction is queued
    as a microtask, on a pending one it waits for [readyResolve]. *)
Definition ready_then (k : Reaction) (c : Cache) : Cache :=
  if readyResolved c
  then with_microtasks (microtasks c ++ [k]) c
  else with_ready false (readyReactions c ++ [k]) c.

(** [this.readyResolve()]: fulfils the promise once; its reactions are
    queued in registration order. *)
Definition readyResolve (c : Cache) : Cache :=
  if readyResolved c
  then c
  else with_ready true []
         (with_microtasks (microtasks c ++ readyReactions c) c).

(** ** Methods of the class *)

(** [refresh()], lines 182-194: builds the shared observable if the slot is
    free.  The value returned is the content of the slot. *)
Definition refresh (c : Cache) : Cache :=
  match refreshObservable c with
  | None =>
      with_refreshObservable
        (Some {| source := observable c; subscribers := [] |}) c
  | Some _ => c
  end.

(** Subscribing [i] to the observable [refresh()] returned.  The first
    observer makes [share()] subscribe the source: the producer is
    invoked. *)
Definition subscribe_refresh (i : SubId) (c : Cache) : Cache :=
  match refreshObservable c with
  | None => c
  | Some sh =>
      let c1 :=
        match subscribers sh with
        | [] => with_invoked (invoked c ++ [source sh]) c
        | _ :: _ => c
        end in
      with_refreshObservable
        (Some {| source := source sh; subscribers := subscribers sh ++ [i] |})
        c1
  end.

(** [this.refresh().subscribe(..)] by the observer [i]. *)
Definition attach (i : SubId) (c : Cache) : Cache :=
  subscribe_refresh i (refresh c).

(** The predicate of the [filter] of [get$], lines 105-116.  On an empty
    cache it runs [this.refresh().subscribe()] with an observer of its
    own, which has no handler at all. *)
Definition get_filter (c : Cache) : Cache * bool :=
  if truthy (empty c)
  then (with_bare (bare c ++ [nextSub c])
          (attach (nextSub c) (with_nextSub (S (nextSub c)) c)), false)
  else (c, allowNull c || subject_not_null (data c)).

(** One subscriber of [get$] is offered the value [d]. *)
Definition offer (d : jsval) (c : Cache) (i : SubId) : Cache :=
  let (c1, pass) := get_filter c in
  if pass then deliver (Stream i) (Next d) c1 else c1.

(** [this.data.next(d)]: the subject stores [d] and offers it to its
    observers, in subscription order. *)
Definition data_next (d : jsval) (c : Cache) : Cache :=
  fold_left (offer d) (observers (data c))
    (with_data {| value := d; observers := observers (data c) |} c).

(** [set(data)], lines 201-210. *)
Definition set (d : jsval) (c : Cache) : Cache :=
  let c1 := with_empty (Some false) c in
  let c2 := data_next d c1 in
  if useLocalStorage c2 then ready_then (RPersist d) c2 else c2.

(** [setObservable(observable)], lines 217-219. *)
Definition setObservable (p : Producer) (c : Cache) : Cache :=
  with_observable p c.

(** [get()] subscribed by a new observer, lines 166-175: the body waits for
    [this.ready()]. *)
Definition get (c : Cache) : Cache :=
  ready_then (RGet (nextSub c)) (with_nextSub (S (nextSub c)) c).

(** [isEmpty()], lines 226-228. *)
Definition isEmpty (c : Cache) : Cache :=
  ready_then (RIsEmpty (nextSub c)) (with_nextSub (S (nextSub c)) c).

(** [refresh().subscribe(..)] by a new observer. *)
Definition call_refresh (c : Cache) : Cache :=
  attach (nextSub c) (with_nextSub (S (nextSub c)) c).

(** A reaction registered on [this.ready()] runs. *)
Definition run_reaction (c : Cache) (k : Reaction) : Cache :=
  match k with
  | RGet i =>
      if truthy (empty c)
      then attach i c
      else deliver (Caller i) Complete
             (deliver (Caller i) (Next (value (data c))) c)
  | RStream i =>
      (* the promise observable at the head of [get$] has fired; the
         subject registers the observer, then replays its value *)
      let c1 := with_data {| value := value (data c);
                             observers := observers (data c) ++ [i] |} c in
      with_isScalar true (offer (value (data c)) c1 i)
  | RIsEmpty i => deliver (Asker i) (Resolved (empty c)) c
  | RPersist d => with_writes (writes c ++ [d]) c
  end.

(** [get$] subscribed by a new observer, line 105.  [get$] is one
    observable, built once by the constructor: the promise observable at
    its head follows [this.ready()] until the reaction of one of its
    subscriptions has run, and serves every later subscription inside
    [subscribe]. *)
Definition subscribe_get_stream (c : Cache) : Cache :=
  let c1 := with_nextSub (S (nextSub c)) c in
  if isScalar c
  then run_reaction c1 (RStream (nextSub c))
  else ready_then (RStream (nextSub c)) c1.

(** The end of the current task: the queued reactions run in order. *)
Definition drain (c : Cache) : Cache :=
  fold_left run_reaction (microtasks c) (with_microtasks [] c).

(** ** Construction *)

(** The field initialisers, lines 22-92. *)
Definition fields (n : string) (p : Producer) : Cache :=
  {| name := n; useLocalStorage := true; loaded := false; empty := None;
     allowNull := false; data := {| value := Null; observers := [] |};
     error := []; refreshObservable := None;
     readyResolved := false; readyReactions := [];
     observable := p; probe := NoProbe; microtasks := []; writes := [];
     invoked := []; settled := 0; delivered := []; nextSub := 0;
     isScalar := false; bare := [] |}.

(** The body of the constructor, lines 101-150. *)
Definition constructor (c : Cache) : Cache :=
  if useLocalStorage c
  then with_probe AwaitStorageReady c
  else readyResolve (with_empty (Some true) c).

(** [new Cache(name, observable, storage)] *)
Definition new_Cache (n : string) (p : Producer) : Cache :=
  constructor (fields n p).

(** ** The handlers of the store and of the producer *)

Definition probe_is (p : Probe) (c : Cache) : bool :=
  match p, probe c with
  | NoProbe, NoProbe => true
  | AwaitStorageReady, AwaitStorageReady => true
  | AwaitStorageGet, AwaitStorageGet => true
  | ProbeSettled, ProbeSettled => true
  | _, _ => false
  end.

(** [storage.ready()] fulfils: [storage.get(this.name)] is issued. *)
Definition storage_ready_ok (c : Cache) : Cache :=
  if probe_is AwaitStorageReady c then with_probe AwaitStorageGet c else c.

(** [storage.ready()] rejects, lines 138-144. *)
Definition storage_ready_fail (e : err) (c : Cache) : Cache :=
  if probe_is AwaitStorageReady c
  then with_probe ProbeSettled
         (error_next "Cache failed to access local storage." c)
  else c.

(** [storage.get(this.name)] fulfils with [d], lines 120-131. *)
Definition storage_get_ok (d : jsval) (c : Cache) : Cache :=
  if probe_is AwaitStorageGet c
  then
    let c1 :=
      if defined d && (allowNull c || not_null d)
      then with_empty (Some false) (data_next d c)
      else with_empty (Some true) c in
    with_probe ProbeSettled (readyResolve (with_loaded true c1))
  else c.

(** [storage.get(this.name)] rejects, lines 132-137. *)
Definition storage_get_fail (e : err) (c : Cache) : Cache :=
  if probe_is AwaitStorageGet c
  then with_probe ProbeSettled
         (error_next ("Cache failed to retrieve " ++ dquote ++ name c
                        ++ dquote ++ " from local storage.") c)
  else c.

(** The oldest pending [storage.set] fulfils: [this.loaded = true]. *)
Definition storage_set_ok (c : Cache) : Cache :=
  match writes c with
  | [] => c
  | _ :: w => with_loaded true (with_writes w c)
  end.

(** The oldest pending [storage.set] rejects: the promise of line 208 has
    no rejection handler. *)
Definition storage_set_fail (e : err) (c : Cache) : Cache :=
  match writes c with
  | [] => c
  | _ :: w => with_writes w c
  end.

(** The observers of the observable in the slot. *)
Definition shared_subscribers (c : Cache) : list SubId :=
  match refreshObservable c with
  | Some sh => subscribers sh
  | None => []
  end.

(** The shared subject hands [n] to each of its observers. *)
Definition notify_all (n : Notification) (c : Cache) : Cache :=
  fold_left (fun c' i => deliver (Caller i) n c') (shared_subscribers c) c.

(** The observers the loop of [Subject.error] reaches among [l]: an
    observer without an error handler rethrows the failure, which ends the
    loop, so the observers after the first of them are not reached. *)
Fixpoint heard (b : list SubId) (l : list SubId) : list SubId :=
  match l with
  | [] => []
  | i :: l' => if existsb (Nat.eqb i) b then [i] else i :: heard b l'
  end.

(** The shared subject hands the failure [e] to the observers its loop
    reaches. *)
Definition notify_error (e : err) (c : Cache) : Cache :=
  fold_left (fun c' i => deliver (Caller i) (Error e) c')
    (heard (bare c) (shared_subscribers c)) c.

(** The producer subscribed by the observable in the slot settles, lines
    185-190: a value goes through the [next] handler of [do] ([set]) and on
    to the observers, followed by the completion; a failure goes through
    the error handler of [do] and on to the observers the loop of the
    subject reaches.  [finally] frees the slot. *)
Definition settle (r : Outcome jsval) (c : Cache) : Cache :=
  let c0 := with_settled (S (settled c)) c in
  match r with
  | Yield v =>
      with_refreshObservable None
        (notify_all Complete (notify_all (Next v) (set v c0)))
  | Fail e =>
      with_refreshObservable None (notify_error e (error_next e c0))
  end.

(** A settlement reaches the entity only if the observable in the slot
    subscribed the producer, that is if it has an observer. *)
Definition producer_settles (r : Outcome jsval) (c : Cache) : Cache :=
  match shared_subscribers c with
  | [] => c
  | _ :: _ => settle r c
  end.

(** ** Events *)

Inductive Event : Type :=
(* user code, inside the current task *)
| CallGet
| CallRefresh
| CallSet (d : jsval)
| CallSetObservable (p : Producer)
| CallIsEmpty
| SubscribeStream
| AssignAllowNull (b : bool)
| AssignUseLocalStorage (b : bool)
(* the current task ends *)
| Tick
(* the store and the producer, each in a task of its own *)
| StorageReadyOk
| StorageReadyFail (e : err)
| StorageGetOk (d : jsval)
| StorageGetFail (e : err)
| StorageSetOk
| StorageSetFail (e : err)
| ProducerSettles (r : Outcome jsval).

(** The handler of one event.  A call of user code runs inside the current
    task.  The store and the producer settle in a task of their own: the
    task before it is over (its queue is drained), the handler runs, and
    the reactions it queued run before the task ends. *)
Definition step (c : Cache) (ev : Event) : Cache :=
  match ev with
  | CallGet => get c
  | CallRefresh => call_refresh c
  | CallSet d => set d c
  | CallSetObservable p => setObservable p c
  | CallIsEmpty => isEmpty c
  | SubscribeStream => subscribe_get_stream c
  | AssignAllowNull b => with_allowNull b c
  | AssignUseLocalStorage b => with_useLocalStorage b c
  | Tick => drain c
  | StorageReadyOk => drain (storage_ready_ok (drain c))
  | StorageReadyFail e => drain (storage_ready_fail e (drain c))
  | StorageGetOk d => drain (storage_get_ok d (drain c))
  | StorageGetFail e => drain (storage_get_fail e (drain c))
  | StorageSetOk => drain (storage_set_ok (drain c))
  | StorageSetFail e => drain (storage_set_fail e (drain c))
  | ProducerSettles r => drain (producer_settles r (drain c))
  end.

(** The handler of a sequence of events. *)
Definition run (c : Cache) (evs : list Event) : Cache :=
  fold_left step evs c.

Definition sub_eqb (a b : Sub) : bool :=
  match a, b with
  | Stream i, Stream j => Nat.eqb i j
  | Caller i, Caller j => Nat.eqb i j
  | Asker i, Asker j => Nat.eqb i j
  | _, _ => false
  end.

(** What a subscription has been handed so far. *)
Definition received (s : Sub) (c : Cache) : list Notification :=
  map snd (filter (fun x => sub_eqb s (fst x)) (delivered c)).

(** Producer subscriptions that have started and not ended. *)
Definition outstanding (c : Cache) : nat :=
  List.length (invoked c) - settled c.

End Entity.

Arguments attach : simpl never.
Arguments jsval T : clear implicits.
Arguments Cache T : clear implicits.
Arguments Event T : clear implicits.
Arguments Notification T : clear implicits.
Arguments Reaction T : clear implicits.
Arguments BehaviorSubject T : clear implicits.

(** * The registry *)

(** The class [CacheService]: an array of caches looked up by name.  A cache
    handed out by the service is the object held in the array; here it is
    designated by its index in [caches], and a method called on it updates
    the array in place.  [register] returns a cold observable: the call and
    the subscription are two steps, and the registry may change between
    them. *)
Module CacheService.
Section Service.
Context {T : Type}.

Record CacheService : Type := {
  caches : list (Cache T)
}.

(** The message of [Observable.throw] in [get], line 63. *)
Definition not_registered (nm : string) : err :=
  ("Cache " ++ dquote ++ nm ++ " has not been registered yet.")%string.

(** The loop of [get], lines 57-61: the index of the first cache whose
    name is [nm], counted from [i]. *)
Fixpoint find_from (nm : string) (l : list (Cache T)) (i : nat) : option nat :=
  match l with
  | [] => None
  | c :: l' => if String.eqb (name c) nm then Some i else find_from nm l' (S i)
  end.

(** [get(name)], lines 56-64: [Observable.of(this.caches[i])] or
    [Observable.throw(..)]. *)
Definition get (nm : string) (s : CacheService) : nat + err :=
  match find_from nm (caches s) 0 with
  | Some i => inl i
  | None => inr (not_registered nm)
  end.

(** [overwrite !== false] for an optional parameter. *)
Definition not_false (overwrite : option bool) : bool :=
  match overwrite with
  | Some false => false
  | _ => true
  end.

(** A method called on the cache at index [i]. *)
Fixpoint update (i : nat) (f : Cache T -> Cache T) (l : list (Cache T)) :
  list (Cache T) :=
  match l, i with
  | [], _ => []
  | c :: l', 0 => f c :: l'
  | c :: l', S i' => c :: update i' f l'
  end.

(** The observable [register] returns, lines 35-47: the source
    [this.get(name)], evaluated by the call, and the arguments the handler
    of [catch] and the function of [map] close over. *)
Record Registration : Type := {
  reg_name : string;
  reg_observable : Producer;
  reg_overwrite : option bool;
  found : nat + err
}.

(** [register(name, observable, overwrite)], lines 34-48.  The call looks
    the name up and builds the observable; it creates nothing and rebinds
    nothing. *)
Definition register (nm : string) (p : Producer) (overwrite : option bool)
  (s : CacheService) : Registration :=
  {| reg_name := nm; reg_observable := p; reg_overwrite := overwrite;
     found := get nm s |}.

(** The observable [register] returned is subscribed, in the registry [s]
    of that moment: the source replays what the lookup of the call found,
    the handler of [catch] (lines 36-41) turns its error into a new cache,
    the function of [map] (lines 42-47) rebinds the producer.  Both run at
    every subscription. *)
Definition subscribe (r : Registration) (s : CacheService) :
  CacheService * nat :=
  let (s1, i) :=
    match found r with
    | inl i => (s, i)
    | inr _ =>
        (* the handler of [catch]: [this.caches.push(cache) - 1] *)
        ({| caches := caches s ++ [new_Cache (reg_name r) (reg_observable r)] |},
         List.length (caches s))
    end in
  (* the function of [map] *)
  if not_false (reg_overwrite r)
  then ({| caches := update i (setObservable (reg_observable r)) (caches s1) |},
        i)
  else (s1, i).

(** [s] holds the caches [s0] held, under their names, and possibly more:
    the array only grows and [name] is read-only. *)
Definition extends (s0 s : CacheService) : Prop :=
  exists ns : list string,
    map name (caches s) = (map name (caches s0) ++ ns)%list.

(** The cache a reference designates. *)
Definition deref (s : CacheService) (i : nat) : option (Cache T) :=
  nth_error (caches s) i.

End Service.
End CacheService.

(** * Notions used to state the properties of the entity *)

Local Open Scope list_scope.

Section EntityNotions.
Context {T : Type}.
Implicit Types (c : Cache T) (d : jsval T) (q : list (Reaction T))
  (k : Reaction T) (n : Notification T) (ev : Event T).

(** The part of the state the refresh coordinator lives in. *)
Definition coord c : option Shared * list Producer * nat * SubId :=
  (refreshObservable c, invoked c, settled c, nextSub c).

(** The part of the state the readiness gate lives in. *)
Definition gate c : bool * list (Reaction T) * list (Reaction T) :=
  (readyResolved c, readyReactions c, microtasks c).

(** The observers that wait on the gate to run the body of [get()]. *)
Definition get_id k : list SubId :=
  match k with
  | RGet i => [i]
  | _ => []
  end.

(** The observers that wait in a list of reactions. *)
Definition ids_of q : list SubId := flat_map get_id q.

(** The slot is occupied exactly while a producer subscription is running,
    and the observable in it has an observer. *)
Definition slot_ok c : Prop :=
  match refreshObservable c with
  | None => List.length (invoked c) = settled c
  | Some sh => subscribers sh <> [] /\ List.length (invoked c) = S (settled c)
  end.

(** The observers of the slot and the observers waiting in [q] are pairwise
    distinct and were allocated from [nextSub]. *)
Definition ids_ok c q : Prop :=
  NoDup (shared_subscribers c ++ ids_of q) /\
  Forall (fun i => i < nextSub c) (shared_subscribers c ++ ids_of q).

(** A fulfilled promise holds no reaction back. *)
Definition gate_ok c : Prop :=
  readyResolved c = true -> readyReactions c = [].

(** The invariant, with the reactions still to run given apart: inside
    [drain] they are no longer in the state. *)
Definition WFq c q : Prop := slot_ok c /\ ids_ok c q /\ gate_ok c.

(** The invariant of the reachable states. *)
Definition WF c : Prop := WFq c (microtasks c ++ readyReactions c).

(** [set(d)] in one piece: the flag is cleared, the subject stores [d] and
    hands it to every subscriber of [get$], the write is scheduled behind
    the gate. *)
Definition recorded d c : Cache T :=
  with_delivered
    (delivered c ++ map (fun i => (Stream i, Next d)) (observers (data c)))
    (with_data {| value := d; observers := observers (data c) |}
       (with_empty (Some false) c)).

(** The slot is free. *)
Definition idle c : bool :=
  match refreshObservable c with
  | None => true
  | Some _ => false
  end.

(** The producer subscriptions expected in [c] when nothing settled since
    [c0]: one more than in [c0] if the slot was free then and is not now. *)
Definition expected (c0 c : Cache T) : list Producer :=
  invoked c0 ++ (if idle c0 && negb (idle c) then [observable c0] else []).

(** [c] comes from [c0] by requests and reactions only: the producer bound,
    the flag and the gate are those of [c0], and the producer was
    subscribed at most once since. *)
Definition tracks (c0 c : Cache T) : Prop :=
  observable c = observable c0 /\
  empty c = empty c0 /\
  readyResolved c = readyResolved c0 /\
  (forall sh, refreshObservable c = Some sh -> subscribers sh <> []) /\
  invoked c = expected c0 c /\
  (idle c = true -> idle c0 = true).

(** A request of the kind the single-flight property is about: a
    subscription of [refresh()], or of [get()] while the cache is ready and
    empty. *)
Definition request_on c ev : Prop :=
  ev = CallRefresh \/
  (ev = CallGet /\ readyResolved c = true /\ empty c = Some true).

(** The observer [i] is attached to the observable of the slot, or will be
    when the task ends. *)
Definition joining (i : SubId) c : Prop :=
  In i (shared_subscribers c) \/
  (In (RGet i) (microtasks c) /\ truthy (empty c) = true).


(** The loop of [Subject.error] reaches the observer [i] of the slot: no
    observer without an error handler is ahead of it. *)
Definition reached c (i : SubId) : bool :=
  existsb (Nat.eqb i) (heard (bare c) (shared_subscribers c)).

(** The notifications a settlement amounts to for the observer [i] of the
    slot of [c]. *)
Definition outcome_for c (i : SubId) (r : Outcome (jsval T)) :
  list (Notification T) :=
  match r with
  | Yield v => [Next v; Complete]
  | Fail e => if reached c i then [Error e] else []
  end.

(** The notifications of a log that went to [s]. *)
Definition picks (s : Sub) (l : list (Sub * Notification T)) :
  list (Notification T) :=
  map snd (filter (fun x => sub_eqb s (fst x)) l).

(** The configuration of the entity, its error log and the state of the
    probe. *)
Definition config c :=
  (name c, useLocalStorage c, loaded c, allowNull c, error c, observable c,
   probe c).

(** What the entity holds in memory: the flag and the current snapshot. *)
Definition memory c : option bool * jsval T := (empty c, value (data c)).

(** What requests and reactions leave alone. *)
Definition kept c := (config c, memory c).

(** The latch of the gate: the state of the probe and of the promise. *)
Definition latch c : Probe * bool := (probe c, readyResolved c).

(** The rejection the pending probe can meet (lines 132-144). *)
Definition probe_failure c (e : err) : Event T :=
  match probe c with
  | AwaitStorageGet => StorageGetFail e
  | _ => StorageReadyFail e
  end.

(** The message the handler of that rejection emits. *)
Definition probe_failure_message c : err :=
  match probe c with
  | AwaitStorageGet =>
      "Cache failed to retrieve " ++ dquote ++ name c ++ dquote
        ++ " from local storage."
  | _ => "Cache failed to access local storage."
  end%string.

(** [i] was allocated and is not attached to the observable of the slot. *)
Definition quiet (i : SubId) c : Prop :=
  i < nextSub c /\ ~ In i (shared_subscribers c).

(** In addition [i] does not wait in the queue of the task, and either it
    does not wait behind the gate ([parked = false]: nothing can be handed
    to [Caller i] any more) or the gate is shut ([parked = true]). *)
Definition asleep (parked : bool) (i : SubId) c : Prop :=
  quiet i c /\ ~ In i (ids_of (microtasks c)) /\
  if parked then readyResolved c = false
  else ~ In i (ids_of (readyReactions c)).

(** The calls user code can make inside one task. *)
Definition is_call ev : bool :=
  match ev with
  | CallGet | CallRefresh | CallSet _ | CallSetObservable _ | CallIsEmpty
  | SubscribeStream | AssignAllowNull _ | AssignUseLocalStorage _ => true
  | _ => false
  end.

(** The test of line 121 on what the store read. *)
Definition accepted c d : bool := defined d && (allowNull c || not_null d).

(** The event is the answer of the store to the pending probe. *)
Definition opens_gate c ev : bool :=
  match ev with
  | StorageGetOk _ => probe_is AwaitStorageGet c
  | _ => false
  end.

(** The event is an answer of the store that sets [loaded]: the answer to
    the pending probe, or the acknowledgement of a write that is pending
    when the task of the event starts. *)
Definition acknowledged c ev : bool :=
  match ev with
  | StorageGetOk _ => probe_is AwaitStorageGet c
  | StorageSetOk =>
      match writes (drain c) with
      | [] => false
      | _ :: _ => true
      end
  | _ => false
  end.

(** What the event makes the error subject emit. *)
Definition emitted c ev : list err :=
  match ev with
  | StorageReadyFail _ =>
      if probe_is AwaitStorageReady c then [probe_failure_message c] else []
  | StorageGetFail _ =>
      if probe_is AwaitStorageGet c then [probe_failure_message c] else []
  | ProducerSettles (Fail e) =>
      match shared_subscribers (drain c) with
      | [] => []
      | _ :: _ => [e]
      end
  | _ => []
  end.

(** What holds of the gate in the states the entity can reach. *)
Definition gate_inv c : Prop :=
  loaded c = readyResolved c /\
  (readyResolved c = true ->
   probe c = ProbeSettled /\ empty c <> None) /\
  (readyResolved c = false ->
   microtasks c = [] /\ writes c = [] /\ observers (data c) = [] /\
   empty c <> Some true).

(** The identity of a subscription. *)
Definition sub_id (s : Sub) : SubId :=
  match s with
  | Stream i | Caller i | Asker i => i
  end.

(** What each kind of subscription can be handed: a subscriber of [get$]
    values only, an observer of [get()] or of [refresh()] values, a failure
    or the completion, the consumer of [isEmpty()] the fulfilment. *)
Definition fits (s : Sub) n : bool :=
  match s, n with
  | Stream _, Next _ => true
  | Caller _, Next _ => true
  | Caller _, Error _ => true
  | Caller _, Complete => true
  | Asker _, Resolved _ => true
  | _, _ => false
  end.

(** An entry of the log: the subscription was allocated below [b] and the
    notification fits its kind. *)
Definition entry_ok (b : SubId) (x : Sub * Notification T) : Prop :=
  sub_id (fst x) < b /\ fits (fst x) (snd x) = true.

(** The subscription a reaction works for was allocated below [b]. *)
Definition reaction_ok (b : SubId) k : Prop :=
  match k with
  | RGet i | RStream i | RIsEmpty i => i < b
  | RPersist _ => True
  end.

(** The subscribers of [get$] that wait in a list of reactions. *)
Definition stream_id k : list SubId :=
  match k with
  | RStream i => [i]
  | _ => []
  end.

Definition streams_of q : list SubId := flat_map stream_id q.

(** What the log, the observers and the reactions [q] still to run look
    like in the reachable states: every identity in use was allocated from
    [nextSub], every entry of the log fits, and a subscriber of [get$] is an
    observer of the subject or waits in [q], once. *)
Definition tidy c q : Prop :=
  Forall (entry_ok (nextSub c)) (delivered c) /\
  Forall (reaction_ok (nextSub c)) q /\
  Forall (fun i => i < nextSub c) (shared_subscribers c) /\
  Forall (fun i => i < nextSub c) (observers (data c)) /\
  NoDup (observers (data c) ++ streams_of q).

Definition Tidy c : Prop := tidy c (microtasks c ++ readyReactions c).

(** The part of the state [tidy] looks at. *)
Definition surface c :=
  (delivered c, nextSub c, shared_subscribers c, observers (data c)).

(** The subscription a reaction works for. *)
Definition target k : option Sub :=
  match k with
  | RGet i => Some (Caller i)
  | RStream i => Some (Stream i)
  | RIsEmpty i => Some (Asker i)
  | RPersist _ => None
  end.

(** What an observer of [get()] or of [refresh()] can have been handed:
    nothing yet, one value and the completion, or one failure. *)
Definition finished (l : list (Notification T)) : Prop :=
  l = [] \/ (exists v, l = [Next v; Complete]) \/ (exists e, l = [Error e]).

(** Every such observer has been handed that, and the observers attached to
    the slot or waiting in [q] nothing yet. *)
Definition protocol c q : Prop :=
  forall i,
    finished (received (Caller i) c) /\
    (In i (shared_subscribers c ++ ids_of q) -> received (Caller i) c = []).

Definition Protocol c : Prop := protocol c (microtasks c ++ readyReactions c).

(** The event is a subscription of [refresh()] by user code. *)
Definition is_refresh ev : bool :=
  match ev with
  | CallRefresh => true
  | _ => false
  end.

(** The entity is ready and holds a value. *)
Definition stocked c : Prop :=
  readyResolved c = true /\ probe c = ProbeSettled /\ empty c = Some false.



End EntityNotions.

(** * Inputs of the concrete runs *)

Module Inputs.

(** The store is ready and holds nothing under the key: the entity ends up
    ready and empty. *)
Definition boot : list (Event nat) := [StorageReadyOk; StorageGetOk Undefined].

Definition fresh : Cache nat := run (new_Cache "shoppingList" 7) boot.

(** Two [get()] and one [refresh()] issued in one task. *)
Definition three_requests : list (Event nat) := [CallGet; CallRefresh; CallGet].

(** The store holds a value under the key: the entity ends up ready and
    not empty. *)
Definition stored : list (Event nat) := [StorageReadyOk; StorageGetOk (Val 1)].

(** A registry that holds two caches. *)
Definition two_caches : CacheService.CacheService (T:=nat) :=
  {| CacheService.caches := [new_Cache "shoppingList" 7; new_Cache "recipes" 8] |}.

(** The same registry after a third cache was registered. *)
Definition three_caches : CacheService.CacheService (T:=nat) :=
  {| CacheService.caches :=
       [new_Cache "shoppingList" 7; new_Cache "recipes" 8;
        new_Cache "menu" 9] |}.

(** The store is ready and the read of the key is pending. *)
Definition probing : list (Event nat) := [StorageReadyOk].

(** A refresh is running on an entity that is ready and empty. *)
Definition refreshing : list (Event nat) := boot ++ [CallRefresh].

(** One subscriber of [get$] on an entity that is ready and holds a value. *)
Definition watched : list (Event nat) := stored ++ [SubscribeStream; Tick].

End Inputs.

(** * Facts about the entity *)

Section EntityFacts.
Context {T : Type}.
Implicit Types (c : Cache T) (d : jsval T) (q : list (Reaction T))
  (k : Reaction T) (n : Notification T) (ev : Event T).

(** ** What each operation leaves alone *)

Lemma deliver_coord s n c : coord (deliver s n c) = coord c.
Proof. reflexivity. Qed.

Lemma deliver_gate s n c : gate (deliver s n c) = gate c.
Proof. reflexivity. Qed.

Lemma received_deliver s s' n c :
  received s (deliver s' n c) =
  received s c ++ (if sub_eqb s s' then [n] else []).
Proof.
  unfold received, deliver; simpl.
  rewrite filter_app, map_app; simpl.
  destruct (sub_eqb s s'); reflexivity.
Qed.

Lemma sub_eqb_refl s : sub_eqb s s = true.
Proof. destruct s; simpl; apply Nat.eqb_refl. Qed.

Lemma sub_eqb_caller i j : sub_eqb (Caller i) (Caller j) = Nat.eqb i j.
Proof. reflexivity. Qed.

(** On a cache that is not empty the filter of [get$] lets everything
    through and touches nothing. *)
Lemma get_filter_nonempty c :
  truthy (empty c) = false -> get_filter c = (c, true).
Proof.
  intros H; unfold get_filter; rewrite H.
  unfold subject_not_null; rewrite orb_true_r; reflexivity.
Qed.

Lemma offer_nonempty d c i :
  truthy (empty c) = false -> offer d c i = deliver (Stream i) (Next d) c.
Proof. intros H; unfold offer; rewrite get_filter_nonempty; auto. Qed.

Lemma fold_offer_nonempty d obs : forall c,
  truthy (empty c) = false ->
  fold_left (offer d) obs c =
  with_delivered (delivered c ++ map (fun i => (Stream i, Next d)) obs) c.
Proof.
  induction obs as [|i obs IH]; intros c H; simpl.
  - rewrite app_nil_r; destruct c; reflexivity.
  - rewrite offer_nonempty by assumption.
    rewrite IH by exact H.
    unfold deliver; simpl. rewrite <- app_assoc. reflexivity.
Qed.

(** [data.next(d)] on a cache that is not empty: the value is stored and
    every subscriber of [get$] is handed [d]. *)
Lemma data_next_nonempty d c :
  truthy (empty c) = false ->
  data_next d c =
  with_delivered
    (delivered c ++ map (fun i => (Stream i, Next d)) (observers (data c)))
    (with_data {| value := d; observers := observers (data c) |} c).
Proof.
  intros H; unfold data_next. rewrite fold_offer_nonempty; auto.
Qed.

(** ** The invariant of the refresh coordinator *)

Lemma ids_of_app q1 q2 : ids_of (q1 ++ q2) = ids_of q1 ++ ids_of q2.
Proof. unfold ids_of; apply flat_map_app. Qed.

Lemma WFq_ext c c' q :
  coord c' = coord c ->
  readyResolved c' = readyResolved c ->
  readyReactions c' = readyReactions c ->
  WFq c q -> WFq c' q.
Proof.
  unfold coord, WFq, slot_ok, ids_ok, gate_ok, shared_subscribers.
  intros Hc Hr Hq; injection Hc as -> -> -> ->; rewrite Hr, Hq; auto.
Qed.

Lemma WFq_ids c q q' : ids_of q' = ids_of q -> WFq c q -> WFq c q'.
Proof. unfold WFq, ids_ok; intros ->; auto. Qed.

Lemma nodup_insert (x : SubId) l1 l2 :
  NoDup (l1 ++ l2) -> ~ In x (l1 ++ l2) -> NoDup (l1 ++ x :: l2).
Proof.
  intros H1 H2. apply (NoDup_Add (Add_app x l1 l2)); auto.
Qed.

Lemma fresh_not_in (x : SubId) l : Forall (fun i => i < x) l -> ~ In x l.
Proof.
  intros H Hin. rewrite Forall_forall in H. apply H in Hin. lia.
Qed.

Lemma Forall_lt_S (x : SubId) l :
  Forall (fun i => i < x) l -> Forall (fun i => i < S x) l.
Proof. apply Forall_impl; intros; lia. Qed.

Lemma Forall_insert (P : SubId -> Prop) x l1 l2 :
  P x -> Forall P (l1 ++ l2) -> Forall P (l1 ++ x :: l2).
Proof.
  rewrite !Forall_app; intros Hx [H1 H2]; split; auto.
Qed.

Lemma attach_idle i c :
  refreshObservable c = None ->
  attach i c =
  with_refreshObservable
    (Some {| source := observable c; subscribers := [i] |})
    (with_invoked (invoked c ++ [observable c]) c).
Proof.
  intros E; unfold attach, refresh; rewrite E.
  unfold subscribe_refresh; simpl. destruct c; reflexivity.
Qed.

Lemma attach_busy i c sh :
  refreshObservable c = Some sh ->
  attach i c =
  with_refreshObservable
    (Some {| source := source sh; subscribers := subscribers sh ++ [i] |})
    match subscribers sh with
    | [] => with_invoked (invoked c ++ [source sh]) c
    | _ :: _ => c
    end.
Proof.
  intros E; unfold attach, refresh; rewrite E.
  unfold subscribe_refresh; rewrite E; reflexivity.
Qed.

Ltac attach_cases i c :=
  let E := fresh "E" in
  let sh := fresh "sh" in
  destruct (refreshObservable c) as [sh|] eqn:E;
  [ rewrite (attach_busy i c sh E) | rewrite (attach_idle i c E) ].

Lemma attach_subscribers i c :
  shared_subscribers (attach i c) = shared_subscribers c ++ [i].
Proof.
  unfold shared_subscribers at 2. attach_cases i c; reflexivity.
Qed.

Lemma attach_slot_ok i c : slot_ok c -> slot_ok (attach i c).
Proof.
  unfold slot_ok at 1. attach_cases i c; unfold slot_ok; simpl.
  - intros [Hne Hlen]. destruct (subscribers sh) as [|j l]; [congruence|].
    simpl; split; [discriminate | assumption].
  - intros Hlen; split; [discriminate|].
    rewrite length_app; simpl; lia.
Qed.

Lemma attach_nextSub i c : nextSub (attach i c) = nextSub c.
Proof.
  attach_cases i c; simpl; auto. destruct (subscribers sh); reflexivity.
Qed.

Lemma attach_gate i c : gate (attach i c) = gate c.
Proof.
  attach_cases i c; simpl; auto. destruct (subscribers sh); reflexivity.
Qed.

(** An observer that waited in the queue attaches. *)
Lemma attach_pending_WFq i c q :
  WFq c (RGet i :: q) -> WFq (attach i c) q.
Proof.
  intros (Hs & [Hnd Hlt] & Hg); repeat split.
  - apply attach_slot_ok; assumption.
  - rewrite attach_subscribers, <- app_assoc; exact Hnd.
  - rewrite attach_subscribers, attach_nextSub, <- app_assoc; exact Hlt.
  - pose proof (attach_gate i c) as E; unfold gate in E.
    injection E as E1 E2 _. unfold gate_ok; rewrite E1, E2; exact Hg.
Qed.

(** A newly allocated observer attaches. *)
Lemma attach_fresh_WFq c q :
  WFq c q -> WFq (attach (nextSub c) (with_nextSub (S (nextSub c)) c)) q.
Proof.
  intros (Hs & [Hnd Hlt] & Hg).
  apply attach_pending_WFq. repeat split; auto; simpl.
  - change (shared_subscribers (with_nextSub (S (nextSub c)) c))
      with (shared_subscribers c).
    apply nodup_insert; auto. apply fresh_not_in; assumption.
  - change (shared_subscribers (with_nextSub (S (nextSub c)) c))
      with (shared_subscribers c).
    apply Forall_insert; [lia|]. apply Forall_lt_S; assumption.
Qed.

Lemma WFq_gate c c' q :
  coord c' = coord c -> gate c' = gate c -> WFq c q -> WFq c' q.
Proof.
  intros Hc Hg; unfold gate in Hg; injection Hg as H1 H2 _.
  apply WFq_ext; assumption.
Qed.

Lemma get_filter_WFq c q : WFq c q -> WFq (fst (get_filter c)) q.
Proof.
  unfold get_filter; destruct (truthy (empty c)); simpl; auto.
  apply attach_fresh_WFq.
Qed.

Lemma get_filter_gate c : gate (fst (get_filter c)) = gate c.
Proof.
  unfold get_filter; destruct (truthy (empty c)); simpl; auto.
  apply (attach_gate (nextSub c) (with_nextSub (S (nextSub c)) c)).
Qed.

Lemma offer_fst d c i :
  offer d c i = fst (get_filter c) \/
  offer d c i = deliver (Stream i) (Next d) (fst (get_filter c)).
Proof.
  unfold offer; destruct (get_filter c) as [c1 [|]]; simpl; auto.
Qed.

Lemma offer_WFq d c i q : WFq c q -> WFq (offer d c i) q.
Proof.
  intros H; apply get_filter_WFq in H.
  destruct (offer_fst d c i) as [-> | ->]; [exact H|].
  revert H; apply WFq_gate; reflexivity.
Qed.

Lemma offer_gate d c i : gate (offer d c i) = gate c.
Proof.
  destruct (offer_fst d c i) as [-> | ->];
    [|rewrite deliver_gate]; apply get_filter_gate.
Qed.

Lemma fold_offer_WFq d q obs : forall c,
  WFq c q -> WFq (fold_left (offer d) obs c) q.
Proof.
  induction obs as [|i obs IH]; simpl; intros c H; auto.
  apply IH, offer_WFq, H.
Qed.

Lemma fold_offer_gate d obs : forall c,
  gate (fold_left (offer d) obs c) = gate c.
Proof.
  induction obs as [|i obs IH]; simpl; intros c; auto.
  rewrite IH; apply offer_gate.
Qed.

Lemma data_next_WFq d c q : WFq c q -> WFq (data_next d c) q.
Proof.
  intros H; unfold data_next; apply fold_offer_WFq.
  revert H; apply WFq_gate; reflexivity.
Qed.

Lemma data_next_gate d c : gate (data_next d c) = gate c.
Proof. unfold data_next; rewrite fold_offer_gate; reflexivity. Qed.

(** [this.ready().then(k)] puts [k] at the end of the waiting reactions. *)
Lemma ready_then_queue k c :
  gate_ok c ->
  microtasks (ready_then k c) ++ readyReactions (ready_then k c) =
  (microtasks c ++ readyReactions c) ++ [k].
Proof.
  unfold gate_ok, ready_then; intros H.
  destruct (readyResolved c); simpl.
  - rewrite H by reflexivity. rewrite !app_nil_r; reflexivity.
  - rewrite app_assoc; reflexivity.
Qed.

Lemma ready_then_coord k c : coord (ready_then k c) = coord c.
Proof. unfold ready_then; destruct (readyResolved c); reflexivity. Qed.

Lemma ready_then_gate_ok k c : gate_ok c -> gate_ok (ready_then k c).
Proof.
  unfold gate_ok, ready_then; destruct (readyResolved c) eqn:E; simpl;
    rewrite ?E; auto; discriminate.
Qed.

Lemma ready_then_WF k c :
  WFq c ((microtasks c ++ readyReactions c) ++ [k]) -> WF (ready_then k c).
Proof.
  intros (Hs & Hi & Hg). unfold WF. rewrite ready_then_queue by assumption.
  pose proof (ready_then_coord k c) as E. unfold coord in E.
  injection E as E1 E2 E3 E4.
  repeat split.
  - unfold slot_ok; rewrite E1, E2, E3; exact Hs.
  - unfold shared_subscribers; rewrite E1; apply Hi.
  - unfold shared_subscribers; rewrite E1, E4; apply Hi.
  - apply ready_then_gate_ok, Hg.
Qed.

(** A reaction that is not the body of [get()] adds no observer. *)
Lemma WFq_snoc_plain c q k : get_id k = [] -> WFq c q -> WFq c (q ++ [k]).
Proof.
  intros Hk; apply WFq_ids. rewrite ids_of_app; simpl.
  rewrite Hk; simpl. apply app_nil_r.
Qed.

(** The body of [get()] for a newly allocated observer. *)
Lemma WFq_snoc_fresh c q :
  WFq c q -> WFq (with_nextSub (S (nextSub c)) c) (q ++ [RGet (nextSub c)]).
Proof.
  intros (Hs & [Hnd Hlt] & Hg); repeat split; auto;
    change (shared_subscribers (with_nextSub (S (nextSub c)) c))
      with (shared_subscribers c);
    rewrite ids_of_app; simpl; rewrite app_assoc.
  - rewrite <- (app_nil_r (_ ++ [_])), <- app_assoc.
    apply nodup_insert; rewrite app_nil_r; auto.
    apply fresh_not_in; assumption.
  - rewrite <- (app_nil_r (_ ++ [_])), <- app_assoc.
    apply Forall_insert; [lia|]. rewrite app_nil_r.
    apply Forall_lt_S; assumption.
Qed.

Lemma set_WF d c : WF c -> WF (set d c).
Proof.
  intros H; unfold set.
  set (c2 := data_next d (with_empty (Some false) c)).
  assert (Hg : gate c2 = gate c) by (unfold c2; rewrite data_next_gate; reflexivity).
  assert (H2 : WF c2).
  { unfold WF. unfold gate in Hg; injection Hg as _ -> ->.
    apply data_next_WFq. revert H; apply WFq_gate; reflexivity. }
  destruct (useLocalStorage c2); auto.
  apply ready_then_WF, WFq_snoc_plain; auto.
Qed.

Lemma get_WF c : WF c -> WF (get c).
Proof.
  intros H; unfold get. apply ready_then_WF. apply (WFq_snoc_fresh c), H.
Qed.

Lemma plain_call_WF k c :
  get_id k = [] -> WF c ->
  WF (ready_then k (with_nextSub (S (nextSub c)) c)).
Proof.
  intros Hk H. apply ready_then_WF, WFq_snoc_plain; auto.
  destruct H as (Hs & [Hnd Hlt] & Hg); repeat split; auto.
  apply Forall_lt_S; exact Hlt.
Qed.

Lemma call_refresh_WF c : WF c -> WF (call_refresh c).
Proof.
  intros H. unfold WF.
  pose proof (attach_gate (nextSub c) (with_nextSub (S (nextSub c)) c)) as E.
  unfold gate in E; injection E as _ E2 E3.
  unfold call_refresh.
  rewrite E2, E3. apply attach_fresh_WFq, H.
Qed.

(** ** Reactions and the end of a task *)

Lemma run_reaction_gate c k : gate (run_reaction c k) = gate c.
Proof.
  destruct k as [i|i|i|d]; cbn [run_reaction]; auto.
  - destruct (truthy (empty c)); [apply (attach_gate i c) | reflexivity].
  - change (gate (with_isScalar true ?x)) with (gate x).
    rewrite offer_gate; reflexivity.
Qed.

Lemma run_reaction_readyResolved c k :
  readyResolved (run_reaction c k) = readyResolved c.
Proof. exact (f_equal (fun t => fst (fst t)) (run_reaction_gate c k)). Qed.

Lemma run_reaction_readyReactions c k :
  readyReactions (run_reaction c k) = readyReactions c.
Proof. exact (f_equal (fun t => snd (fst t)) (run_reaction_gate c k)). Qed.

Lemma run_reaction_microtasks c k :
  microtasks (run_reaction c k) = microtasks c.
Proof. exact (f_equal snd (run_reaction_gate c k)). Qed.

Lemma run_reaction_WFq c k q : WFq c (k :: q) -> WFq (run_reaction c k) q.
Proof.
  destruct k as [i|i|i|d]; simpl; intros H.
  - destruct (truthy (empty c)).
    + apply (attach_pending_WFq i c q), H.
    + destruct H as (Hs & [Hnd Hlt] & Hg); repeat split; auto.
      * apply NoDup_remove_1 in Hnd; exact Hnd.
      * apply Forall_app in Hlt as [H1 H2]. apply Forall_app; split; auto.
        apply Forall_inv_tail in H2. exact H2.
  - match goal with |- WFq (with_isScalar _ ?x) _ =>
      apply (WFq_gate x); [reflexivity | reflexivity |] end.
    apply offer_WFq. apply (WFq_ids _ (RStream i :: q)); [reflexivity|].
    revert H; apply WFq_gate; reflexivity.
  - exact H.
  - exact H.
Qed.

Lemma fold_reaction_gate q : forall c,
  gate (fold_left run_reaction q c) = gate c.
Proof.
  induction q as [|k q IH]; simpl; intros c; auto.
  rewrite IH; apply run_reaction_gate.
Qed.

Lemma fold_reaction_WFq q q' : forall c,
  WFq c (q ++ q') -> WFq (fold_left run_reaction q c) q'.
Proof.
  induction q as [|k q IH]; simpl; intros c H; auto.
  apply IH, run_reaction_WFq, H.
Qed.

(** When a task has ended no reaction is left in the queue. *)
Lemma drain_microtasks c : microtasks (drain c) = [].
Proof.
  unfold drain.
  pose proof (fold_reaction_gate (microtasks c) (with_microtasks [] c)) as E.
  unfold gate in E; injection E as _ _ E; exact E.
Qed.

Lemma drain_readyReactions c : readyReactions (drain c) = readyReactions c.
Proof.
  unfold drain.
  pose proof (fold_reaction_gate (microtasks c) (with_microtasks [] c)) as E.
  unfold gate in E; injection E as _ E _; exact E.
Qed.

Lemma drain_readyResolved c : readyResolved (drain c) = readyResolved c.
Proof.
  unfold drain.
  pose proof (fold_reaction_gate (microtasks c) (with_microtasks [] c)) as E.
  unfold gate in E; injection E as E _ _; exact E.
Qed.

Lemma drain_WF c : WF c -> WF (drain c).
Proof.
  intros H; unfold WF.
  rewrite drain_microtasks, drain_readyReactions; simpl.
  unfold drain; apply fold_reaction_WFq.
  revert H; apply WFq_ext; reflexivity.
Qed.

(** ** The handlers of the store *)

Lemma readyResolve_WF c : WF c -> WF (readyResolve c).
Proof.
  unfold readyResolve; destruct (readyResolved c) eqn:E; auto.
  unfold WF; simpl; rewrite app_nil_r.
  intros (Hs & Hi & Hg); repeat split; try apply Hi; auto.
Qed.

Lemma frame_WF c c' :
  coord c' = coord c -> gate c' = gate c -> WF c -> WF c'.
Proof.
  intros Hc Hg; unfold WF. pose proof Hg as Hg'.
  unfold gate in Hg'; injection Hg' as _ -> ->. apply WFq_gate; auto.
Qed.

Lemma storage_ready_ok_WF c : WF c -> WF (storage_ready_ok c).
Proof.
  unfold storage_ready_ok; destruct (probe_is _ c); [|auto].
  apply frame_WF; reflexivity.
Qed.

Lemma storage_ready_fail_WF e c : WF c -> WF (storage_ready_fail e c).
Proof.
  unfold storage_ready_fail; destruct (probe_is _ c); [|auto].
  apply frame_WF; reflexivity.
Qed.

Lemma storage_get_fail_WF e c : WF c -> WF (storage_get_fail e c).
Proof.
  unfold storage_get_fail; destruct (probe_is _ c); [|auto].
  apply frame_WF; reflexivity.
Qed.

Lemma storage_set_ok_WF c : WF c -> WF (storage_set_ok c).
Proof.
  unfold storage_set_ok; destruct (writes c); [|auto].
  apply frame_WF; reflexivity.
Qed.

Lemma storage_set_fail_WF e c : WF c -> WF (storage_set_fail e c).
Proof.
  unfold storage_set_fail; destruct (writes c); [|auto].
  apply frame_WF; reflexivity.
Qed.

Lemma data_next_WF d c : WF c -> WF (data_next d c).
Proof.
  unfold WF; intros H.
  pose proof (data_next_gate d c) as E; unfold gate in E.
  injection E as _ -> ->. apply data_next_WFq, H.
Qed.

Lemma storage_get_ok_WF d c : WF c -> WF (storage_get_ok d c).
Proof.
  intros H; unfold storage_get_ok; destruct (probe_is _ c); [|exact H].
  match goal with
  | |- WF (with_probe _ (readyResolve ?x)) =>
      apply (frame_WF (readyResolve x)); [reflexivity | reflexivity |];
      apply readyResolve_WF
  end.
  destruct (defined d && (allowNull c || not_null d)).
  - apply (frame_WF (data_next d c)); [reflexivity | reflexivity |].
    apply data_next_WF, H.
  - revert H; apply frame_WF; reflexivity.
Qed.

(** ** [set] and the settlement of the producer *)

Lemma set_recorded d c :
  set d c =
  if useLocalStorage c then ready_then (RPersist d) (recorded d c)
  else recorded d c.
Proof.
  unfold set. rewrite data_next_nonempty by reflexivity. reflexivity.
Qed.

Lemma set_coord d c : coord (set d c) = coord c.
Proof.
  rewrite set_recorded. destruct (useLocalStorage c); [|reflexivity].
  rewrite ready_then_coord; reflexivity.
Qed.

Lemma set_ids d c :
  gate_ok c ->
  ids_of (microtasks (set d c) ++ readyReactions (set d c)) =
  ids_of (microtasks c ++ readyReactions c).
Proof.
  intros Hg. rewrite set_recorded. destruct (useLocalStorage c); [|reflexivity].
  rewrite ready_then_queue by exact Hg.
  rewrite ids_of_app; simpl. apply app_nil_r.
Qed.

Lemma set_gate_ok d c : gate_ok c -> gate_ok (set d c).
Proof.
  intros Hg. rewrite set_recorded. destruct (useLocalStorage c); [|exact Hg].
  apply ready_then_gate_ok; exact Hg.
Qed.

Lemma fold_deliver_closed n (l : list SubId) : forall c,
  fold_left (fun c' i => deliver (Caller i) n c') l c =
  with_delivered (delivered c ++ map (fun i => (Caller i, n)) l) c.
Proof.
  induction l as [|i l IH]; intros c; simpl.
  - rewrite app_nil_r; destruct c; reflexivity.
  - rewrite IH. unfold deliver; simpl. rewrite <- app_assoc. reflexivity.
Qed.

(** The shared subject hands the same notification to each observer. *)
Lemma notify_all_closed n c :
  notify_all n c =
  with_delivered
    (delivered c ++ map (fun i => (Caller i, n)) (shared_subscribers c)) c.
Proof. unfold notify_all; apply fold_deliver_closed. Qed.

(** The failure goes to the observers the loop reaches. *)
Lemma notify_error_closed e c :
  notify_error e c =
  with_delivered
    (delivered c ++
     map (fun i => (Caller i, Error e))
       (heard (bare c) (shared_subscribers c))) c.
Proof. unfold notify_error; apply fold_deliver_closed. Qed.

Lemma producer_settles_idle r c :
  shared_subscribers c = [] -> producer_settles r c = c.
Proof. unfold producer_settles; intros ->; reflexivity. Qed.

Lemma producer_settles_running r c :
  shared_subscribers c <> [] -> producer_settles r c = settle r c.
Proof.
  unfold producer_settles, settle; destruct (shared_subscribers c);
    [congruence | reflexivity].
Qed.

Lemma settle_coord r c :
  coord (settle r c) = (None, invoked c, S (settled c), nextSub c).
Proof.
  destruct r as [v|e]; unfold settle, coord; simpl.
  - rewrite ?notify_all_closed, ?notify_error_closed; simpl.
    pose proof (set_coord v (with_settled (S (settled c)) c)) as E.
    unfold coord in E; simpl in E. injection E as _ -> -> ->. reflexivity.
  - rewrite ?notify_all_closed, ?notify_error_closed; reflexivity.
Qed.

Lemma settle_slot r c : refreshObservable (settle r c) = None.
Proof.
  exact (f_equal (fun x => fst (fst (fst x))) (settle_coord r c)).
Qed.

Lemma settle_invoked r c : invoked (settle r c) = invoked c.
Proof.
  exact (f_equal (fun x => snd (fst (fst x))) (settle_coord r c)).
Qed.

Lemma settle_queue r c :
  gate_ok c ->
  gate_ok (settle r c) /\
  ids_of (microtasks (settle r c) ++ readyReactions (settle r c)) =
  ids_of (microtasks c ++ readyReactions c).
Proof.
  intros Hg. destruct r as [v|e]; unfold settle.
  - rewrite ?notify_all_closed, ?notify_error_closed; simpl.
    split.
    + apply (set_gate_ok v (with_settled (S (settled c)) c)), Hg.
    + apply (set_ids v (with_settled (S (settled c)) c)), Hg.
  - rewrite ?notify_all_closed, ?notify_error_closed; simpl. split; [exact Hg | reflexivity].
Qed.

Lemma producer_settles_WF r c : WF c -> WF (producer_settles r c).
Proof.
  intros H. destruct (shared_subscribers c) as [|i l] eqn:E.
  - rewrite producer_settles_idle; assumption.
  - rewrite producer_settles_running by congruence.
    destruct H as (Hs & [Hnd Hlt] & Hg).
    destruct (settle_queue r c Hg) as [Hg' Hq].
    pose proof (settle_coord r c) as Hc. unfold coord in Hc.
    injection Hc as H1 H2 H3 H4.
    unfold WF, WFq, slot_ok, ids_ok, shared_subscribers.
    rewrite H1, H2, H3, H4, Hq; simpl.
    repeat split; auto.
    + unfold slot_ok in Hs. unfold shared_subscribers in E.
      destruct (refreshObservable c); [apply Hs | discriminate].
    + apply NoDup_app_remove_l in Hnd; exact Hnd.
    + apply Forall_app in Hlt; apply Hlt.
Qed.

(** ** Every reachable state satisfies the invariant *)

Lemma new_Cache_WF (nm : string) (p : Producer) :
  WF (new_Cache nm p : Cache T).
Proof.
  unfold WF, WFq, slot_ok, ids_ok, gate_ok; simpl.
  repeat split; auto; try constructor; discriminate.
Qed.

(** The two ways a subscription of [get$] is served. *)
Lemma subscribe_get_stream_parks c :
  isScalar c = false ->
  subscribe_get_stream c =
  ready_then (RStream (nextSub c)) (with_nextSub (S (nextSub c)) c).
Proof. intros E. unfold subscribe_get_stream. rewrite E. reflexivity. Qed.

Lemma subscribe_get_stream_served c :
  isScalar c = true ->
  subscribe_get_stream c =
  run_reaction (with_nextSub (S (nextSub c)) c) (RStream (nextSub c)).
Proof. intros E. unfold subscribe_get_stream. rewrite E. reflexivity. Qed.

Lemma bump_WFq c q : WFq c q -> WFq (with_nextSub (S (nextSub c)) c) q.
Proof.
  intros (Hs & [Hnd Hlt] & Hg); repeat split; auto.
  apply Forall_lt_S; exact Hlt.
Qed.

(** A reaction that is not the body of [get()] runs at once. *)
Lemma run_now_WF c k : get_id k = [] -> WF c -> WF (run_reaction c k).
Proof.
  intros Hk H. unfold WF.
  pose proof (run_reaction_gate c k) as E. unfold gate in E.
  assert (Em : microtasks (run_reaction c k) = microtasks c)
    by exact (f_equal snd E).
  assert (Er : readyReactions (run_reaction c k) = readyReactions c)
    by exact (f_equal (fun t => snd (fst t)) E).
  rewrite Em, Er. apply run_reaction_WFq.
  apply (WFq_ids _ (microtasks c ++ readyReactions c)); [|exact H].
  unfold ids_of; cbn [flat_map]. rewrite Hk. reflexivity.
Qed.

Lemma subscribe_get_stream_WF c : WF c -> WF (subscribe_get_stream c).
Proof.
  intros H. unfold subscribe_get_stream. destruct (isScalar c).
  - apply run_now_WF; [reflexivity|]. apply (bump_WFq c), H.
  - apply plain_call_WF; [reflexivity | exact H].
Qed.

Lemma step_WF c ev : WF c -> WF (step c ev).
Proof.
  intros H; destruct ev; simpl.
  - apply get_WF, H.
  - apply call_refresh_WF, H.
  - apply set_WF, H.
  - revert H; apply frame_WF; reflexivity.
  - apply plain_call_WF; [reflexivity | exact H].
  - apply subscribe_get_stream_WF, H.
  - revert H; apply frame_WF; reflexivity.
  - revert H; apply frame_WF; reflexivity.
  - apply drain_WF, H.
  - apply drain_WF, storage_ready_ok_WF, drain_WF, H.
  - apply drain_WF, storage_ready_fail_WF, drain_WF, H.
  - apply drain_WF, storage_get_ok_WF, drain_WF, H.
  - apply drain_WF, storage_get_fail_WF, drain_WF, H.
  - apply drain_WF, storage_set_ok_WF, drain_WF, H.
  - apply drain_WF, storage_set_fail_WF, drain_WF, H.
  - apply drain_WF, producer_settles_WF, drain_WF, H.
Qed.

Lemma run_WF evs : forall c, WF c -> WF (run c evs).
Proof.
  induction evs as [|ev evs IH]; simpl; intros c H; auto.
  apply IH, step_WF, H.
Qed.

Lemma run_app c (evs1 evs2 : list (Event T)) :
  run c (evs1 ++ evs2) = run (run c evs1) evs2.
Proof. unfold run; apply fold_left_app. Qed.

Lemma reachable_WF nm p (evs : list (Event T)) :
  WF (run (new_Cache nm p) evs).
Proof. apply run_WF, new_Cache_WF. Qed.


(** ** Requests join the refresh that is running *)

Lemma tracks_refl c : WF c -> tracks c c.
Proof.
  intros (Hs & _ & _); unfold tracks, expected; repeat split; auto.
  - intros sh E; unfold slot_ok in Hs; rewrite E in Hs; apply Hs.
  - destruct (idle c); simpl; rewrite app_nil_r; reflexivity.
Qed.

Lemma tracks_frame c0 c c' :
  observable c' = observable c -> empty c' = empty c ->
  readyResolved c' = readyResolved c ->
  refreshObservable c' = refreshObservable c -> invoked c' = invoked c ->
  tracks c0 c -> tracks c0 c'.
Proof.
  unfold tracks, expected, idle; intros -> -> -> -> ->; auto.
Qed.

Lemma attach_tracks c0 i c : tracks c0 c -> tracks c0 (attach i c).
Proof.
  intros (Ho & He & Hr & Hne & Hinv & Hidle).
  unfold tracks, expected, idle in *.
  attach_cases i c; simpl.
  - specialize (Hne sh eq_refl).
    destruct (subscribers sh) as [|j l] eqn:Es; [congruence|].
    repeat split; auto; try discriminate.
    intros sh' [= <-]; simpl. destruct l; discriminate.
  - specialize (Hidle eq_refl).
    destruct (refreshObservable c0); [discriminate|].
    simpl in *. rewrite app_nil_r in Hinv. rewrite Hinv, Ho.
    repeat split; auto; try discriminate.
    intros sh' [= <-]; discriminate.
Qed.

Lemma attach_static i c :
  observable (attach i c) = observable c /\
  empty (attach i c) = empty c /\
  delivered (attach i c) = delivered c.
Proof.
  attach_cases i c; simpl; auto. destruct (subscribers sh); auto.
Qed.

Lemma attach_empty i c : empty (attach i c) = empty c.
Proof. apply attach_static. Qed.

Lemma attach_delivered i c : delivered (attach i c) = delivered c.
Proof. apply attach_static. Qed.

Lemma attach_microtasks i c : microtasks (attach i c) = microtasks c.
Proof. attach_cases i c; simpl; auto. destruct (subscribers sh); auto. Qed.

Lemma get_filter_tracks c0 c : tracks c0 c -> tracks c0 (fst (get_filter c)).
Proof.
  unfold get_filter; destruct (truthy (empty c)); simpl; auto.
  intros H. apply (attach_tracks c0 (nextSub c) (with_nextSub _ c)).
  revert H; apply tracks_frame; reflexivity.
Qed.

Lemma offer_tracks c0 d c i : tracks c0 c -> tracks c0 (offer d c i).
Proof.
  intros H; apply get_filter_tracks in H.
  destruct (offer_fst d c i) as [-> | ->]; [exact H|].
  revert H; apply tracks_frame; reflexivity.
Qed.

Lemma run_reaction_tracks c0 c k : tracks c0 c -> tracks c0 (run_reaction c k).
Proof.
  destruct k as [i|i|i|d]; simpl; intros H.
  - destruct (truthy (empty c)); [apply (attach_tracks c0 i c), H|].
    revert H; apply tracks_frame; reflexivity.
  - apply offer_tracks. revert H; apply tracks_frame; reflexivity.
  - revert H; apply tracks_frame; reflexivity.
  - revert H; apply tracks_frame; reflexivity.
Qed.

Lemma fold_reaction_tracks c0 q : forall c,
  tracks c0 c -> tracks c0 (fold_left run_reaction q c).
Proof.
  induction q as [|k q IH]; simpl; intros c H; auto.
  apply IH, run_reaction_tracks, H.
Qed.

Lemma drain_tracks c0 c : tracks c0 c -> tracks c0 (drain c).
Proof.
  intros H; unfold drain; apply fold_reaction_tracks.
  revert H; apply tracks_frame; reflexivity.
Qed.

Lemma ready_then_tracks c0 k c : tracks c0 c -> tracks c0 (ready_then k c).
Proof.
  unfold ready_then; destruct (readyResolved c) eqn:E;
    apply tracks_frame; auto.
Qed.

Lemma get_tracks c0 c : tracks c0 c -> tracks c0 (get c).
Proof.
  intros H; unfold get; apply ready_then_tracks.
  revert H; apply tracks_frame; reflexivity.
Qed.

Lemma call_refresh_tracks c0 c : tracks c0 c -> tracks c0 (call_refresh c).
Proof.
  intros H. apply (attach_tracks c0 (nextSub c) (with_nextSub _ c)).
  revert H; apply tracks_frame; reflexivity.
Qed.

(** The observers of the slot are never dropped by a request or a
    reaction. *)
Lemma get_filter_keeps c i :
  In i (shared_subscribers c) -> In i (shared_subscribers (fst (get_filter c))).
Proof.
  unfold get_filter; destruct (truthy (empty c)); cbn [fst]; auto.
  intros H.
  change (shared_subscribers (with_bare ?l ?x)) with (shared_subscribers x).
  rewrite attach_subscribers.
  apply in_or_app; left; exact H.
Qed.

Lemma offer_keeps d c j i :
  In i (shared_subscribers c) -> In i (shared_subscribers (offer d c j)).
Proof.
  intros H; apply get_filter_keeps in H.
  destruct (offer_fst d c j) as [-> | ->]; exact H.
Qed.

Lemma run_reaction_keeps c k i :
  In i (shared_subscribers c) -> In i (shared_subscribers (run_reaction c k)).
Proof.
  destruct k as [j|j|j|d]; cbn [run_reaction]; intros H; auto.
  - destruct (truthy (empty c)); [|exact H].
    rewrite attach_subscribers; apply in_or_app; left; exact H.
  - change (shared_subscribers (with_isScalar ?b ?x))
      with (shared_subscribers x).
    apply offer_keeps; exact H.
Qed.

Lemma get_filter_empty c : empty (fst (get_filter c)) = empty c.
Proof.
  unfold get_filter; destruct (truthy (empty c)); simpl; auto.
  exact (attach_empty _ (with_nextSub _ c)).
Qed.

Lemma offer_empty d c i : empty (offer d c i) = empty c.
Proof.
  destruct (offer_fst d c i) as [-> | ->]; apply get_filter_empty.
Qed.

Lemma run_reaction_empty c k : empty (run_reaction c k) = empty c.
Proof.
  destruct k as [j|j|j|d]; cbn [run_reaction]; auto.
  - destruct (truthy (empty c)); [apply (attach_empty j c) | reflexivity].
  - change (empty (with_isScalar ?b ?x)) with (empty x).
    rewrite offer_empty; reflexivity.
Qed.

(** Every observer that waits in the queue on an empty cache is attached to
    the observable of the slot when the task ends. *)
Lemma fold_reaction_attaches (i : SubId) q : forall c,
  In i (shared_subscribers c) \/
    (In (RGet i) q /\ truthy (empty c) = true) ->
  In i (shared_subscribers (fold_left run_reaction q c)).
Proof.
  induction q as [|k q IH]; simpl; intros c H.
  - destruct H as [H | [[] _]]; exact H.
  - apply IH. destruct H as [H | [[-> | H] Ht]].
    + left; apply run_reaction_keeps, H.
    + left; simpl; rewrite Ht.
      rewrite attach_subscribers; apply in_or_app; right; left; auto.
    + right; split; [exact H|]. rewrite run_reaction_empty; exact Ht.
Qed.

Lemma requests_join c0 calls : forall c m,
  tracks c0 c ->
  nextSub c = nextSub c0 + m ->
  (forall j, j < m -> joining (nextSub c0 + j) c) ->
  Forall (request_on c0) calls ->
  tracks c0 (run c calls) /\
  forall j, j < m + List.length calls -> joining (nextSub c0 + j) (run c calls).
Proof.
  induction calls as [|ev calls IH]; simpl; intros c m Ht Hn Hj Hreq.
  - split; [exact Ht|]. intros j Hlt; apply Hj; lia.
  - inversion Hreq as [|? ? Hev Hrest]; subst.
    assert (Hstep : tracks c0 (step c ev) /\
                    nextSub (step c ev) = nextSub c0 + S m /\
                    forall j, j < S m -> joining (nextSub c0 + j) (step c ev)).
    { destruct Hev as [-> | (-> & Hready & Hempty)]; simpl.
      - split; [apply call_refresh_tracks, Ht|].
        unfold call_refresh.
        pose proof (attach_gate (nextSub c) (with_nextSub (S (nextSub c)) c)) as Eg.
        unfold gate in Eg; injection Eg as _ _ Em.
        split; [rewrite attach_nextSub; simpl; lia|].
        intros j Hlt. unfold joining.
        rewrite attach_subscribers, attach_empty, Em; simpl.
        destruct (Nat.eq_dec j m) as [-> | Hne].
        + left; apply in_or_app; right; left; auto.
        + destruct (Hj j ltac:(lia)) as [H | H]; [left | right; exact H].
          apply in_or_app; left; exact H.
      - split; [apply get_tracks, Ht|].
        destruct Ht as (_ & He & Hr & _).
        unfold get, ready_then; simpl. rewrite Hr, Hready; simpl.
        split; [lia|].
        intros j Hlt. unfold joining; simpl. rewrite He, Hempty; simpl.
        destruct (Nat.eq_dec j m) as [-> | Hne].
        + right; split; [|reflexivity].
          apply in_or_app; right; left; rewrite Hn; reflexivity.
        + destruct (Hj j ltac:(lia)) as [H | [H _]]; [left; exact H | right].
          split; [|reflexivity]. apply in_or_app; left; exact H. }
    destruct Hstep as (Ht' & Hn' & Hj').
    destruct (IH (step c ev) (S m) Ht' Hn' Hj' Hrest) as [H1 H2].
    split; [exact H1|]. intros j Hlt; apply H2; lia.
Qed.

(** Requests issued in one task: every one of them ends up attached to the
    same observable, and the producer is subscribed once if the slot was
    free and not at all if it was occupied. *)
Lemma requests_share_one_invocation c calls :
  WF c -> calls <> [] -> Forall (request_on c) calls ->
  let c' := run c (calls ++ [Tick]) in
  invoked c' = invoked c ++ (if idle c then [observable c] else []) /\
  forall j, j < List.length calls -> In (nextSub c + j) (shared_subscribers c').
Proof.
  intros Hwf Hne Hreq; simpl.
  destruct (requests_join c calls c 0 (tracks_refl c Hwf)) as [Ht Hj];
    auto; [intros j Hlt; lia|].
  rewrite run_app; simpl. set (c1 := run c calls) in *.
  assert (Hin : forall j, j < List.length calls ->
                          In (nextSub c + j) (shared_subscribers (drain c1))).
  { intros j Hlt. unfold drain. apply fold_reaction_attaches.
    destruct (Hj j Hlt) as [H | H]; [left | right]; exact H. }
  split; [|exact Hin].
  apply drain_tracks in Ht. destruct Ht as (_ & _ & _ & _ & Hinv & _).
  rewrite Hinv; unfold expected. f_equal.
  assert (Hbusy : idle (drain c1) = false).
  { destruct calls as [|ev calls']; [congruence|].
    specialize (Hin 0 ltac:(simpl; lia)).
    unfold idle, shared_subscribers in *.
    destruct (refreshObservable (drain c1)); [reflexivity | destruct Hin]. }
  rewrite Hbusy, andb_true_r. reflexivity.
Qed.

(** ** What the observers of a refresh are handed *)

Lemma picks_app s (l1 l2 : list (Sub * Notification T)) :
  picks s (l1 ++ l2) = picks s l1 ++ picks s l2.
Proof. unfold picks; rewrite filter_app, map_app; reflexivity. Qed.

Lemma picks_streams i n (l : list SubId) :
  picks (Caller i) (map (fun j => (Stream j, n)) l) = [].
Proof. induction l; simpl; auto. Qed.

Lemma picks_callers_out i n (l : list SubId) :
  ~ In i l -> picks (Caller i) (map (fun j => (Caller j, n)) l) = [].
Proof.
  induction l as [|j l IH]; simpl; intros H; auto.
  unfold picks in *; simpl.
  destruct (Nat.eqb_spec i j) as [-> | Hne]; [tauto|]. apply IH; tauto.
Qed.

Lemma picks_callers_in i n (l : list SubId) :
  NoDup l -> In i l -> picks (Caller i) (map (fun j => (Caller j, n)) l) = [n].
Proof.
  induction l as [|j l IH]; simpl; intros Hnd Hin; [destruct Hin|].
  inversion Hnd as [|? ? Hnotin Hnd']; subst.
  unfold picks in *; simpl.
  destruct (Nat.eqb_spec i j) as [-> | Hne]; simpl.
  - f_equal. apply (picks_callers_out j n l Hnotin).
  - apply IH; auto. destruct Hin; [congruence | assumption].
Qed.

Lemma settle_delivered r c :
  delivered (settle r c) =
  delivered c ++
  match r with
  | Yield v =>
      map (fun i => (Stream i, Next v)) (observers (data c)) ++
      map (fun i => (Caller i, Next v)) (shared_subscribers c) ++
      map (fun i => (Caller i, Complete)) (shared_subscribers c)
  | Fail e =>
      map (fun i => (Caller i, Error e))
        (heard (bare c) (shared_subscribers c))
  end.
Proof.
  destruct r as [v|e]; unfold settle.
  - rewrite ?notify_all_closed, ?notify_error_closed; simpl.
    assert (Hs : shared_subscribers (set v (with_settled (S (settled c)) c)) =
                 shared_subscribers c).
    { pose proof (set_coord v (with_settled (S (settled c)) c)) as E.
      unfold coord in E; injection E as E _ _ _.
      unfold shared_subscribers; rewrite E; reflexivity. }
    change (shared_subscribers (with_delivered _ ?x))
      with (shared_subscribers x).
    rewrite Hs, set_recorded; simpl.
    destruct (useLocalStorage c); unfold ready_then; simpl;
      [destruct (readyResolved c)|]; simpl; rewrite <- !app_assoc; reflexivity.
  - rewrite ?notify_all_closed, ?notify_error_closed; reflexivity.
Qed.

(** The observers the loop reaches are observers of the subject, in the
    same order. *)
Lemma heard_incl b (l : list SubId) i : In i (heard b l) -> In i l.
Proof.
  induction l as [|j l IH]; simpl; [auto|].
  destruct (existsb (Nat.eqb j) b).
  - intros [H | []]; left; exact H.
  - intros [H | H]; [left; exact H | right; apply IH, H].
Qed.

Lemma heard_NoDup b (l : list SubId) : NoDup l -> NoDup (heard b l).
Proof.
  induction l as [|j l IH]; simpl; intros H; [constructor|].
  inversion H as [|? ? Hn Hl]; subst.
  destruct (existsb (Nat.eqb j) b).
  - constructor; [intros [] | constructor].
  - constructor; [|apply IH, Hl]. intros Hin. apply Hn, (heard_incl b), Hin.
Qed.


Lemma reached_in c i : reached c i = true <->
  In i (heard (bare c) (shared_subscribers c)).
Proof.
  unfold reached. rewrite existsb_exists. split.
  - intros (x & Hx & Ex). apply Nat.eqb_eq in Ex; subst x. exact Hx.
  - intros H. exists i. split; [exact H | apply Nat.eqb_refl].
Qed.

(** Each observer of the slot is handed a value and the completion; a
    failure is handed to the observers the loop reaches. *)
Lemma settle_received r c i :
  NoDup (shared_subscribers c) -> In i (shared_subscribers c) ->
  received (Caller i) (settle r c) = received (Caller i) c ++ outcome_for c i r.
Proof.
  intros Hnd Hin. unfold received; fold (picks (Caller i) (delivered c)).
  fold (picks (Caller i) (delivered (settle r c))).
  rewrite settle_delivered, picks_app. f_equal.
  destruct r as [v|e]; cbn [outcome_for].
  - rewrite !picks_app, picks_streams, !picks_callers_in by assumption.
    reflexivity.
  - destruct (reached c i) eqn:E.
    + apply picks_callers_in; [apply heard_NoDup, Hnd | apply reached_in, E].
    + apply picks_callers_out. intros H. apply reached_in in H. congruence.
Qed.

Lemma get_filter_delivered c : delivered (fst (get_filter c)) = delivered c.
Proof.
  unfold get_filter; destruct (truthy (empty c)); simpl; auto.
  exact (attach_delivered _ (with_nextSub _ c)).
Qed.

Lemma received_frame s c c' :
  delivered c' = delivered c -> received s c' = received s c.
Proof. unfold received; intros ->; reflexivity. Qed.

Lemma offer_received d c j i :
  received (Caller i) (offer d c j) = received (Caller i) c.
Proof.
  destruct (offer_fst d c j) as [-> | ->]; [|rewrite received_deliver; simpl;
    rewrite app_nil_r]; apply received_frame, get_filter_delivered.
Qed.




Lemma settle_microtasks r c :
  microtasks (settle r c) =
  microtasks c ++
  match r with
  | Yield v => if useLocalStorage c && readyResolved c then [RPersist v] else []
  | Fail _ => []
  end.
Proof.
  destruct r as [v|e]; unfold settle.
  - rewrite ?notify_all_closed, ?notify_error_closed, set_recorded; simpl.
    destruct (useLocalStorage c); unfold ready_then; simpl;
      [destruct (readyResolved c)|]; simpl; rewrite ?app_nil_r; reflexivity.
  - rewrite ?notify_all_closed, ?notify_error_closed; simpl. rewrite app_nil_r; reflexivity.
Qed.

(** The task in which the producer settles ends with at most the write of
    [set] in the queue: nothing more is handed out. *)
Lemma drain_settle_delivered r c :
  microtasks c = [] -> delivered (drain (settle r c)) = delivered (settle r c).
Proof.
  intros Hm. unfold drain. rewrite settle_microtasks, Hm; simpl.
  destruct r as [v|e]; [|reflexivity].
  destruct (useLocalStorage c && readyResolved c); reflexivity.
Qed.


(** ** What requests and reactions leave alone *)

Lemma kept_fields c c' :
  kept c' = kept c ->
  error c' = error c /\ probe c' = probe c /\ loaded c' = loaded c /\
  allowNull c' = allowNull c /\ useLocalStorage c' = useLocalStorage c /\
  observable c' = observable c /\
  empty c' = empty c /\ value (data c') = value (data c).
Proof.
  unfold kept, config, memory; intros E.
  injection E as E1 E2 E3 E4 E5 E6 E7 E8 E9. repeat split; assumption.
Qed.

Lemma attach_kept i c : kept (attach i c) = kept c.
Proof.
  attach_cases i c; [destruct (subscribers sh)|]; reflexivity.
Qed.

Lemma get_filter_kept c : kept (fst (get_filter c)) = kept c.
Proof.
  unfold get_filter; destruct (truthy (empty c)); cbn [fst]; auto.
  exact (attach_kept _ (with_nextSub _ c)).
Qed.

Lemma offer_kept d c i : kept (offer d c i) = kept c.
Proof.
  destruct (offer_fst d c i) as [-> | ->]; apply get_filter_kept.
Qed.

Lemma run_reaction_kept c k : kept (run_reaction c k) = kept c.
Proof.
  destruct k as [i|i|i|d]; cbn [run_reaction]; auto.
  - destruct (truthy (empty c)); [apply (attach_kept i c) | reflexivity].
  - change (kept (with_isScalar ?b ?x)) with (kept x).
    rewrite offer_kept; reflexivity.
Qed.

Lemma fold_reaction_kept q : forall c,
  kept (fold_left run_reaction q c) = kept c.
Proof.
  induction q as [|k q IH]; simpl; intros c; auto.
  rewrite IH; apply run_reaction_kept.
Qed.

Lemma drain_kept c : kept (drain c) = kept c.
Proof. unfold drain; rewrite fold_reaction_kept; reflexivity. Qed.

Lemma ready_then_kept k c : kept (ready_then k c) = kept c.
Proof. unfold ready_then; destruct (readyResolved c); reflexivity. Qed.

Lemma ready_then_readyResolved k c :
  readyResolved (ready_then k c) = readyResolved c.
Proof. unfold ready_then; destruct (readyResolved c) eqn:E; simpl; auto. Qed.

Lemma subscribe_get_stream_kept c : kept (subscribe_get_stream c) = kept c.
Proof.
  unfold subscribe_get_stream. destruct (isScalar c).
  - rewrite run_reaction_kept. reflexivity.
  - rewrite ready_then_kept. reflexivity.
Qed.

Lemma subscribe_get_stream_readyResolved c :
  readyResolved (subscribe_get_stream c) = readyResolved c.
Proof.
  unfold subscribe_get_stream. destruct (isScalar c).
  - exact (f_equal (fun t => fst (fst t))
             (run_reaction_gate (with_nextSub (S (nextSub c)) c)
                (RStream (nextSub c)))).
  - rewrite ready_then_readyResolved. reflexivity.
Qed.

Lemma set_config d c : config (set d c) = config c.
Proof.
  rewrite set_recorded. destruct (useLocalStorage c) eqn:E; [|reflexivity].
  pose proof (ready_then_kept (RPersist d) (recorded d c)) as K.
  apply (f_equal fst) in K; simpl in K. rewrite K; reflexivity.
Qed.

Lemma set_memory d c : memory (set d c) = (Some false, d).
Proof.
  rewrite set_recorded. destruct (useLocalStorage c) eqn:E; [|reflexivity].
  pose proof (ready_then_kept (RPersist d) (recorded d c)) as K.
  apply (f_equal snd) in K; simpl in K. rewrite K; reflexivity.
Qed.

Lemma set_readyResolved d c : readyResolved (set d c) = readyResolved c.
Proof.
  rewrite set_recorded. destruct (useLocalStorage c); [|reflexivity].
  rewrite ready_then_readyResolved; reflexivity.
Qed.

Lemma set_delivered d c :
  delivered (set d c) =
  delivered c ++ map (fun i => (Stream i, Next d)) (observers (data c)).
Proof.
  rewrite set_recorded. destruct (useLocalStorage c); [|reflexivity].
  unfold ready_then; destruct (readyResolved (recorded d c)); reflexivity.
Qed.

(** A task that starts with an empty queue and queues nothing is over at
    once. *)
Lemma drain_nothing c : microtasks c = [] -> drain c = c.
Proof.
  intros E; unfold drain; rewrite E; simpl. destruct c; simpl in *.
  subst; reflexivity.
Qed.

Lemma drain_drain c : drain (drain c) = drain c.
Proof. apply drain_nothing, drain_microtasks. Qed.

(** ** C5, C6: [set] and the write-back *)

Lemma storage_set_fail_kept e c : kept (storage_set_fail e c) = kept c.
Proof. unfold storage_set_fail; destruct (writes c); reflexivity. Qed.

Lemma step_set_fail_kept e c : kept (step c (StorageSetFail e)) = kept c.
Proof.
  simpl. rewrite drain_kept, storage_set_fail_kept, drain_kept. reflexivity.
Qed.

Lemma set_then_write c v :
  microtasks c = [] -> useLocalStorage c = true -> readyResolved c = true ->
  writes (step (set v c) Tick) = writes c ++ [v].
Proof.
  intros Hm Hu Hr. rewrite set_recorded, Hu. simpl.
  unfold drain, ready_then; simpl. rewrite Hr; simpl. rewrite Hm; reflexivity.
Qed.

(** C5.  [set(v)] records [v] at once: when it returns the flag is false,
    the snapshot is [v] and every subscriber of [get$] has been handed [v].
    The write to the store is issued when the task ends (on a ready entity
    that uses the store); if it fails, the flag and the snapshot stay as
    [set] left them. *)
Theorem set_records_synchronously c v :
  empty (set v c) = Some false /\
  value (data (set v c)) = v /\
  delivered (set v c) =
    delivered c ++ map (fun i => (Stream i, Next v)) (observers (data c)) /\
  (microtasks c = [] -> useLocalStorage c = true -> readyResolved c = true ->
   writes (step (set v c) Tick) = writes c ++ [v]) /\
  forall e,
    let c' := run (set v c) [Tick; StorageSetFail e] in
    empty c' = Some false /\ value (data c') = v.
Proof.
  pose proof (set_memory v c) as Hm. unfold memory in Hm.
  injection Hm as He Hv.
  split; [exact He|]. split; [exact Hv|]. split; [apply set_delivered|].
  split; [apply set_then_write|].
  intros e c'.
  assert (K : kept c' = kept (set v c)).
  { unfold c'. change (run (set v c) [Tick; StorageSetFail e])
      with (step (drain (set v c)) (StorageSetFail e)).
    rewrite step_set_fail_kept, drain_kept. reflexivity. }
  destruct (kept_fields _ _ K) as (_ & _ & _ & _ & _ & _ & -> & ->).
  split; assumption.
Qed.

(** C6, as the code has it.  The promise of the write has no rejection
    handler: when the write fails nothing is emitted on the error subject,
    nothing reaches the caller of [set] (which returned when the write was
    only scheduled), and the flag and the snapshot stand. *)
Theorem persist_failure_is_silent c v e :
  let c1 := step (set v c) Tick in
  let c2 := step c1 (StorageSetFail e) in
  error c2 = error c /\
  empty c2 = Some false /\
  value (data c2) = v /\
  delivered c2 = delivered c1.
Proof.
  intros c1 c2.
  destruct (kept_fields _ _ (step_set_fail_kept e c1))
    as (E1 & _ & _ & _ & _ & _ & E2 & E3).
  destruct (kept_fields _ _ (drain_kept (set v c)))
    as (F1 & _ & _ & _ & _ & _ & F2 & F3).
  pose proof (set_memory v c) as Hm. unfold memory in Hm.
  injection Hm as He Hv.
  pose proof (set_config v c) as Hc. unfold config in Hc.
  injection Hc as _ _ _ _ Herr _ _.
  fold c2 in E1, E2, E3. change (drain (set v c)) with c1 in F1, F2, F3.
  repeat split; try congruence.
  unfold c2; simpl. rewrite (drain_nothing c1) by apply drain_microtasks.
  unfold storage_set_fail.
  destruct (writes c1); [|rewrite drain_nothing by apply drain_microtasks];
    try reflexivity.
  apply f_equal, drain_nothing, drain_microtasks.
Qed.

(** ** [get()] within one task *)



Lemma get_on_nonempty c :
  readyResolved c = true -> microtasks c = [] -> truthy (empty c) = false ->
  let c' := run c [CallGet; Tick] in
  invoked c' = invoked c /\
  refreshObservable c' = refreshObservable c /\
  delivered c' =
    delivered c ++ [(Caller (nextSub c), Next (value (data c)));
                    (Caller (nextSub c), Complete)].
Proof.
  intros Hr Hm He. simpl. unfold drain, get, ready_then; simpl.
  rewrite Hr; simpl. rewrite Hm; simpl. rewrite He.
  repeat split. simpl. rewrite <- app_assoc. reflexivity.
Qed.

(** ** C8: the producer fails *)

Lemma drain_keeps_running c :
  shared_subscribers c <> [] -> shared_subscribers (drain c) <> [].
Proof.
  destruct (shared_subscribers c) as [|i l] eqn:E; [congruence|]; intros _.
  assert (Hin : In i (shared_subscribers (drain c))).
  { unfold drain; apply fold_reaction_attaches; left.
    change (shared_subscribers (with_microtasks [] c))
      with (shared_subscribers c). rewrite E; left; reflexivity. }
  intros E'; rewrite E' in Hin; destruct Hin.
Qed.

Lemma running_not_idle c : shared_subscribers c <> [] -> idle c = false.
Proof.
  unfold shared_subscribers, idle; destruct (refreshObservable c); congruence.
Qed.

Lemma drain_running_invoked c :
  WF c -> shared_subscribers c <> [] -> invoked (drain c) = invoked c.
Proof.
  intros Hwf Hrun. pose proof (drain_tracks c c (tracks_refl c Hwf)) as Ht.
  destruct Ht as (_ & _ & _ & _ & -> & _). unfold expected.
  rewrite (running_not_idle c Hrun); simpl. apply app_nil_r.
Qed.

(** C8.  While a refresh runs in a reachable state, let the producer fail
    with [e]: the error subject emits [e], the flag and the snapshot are as
    before, the slot is free again and no subscription of the producer is
    outstanding; [isEmpty()] still resolves to what the flag was; and the
    next [refresh()] subscribes the bound producer anew. *)
Theorem producer_failure_contract nm p (evs : list (Event T)) e :
  let c := run (new_Cache nm p) evs in
  shared_subscribers c <> [] ->
  let c1 := step c (ProducerSettles (Fail e)) in
  error c1 = error c ++ [e] /\
  empty c1 = empty c /\
  value (data c1) = value (data c) /\
  refreshObservable c1 = None /\
  invoked c1 = invoked c /\
  outstanding c1 = 0 /\
  (readyResolved c = true ->
   received (Asker (nextSub c1)) (run c1 [CallIsEmpty; Tick]) =
   received (Asker (nextSub c1)) c1 ++ [Resolved (empty c)]) /\
  let c2 := step c1 CallRefresh in
  invoked c2 = invoked c ++ [observable c] /\ outstanding c2 = 1.
Proof.
  intros c Hrun c1.
  pose proof (reachable_WF nm p evs) as Hwf. fold c in Hwf.
  set (c0 := drain c).
  assert (Hrun0 : shared_subscribers c0 <> []) by (apply drain_keeps_running, Hrun).
  assert (Hm0 : microtasks c0 = []) by apply drain_microtasks.
  assert (E1 : c1 = settle (Fail e) c0).
  { unfold c1.
    change (step c (ProducerSettles (Fail e)))
      with (drain (producer_settles (Fail e) c0)).
    rewrite producer_settles_running by exact Hrun0.
    apply drain_nothing. rewrite settle_microtasks, Hm0. reflexivity. }
  destruct (kept_fields _ _ (drain_kept c))
    as (Kerr & _ & _ & _ & _ & Kobs & Kemp & Kval). fold c0 in Kerr, Kobs, Kemp, Kval.
  assert (Hinv0 : invoked c0 = invoked c) by (apply drain_running_invoked; assumption).
  assert (Hwf1 : WF c1) by (apply step_WF, Hwf).
  assert (Hslot : refreshObservable c1 = None).
  { rewrite E1. apply settle_slot. }
  assert (Hinv1 : invoked c1 = invoked c).
  { rewrite E1, settle_invoked. exact Hinv0. }
  assert (Hout1 : outstanding c1 = 0).
  { destruct Hwf1 as (Hs & _ & _). unfold slot_ok in Hs; rewrite Hslot in Hs.
    unfold outstanding; lia. }
  assert (Hobs1 : observable c1 = observable c).
  { rewrite E1; unfold settle; rewrite ?notify_all_closed, ?notify_error_closed; simpl; exact Kobs. }
  assert (Hemp1 : empty c1 = empty c).
  { rewrite E1; unfold settle; rewrite ?notify_all_closed, ?notify_error_closed; simpl; exact Kemp. }
  split. { rewrite E1; unfold settle; rewrite ?notify_all_closed, ?notify_error_closed; simpl.
           unfold error_next; simpl. rewrite Kerr; reflexivity. }
  split; [exact Hemp1|].
  split. { rewrite E1; unfold settle; rewrite ?notify_all_closed, ?notify_error_closed; simpl; exact Kval. }
  split; [exact Hslot|]. split; [exact Hinv1|]. split; [exact Hout1|].
  split.
  - intros Hr.
    assert (Hr1 : readyResolved c1 = true).
    { rewrite E1; unfold settle; rewrite ?notify_all_closed, ?notify_error_closed; simpl.
      unfold c0; rewrite drain_readyResolved; exact Hr. }
    assert (Hm1 : microtasks c1 = []).
    { rewrite E1, settle_microtasks, Hm0; reflexivity. }
    simpl. unfold drain, isEmpty, ready_then; simpl. rewrite Hr1; simpl.
    rewrite Hm1; simpl. unfold received; simpl.
    rewrite filter_app, map_app; simpl. rewrite Nat.eqb_refl; simpl.
    rewrite Hemp1; reflexivity.
  - intros c2. unfold c2; simpl. unfold call_refresh.
    rewrite attach_idle by exact Hslot. simpl.
    rewrite Hinv1, Hobs1. split; [reflexivity|].
    unfold outstanding in *; simpl. rewrite length_app; simpl.
    destruct Hwf1 as (Hs & _ & _). unfold slot_ok in Hs; rewrite Hslot in Hs.
    rewrite Hinv1 in *. lia.
Qed.

(** ** C2: the probe of the store fails *)

Lemma latch_of c c' :
  kept c' = kept c -> readyResolved c' = readyResolved c -> latch c' = latch c.
Proof.
  intros K R. destruct (kept_fields _ _ K) as (_ & P & _).
  unfold latch; rewrite P, R; reflexivity.
Qed.

Lemma kept_name c c' : kept c' = kept c -> name c' = name c.
Proof.
  unfold kept, config; intros E.
  injection E as E _ _ _ _ _ _ _ _. exact E.
Qed.

Lemma drain_latch c : latch (drain c) = latch c.
Proof. apply latch_of; [apply drain_kept | apply drain_readyResolved]. Qed.

Lemma set_latch d c : latch (set d c) = latch c.
Proof.
  unfold latch. rewrite set_readyResolved.
  pose proof (set_config d c) as E. unfold config in E.
  injection E as _ _ _ _ _ _ ->. reflexivity.
Qed.

Lemma settle_latch r c : latch (settle r c) = latch c.
Proof.
  destruct r as [v|e]; unfold settle; rewrite ?notify_all_closed, ?notify_error_closed; simpl.
  - exact (set_latch v (with_settled (S (settled c)) c)).
  - reflexivity.
Qed.

Lemma producer_settles_latch r c : latch (producer_settles r c) = latch c.
Proof.
  unfold producer_settles. destruct (shared_subscribers c); [reflexivity|].
  apply settle_latch.
Qed.

Lemma call_latch k c :
  latch (ready_then k (with_nextSub (S (nextSub c)) c)) = latch c.
Proof.
  apply latch_of; [rewrite ready_then_kept | rewrite ready_then_readyResolved];
    reflexivity.
Qed.

(** Once the probe has settled without opening the gate, no event opens
    it. *)
Lemma step_latch c ev :
  probe c = ProbeSettled -> latch (step c ev) = latch c.
Proof.
  intros Hp.
  assert (Hd : probe (drain c) = ProbeSettled).
  { pose proof (drain_latch c) as E; unfold latch in E.
    injection E as E _; congruence. }
  destruct ev; simpl; try apply call_latch; try reflexivity.
  - unfold call_refresh. apply latch_of.
    + rewrite attach_kept; reflexivity.
    + pose proof (attach_gate (nextSub c) (with_nextSub (S (nextSub c)) c)) as E.
      unfold gate in E; injection E as E _ _; exact E.
  - apply set_latch.
  - apply latch_of;
      [apply subscribe_get_stream_kept | apply subscribe_get_stream_readyResolved].
  - apply drain_latch.
  - rewrite drain_latch. unfold storage_ready_ok, probe_is; rewrite Hd.
    apply drain_latch.
  - rewrite drain_latch. unfold storage_ready_fail, probe_is; rewrite Hd.
    apply drain_latch.
  - rewrite drain_latch. unfold storage_get_ok, probe_is; rewrite Hd.
    apply drain_latch.
  - rewrite drain_latch. unfold storage_get_fail, probe_is; rewrite Hd.
    apply drain_latch.
  - rewrite drain_latch. unfold storage_set_ok.
    destruct (writes (drain c)); [|simpl]; apply drain_latch.
  - rewrite drain_latch. unfold storage_set_fail.
    destruct (writes (drain c)); [|simpl]; apply drain_latch.
  - rewrite drain_latch, producer_settles_latch. apply drain_latch.
Qed.

Lemma run_latch evs : forall c,
  probe c = ProbeSettled -> latch (run c evs) = latch c.
Proof.
  induction evs as [|ev evs IH]; simpl; intros c Hp; auto.
  pose proof (step_latch c ev Hp) as E. rewrite IH; [exact E|].
  unfold latch in E; injection E as E _; congruence.
Qed.

(** C2, as the code has it.  When the probe of the store fails (the store
    does not become ready, or the read of the key rejects) the handler
    emits its message on the error subject and does nothing else: the flag
    and [loaded] are left as they were, and the gate is not opened by the
    failure nor by anything that happens afterwards. *)
Theorem probe_failure_leaves_gate_shut c e :
  readyResolved c = false ->
  probe c = AwaitStorageReady \/ probe c = AwaitStorageGet ->
  let c1 := step c (probe_failure c e) in
  error c1 = error c ++ [probe_failure_message c] /\
  empty c1 = empty c /\
  loaded c1 = loaded c /\
  forall evs, readyResolved (run c1 evs) = false.
Proof.
  intros Hr Hp c1.
  set (c0 := drain c).
  destruct (kept_fields _ _ (drain_kept c))
    as (Kerr & Kprobe & Kload & _ & _ & _ & Kemp & _).
  pose proof (kept_name _ _ (drain_kept c)) as Kname.
  pose proof (drain_readyResolved c) as Kr.
  fold c0 in Kerr, Kprobe, Kload, Kemp, Kname, Kr.
  set (h := with_probe ProbeSettled (error_next (probe_failure_message c) c0)).
  assert (E1 : c1 = drain h).
  { unfold c1, h, probe_failure, probe_failure_message.
    destruct Hp as [Hp | Hp]; rewrite Hp; simpl; fold c0;
      [unfold storage_ready_fail | unfold storage_get_fail];
      unfold probe_is; rewrite Kprobe, Hp, ?Kname; reflexivity. }
  destruct (kept_fields _ _ (drain_kept h))
    as (Herr & Hprobe & Hload & _ & _ & _ & Hemp & _).
  rewrite <- E1 in Herr, Hprobe, Hload, Hemp.
  split; [rewrite Herr; simpl; rewrite Kerr; reflexivity|].
  split; [rewrite Hemp; simpl; exact Kemp|].
  split; [rewrite Hload; simpl; exact Kload|].
  intros evs.
  pose proof (run_latch evs c1 Hprobe) as L. unfold latch in L.
  injection L as _ ->. rewrite E1, drain_readyResolved; simpl.
  rewrite Kr; exact Hr.
Qed.

(** ** Observers that are neither attached nor waiting *)

Lemma quiet_frame i c c' : coord c' = coord c -> quiet i c -> quiet i c'.
Proof.
  unfold coord, quiet, shared_subscribers; intros E.
  injection E as -> _ _ ->. auto.
Qed.

Lemma attach_quiet i j c : j <> i -> quiet i c -> quiet i (attach j c).
Proof.
  unfold quiet; intros Hne [Hlt Hin].
  rewrite attach_nextSub, attach_subscribers. split; [exact Hlt|].
  rewrite in_app_iff; simpl. intros [H | [H | []]]; auto.
Qed.

Lemma attach_fresh_quiet i c :
  quiet i c -> quiet i (attach (nextSub c) (with_nextSub (S (nextSub c)) c)).
Proof.
  intros [Hlt Hin]. apply attach_quiet; [lia|].
  split; simpl; [lia | exact Hin].
Qed.

Lemma get_filter_quiet i c : quiet i c -> quiet i (fst (get_filter c)).
Proof.
  unfold get_filter; destruct (truthy (empty c)); simpl; auto.
  apply attach_fresh_quiet.
Qed.

Lemma offer_quiet i d c j : quiet i c -> quiet i (offer d c j).
Proof.
  intros H; apply get_filter_quiet in H.
  destruct (offer_fst d c j) as [-> | ->]; [exact H|].
  revert H; apply quiet_frame; reflexivity.
Qed.

Lemma fold_offer_quiet i d obs : forall c,
  quiet i c ->
  quiet i (fold_left (offer d) obs c) /\
  received (Caller i) (fold_left (offer d) obs c) = received (Caller i) c.
Proof.
  induction obs as [|j obs IH]; simpl; intros c H; auto.
  destruct (IH (offer d c j) (offer_quiet i d c j H)) as [H1 H2].
  split; [exact H1|]. rewrite H2; apply offer_received.
Qed.

Lemma data_next_quiet i d c :
  quiet i c ->
  quiet i (data_next d c) /\
  received (Caller i) (data_next d c) = received (Caller i) c.
Proof.
  intros H; unfold data_next.
  destruct (fold_offer_quiet i d (observers (data c))
              (with_data {| value := d; observers := observers (data c) |} c))
    as [H1 H2]; [revert H; apply quiet_frame; reflexivity|].
  split; [exact H1|]. rewrite H2; apply received_frame; reflexivity.
Qed.

Lemma run_reaction_quiet i c k :
  quiet i c -> ~ In i (get_id k) ->
  quiet i (run_reaction c k) /\
  received (Caller i) (run_reaction c k) = received (Caller i) c.
Proof.
  intros H Hk. destruct k as [j|j|j|d]; simpl in Hk; cbn [run_reaction].
  - assert (Hne : j <> i) by tauto.
    destruct (truthy (empty c)).
    + split; [apply attach_quiet; assumption|].
      apply received_frame, (attach_delivered j c).
    + split; [revert H; apply quiet_frame; reflexivity|].
      rewrite !received_deliver, !sub_eqb_caller.
      replace (Nat.eqb i j) with false
        by (symmetry; apply Nat.eqb_neq; congruence).
      rewrite !app_nil_r; reflexivity.
  - split.
    + match goal with |- quiet i (with_isScalar _ ?x) =>
        apply (quiet_frame i x); [reflexivity|] end.
      apply offer_quiet. revert H; apply quiet_frame; reflexivity.
    + change (received (Caller i) (with_isScalar ?b ?x))
        with (received (Caller i) x).
      rewrite offer_received. apply received_frame; reflexivity.
  - split; [revert H; apply quiet_frame; reflexivity|].
    rewrite received_deliver; simpl. apply app_nil_r.
  - split; [revert H; apply quiet_frame; reflexivity|].
    apply received_frame; reflexivity.
Qed.

Lemma fold_reaction_quiet i q : forall c,
  quiet i c -> ~ In i (ids_of q) ->
  quiet i (fold_left run_reaction q c) /\
  received (Caller i) (fold_left run_reaction q c) = received (Caller i) c.
Proof.
  induction q as [|k q IH]; simpl; intros c H Hq; auto.
  rewrite in_app_iff in Hq.
  destruct (run_reaction_quiet i c k H ltac:(tauto)) as [H1 H2].
  destruct (IH (run_reaction c k) H1 ltac:(tauto)) as [H3 H4].
  split; [exact H3 | congruence].
Qed.

Lemma readyResolve_kept c : kept (readyResolve c) = kept c.
Proof. unfold readyResolve; destruct (readyResolved c); reflexivity. Qed.

Lemma readyResolve_resolved c : readyResolved (readyResolve c) = true.
Proof. unfold readyResolve; destruct (readyResolved c) eqn:E; auto. Qed.

Lemma asleep_frame b i c c' :
  coord c' = coord c -> gate c' = gate c -> asleep b i c -> asleep b i c'.
Proof.
  intros Hc Hg (Hq & Hm & Hp). split; [revert Hq; apply quiet_frame, Hc|].
  unfold gate in Hg; injection Hg as -> -> ->. split; assumption.
Qed.

Lemma drain_asleep b i c :
  asleep b i c ->
  asleep b i (drain c) /\ received (Caller i) (drain c) = received (Caller i) c.
Proof.
  intros (Hq & Hm & Hp).
  destruct (fold_reaction_quiet i (microtasks c) (with_microtasks [] c))
    as [H1 H2]; [revert Hq; apply quiet_frame; reflexivity | exact Hm |].
  split; [|exact H2]. split; [exact H1|].
  rewrite drain_microtasks, drain_readyReactions, drain_readyResolved.
  split; [intros [] | exact Hp].
Qed.

Lemma ready_then_asleep b i k c :
  ~ In i (get_id k) -> asleep b i c ->
  asleep b i (ready_then k c) /\ delivered (ready_then k c) = delivered c.
Proof.
  intros Hk (Hq & Hm & Hp).
  unfold ready_then; destruct (readyResolved c) eqn:Hr; simpl;
    (split; [|reflexivity]); (split; [exact Hq|]); simpl.
  - split; [rewrite ids_of_app, in_app_iff; simpl; rewrite app_nil_r; tauto|].
    destruct b; [congruence | exact Hp].
  - split; [exact Hm|].
    destruct b; [reflexivity|].
    rewrite ids_of_app, in_app_iff; simpl; rewrite app_nil_r; tauto.
Qed.

Lemma bump_asleep b i c :
  asleep b i c -> asleep b i (with_nextSub (S (nextSub c)) c).
Proof.
  intros ([Hlt Hin] & Hm & Hp). repeat split; simpl; auto.
Qed.

Lemma set_asleep b i d c :
  asleep b i c ->
  asleep b i (set d c) /\ received (Caller i) (set d c) = received (Caller i) c.
Proof.
  intros H. split.
  - rewrite set_recorded.
    assert (Hrec : asleep b i (recorded d c)) by exact H.
    destruct (useLocalStorage c); [|exact Hrec].
    apply ready_then_asleep; [intros [] | exact Hrec].
  - unfold received; fold (picks (Caller i) (delivered (set d c))).
    rewrite set_delivered, picks_app, picks_streams. apply app_nil_r.
Qed.

Lemma readyResolve_asleep i c :
  asleep false i c -> asleep false i (readyResolve c).
Proof.
  intros (Hq & Hm & Hp). unfold readyResolve.
  destruct (readyResolved c); [split; [exact Hq | split; [exact Hm | exact Hp]]|].
  split; [exact Hq|]. simpl. split; [|intros []].
  rewrite ids_of_app, in_app_iff; tauto.
Qed.

Lemma settle_asleep b i r c :
  asleep b i c ->
  asleep b i (settle r c) /\
  received (Caller i) (settle r c) = received (Caller i) c.
Proof.
  intros H. pose proof H as ([Hlt Hin] & Hm & Hp). split.
  - destruct r as [v|e]; unfold settle; rewrite ?notify_all_closed, ?notify_error_closed.
    + destruct (set_asleep b i v (with_settled (S (settled c)) c))
        as [([H1 _] & H2 & H3) _]; [exact H|].
      split; [split; [exact H1 | intros []] | split; [exact H2 | exact H3]].
    + split; [split; [exact Hlt | intros []] | split; [exact Hm | exact Hp]].
  - assert (Hin' : ~ In i (heard (bare c) (shared_subscribers c)))
      by (intros X; apply Hin, (heard_incl _ _ _ X)).
    unfold received; fold (picks (Caller i) (delivered (settle r c))).
    rewrite settle_delivered, picks_app.
    destruct r as [v|e]; rewrite ?picks_app, ?picks_streams,
      ?picks_callers_out by assumption; simpl; apply app_nil_r.
Qed.

Lemma producer_settles_asleep b i r c :
  asleep b i c ->
  asleep b i (producer_settles r c) /\
  received (Caller i) (producer_settles r c) = received (Caller i) c.
Proof.
  intros H. unfold producer_settles.
  destruct (shared_subscribers c); [split; [exact H | reflexivity]|].
  apply settle_asleep, H.
Qed.

Lemma data_next_asleep b i d c :
  asleep b i c ->
  asleep b i (data_next d c) /\
  received (Caller i) (data_next d c) = received (Caller i) c.
Proof.
  intros (Hq & Hm & Hp).
  destruct (data_next_quiet i d c Hq) as [H1 H2].
  split; [|exact H2]. split; [exact H1|].
  pose proof (data_next_gate d c) as E.
  unfold gate in E; injection E as -> -> ->. split; assumption.
Qed.

Lemma storage_get_ok_resolved d c :
  probe_is AwaitStorageGet c = true ->
  readyResolved (storage_get_ok d c) = true.
Proof.
  intros E; unfold storage_get_ok; rewrite E; simpl.
  apply readyResolve_resolved.
Qed.

Lemma storage_get_ok_asleep b i d c :
  asleep b i c ->
  (b = true -> readyResolved (storage_get_ok d c) = false) ->
  asleep b i (storage_get_ok d c) /\
  received (Caller i) (storage_get_ok d c) = received (Caller i) c.
Proof.
  intros H Hshut.
  destruct (probe_is AwaitStorageGet c) eqn:Ep;
    [|unfold storage_get_ok; rewrite Ep; split; [exact H | reflexivity]].
  destruct b.
  { rewrite storage_get_ok_resolved in Hshut by exact Ep.
    specialize (Hshut eq_refl); discriminate. }
  unfold storage_get_ok; rewrite Ep.
  destruct (defined d && (allowNull c || not_null d)).
  - destruct (data_next_asleep false i d c H) as [H3 H2].
    split.
    + apply (asleep_frame false i (readyResolve (with_loaded true
               (with_empty (Some false) (data_next d c)))));
        [reflexivity | reflexivity |].
      apply readyResolve_asleep. revert H3; apply asleep_frame; reflexivity.
    + rewrite <- H2. apply received_frame.
      unfold readyResolve; simpl.
      destruct (readyResolved (data_next d c)); reflexivity.
  - split.
    + apply (asleep_frame false i (readyResolve (with_loaded true
               (with_empty (Some true) c)))); [reflexivity | reflexivity |].
      apply readyResolve_asleep. revert H; apply asleep_frame; reflexivity.
    + apply received_frame. unfold readyResolve; simpl.
      destruct (readyResolved c); reflexivity.
Qed.

Lemma handler_asleep b i (h : Cache T -> Cache T) c :
  (forall x, asleep b i x -> (b = true -> readyResolved (h x) = false) ->
             asleep b i (h x) /\ received (Caller i) (h x) = received (Caller i) x) ->
  asleep b i c ->
  (b = true -> readyResolved (drain (h (drain c))) = false) ->
  asleep b i (drain (h (drain c))) /\
  received (Caller i) (drain (h (drain c))) = received (Caller i) c.
Proof.
  intros Hh H Hshut. rewrite drain_readyResolved in Hshut.
  destruct (drain_asleep b i c H) as [H1 E1].
  destruct (Hh _ H1 Hshut) as [H2 E2].
  destruct (drain_asleep b i _ H2) as [H3 E3].
  split; [exact H3 | congruence].
Qed.

Lemma plain_asleep b i (h : Cache T -> Cache T) c :
  (forall x, coord (h x) = coord x /\ gate (h x) = gate x /\
             delivered (h x) = delivered x) ->
  asleep b i c ->
  asleep b i (drain (h (drain c))) /\
  received (Caller i) (drain (h (drain c))) = received (Caller i) c.
Proof.
  intros Hh H.
  destruct (drain_asleep b i c H) as [H1 E1].
  destruct (Hh (drain c)) as (Hc & Hg & Hd).
  assert (H2 : asleep b i (h (drain c)))
    by (revert H1; apply asleep_frame; assumption).
  destruct (drain_asleep b i _ H2) as [H3 E3].
  split; [exact H3|]. rewrite E3, (received_frame _ _ _ Hd). exact E1.
Qed.

Lemma run_now_asleep b i c k :
  ~ In i (get_id k) -> asleep b i c ->
  asleep b i (run_reaction c k) /\
  received (Caller i) (run_reaction c k) = received (Caller i) c.
Proof.
  intros Hk (Hq & Hm & Hp).
  destruct (run_reaction_quiet i c k Hq Hk) as [H1 H2].
  split; [|exact H2]. split; [exact H1|].
  rewrite run_reaction_microtasks, run_reaction_readyResolved,
    run_reaction_readyReactions.
  split; assumption.
Qed.

Lemma subscribe_get_stream_asleep b i c :
  asleep b i c ->
  asleep b i (subscribe_get_stream c) /\
  received (Caller i) (subscribe_get_stream c) = received (Caller i) c.
Proof.
  intros H. unfold subscribe_get_stream. destruct (isScalar c).
  - destruct (run_now_asleep b i _ (RStream (nextSub c)) ltac:(intros [])
                (bump_asleep b i c H)) as [H1 H2].
    split; [exact H1|]. rewrite H2. reflexivity.
  - destruct (ready_then_asleep b i (RStream (nextSub c)) _ ltac:(intros [])
                (bump_asleep b i c H)) as [H1 H2].
    split; [exact H1 | apply received_frame, H2].
Qed.

(** Nothing is handed to an observer that is asleep, and it stays asleep:
    for ever if it is retired, as long as the gate stays shut if it is
    parked behind it. *)
Lemma step_asleep b i c ev :
  asleep b i c ->
  (b = true -> readyResolved (step c ev) = false) ->
  asleep b i (step c ev) /\
  received (Caller i) (step c ev) = received (Caller i) c.
Proof.
  intros H Hshut. pose proof H as ([Hlt Hin] & Hm & Hp).
  assert (Hcall : forall k, ~ In i (get_id k) ->
            asleep b i (ready_then k (with_nextSub (S (nextSub c)) c)) /\
            received (Caller i) (ready_then k (with_nextSub (S (nextSub c)) c)) =
            received (Caller i) c).
  { intros k Hk.
    destruct (ready_then_asleep b i k _ Hk (bump_asleep b i c H)) as [H1 H2].
    split; [exact H1 | apply received_frame, H2]. }
  destruct ev; simpl in *.
  - apply Hcall; simpl; lia.
  - unfold call_refresh. split.
    + split; [apply attach_fresh_quiet; split; assumption|].
      pose proof (attach_gate (nextSub c) (with_nextSub (S (nextSub c)) c)) as E.
      unfold gate in E; injection E as -> -> ->. split; assumption.
    + apply received_frame. rewrite attach_delivered; reflexivity.
  - apply set_asleep, H.
  - split; [exact H | reflexivity].
  - apply Hcall; intros [].
  - apply subscribe_get_stream_asleep, H.
  - split; [exact H | reflexivity].
  - split; [exact H | reflexivity].
  - apply drain_asleep, H.
  - apply plain_asleep; [|exact H]. intros x; unfold storage_ready_ok.
    destruct (probe_is _ x); repeat split.
  - apply plain_asleep; [|exact H]. intros x; unfold storage_ready_fail.
    destruct (probe_is _ x); repeat split.
  - apply handler_asleep; [|exact H | exact Hshut].
    intros x; apply storage_get_ok_asleep.
  - apply plain_asleep; [|exact H]. intros x; unfold storage_get_fail.
    destruct (probe_is _ x); repeat split.
  - apply plain_asleep; [|exact H]. intros x; unfold storage_set_ok.
    destruct (writes x); repeat split.
  - apply plain_asleep; [|exact H]. intros x; unfold storage_set_fail.
    destruct (writes x); repeat split.
  - apply handler_asleep; [|exact H | exact Hshut].
    intros x Hx _; apply producer_settles_asleep, Hx.
Qed.

(** A retired observer is handed nothing any more. *)
Lemma run_retired i evs : forall c,
  asleep false i c -> received (Caller i) (run c evs) = received (Caller i) c.
Proof.
  induction evs as [|ev evs IH]; simpl; intros c H; auto.
  destruct (step_asleep false i c ev H) as [H1 H2]; [discriminate|].
  rewrite IH; assumption.
Qed.

(** The gate, once open, stays open. *)
Lemma step_ready_mono c ev :
  readyResolved c = true -> readyResolved (step c ev) = true.
Proof.
  intros Hr.
  assert (Hd : readyResolved (drain c) = true)
    by (rewrite drain_readyResolved; exact Hr).
  destruct ev; simpl;
    rewrite ?drain_readyResolved, ?subscribe_get_stream_readyResolved;
    unfold get, isEmpty;
    try (rewrite ready_then_readyResolved; exact Hr); try exact Hr.
  - unfold call_refresh.
    pose proof (attach_gate (nextSub c) (with_nextSub (S (nextSub c)) c)) as E.
    unfold gate in E; injection E as -> _ _. exact Hr.
  - rewrite set_readyResolved; exact Hr.
  - unfold storage_ready_ok; destruct (probe_is _ _); exact Hd.
  - unfold storage_ready_fail; destruct (probe_is _ _); exact Hd.
  - unfold storage_get_ok; destruct (probe_is _ _); [|exact Hd].
    simpl. apply readyResolve_resolved.
  - unfold storage_get_fail; destruct (probe_is _ _); exact Hd.
  - unfold storage_set_ok; destruct (writes _); exact Hd.
  - unfold storage_set_fail; destruct (writes _); exact Hd.
  - assert (L : readyResolved (producer_settles r (drain c)) =
                readyResolved (drain c))
      by exact (f_equal snd (producer_settles_latch r (drain c))).
    rewrite L; exact Hd.
Qed.

Lemma run_ready_mono evs : forall c,
  readyResolved c = true -> readyResolved (run c evs) = true.
Proof.
  induction evs as [|ev evs IH]; simpl; intros c H; auto.
  apply IH, step_ready_mono, H.
Qed.

Lemma shut_before c ev :
  readyResolved (step c ev) = false -> readyResolved c = false.
Proof.
  intros H. destruct (readyResolved c) eqn:E; [|reflexivity].
  rewrite (step_ready_mono c ev E) in H; discriminate.
Qed.

Lemma run_shut_before evs c ev :
  readyResolved (run c (ev :: evs)) = false -> readyResolved (step c ev) = false.
Proof.
  simpl; intros H. destruct (readyResolved (step c ev)) eqn:E; [|reflexivity].
  change (fold_left step evs (step c ev)) with (run (step c ev) evs) in H.
  rewrite (run_ready_mono evs _ E) in H; discriminate.
Qed.

(** While the gate is shut the reactions parked behind it stay there. *)
Lemma step_keeps_parked c ev k :
  readyResolved (step c ev) = false ->
  In k (readyReactions c) -> In k (readyReactions (step c ev)).
Proof.
  intros Hshut Hin. pose proof (shut_before c ev Hshut) as Hr.
  assert (Hcall : forall k', In k (readyReactions
                     (ready_then k' (with_nextSub (S (nextSub c)) c)))).
  { intros k'; unfold ready_then; simpl; rewrite Hr; simpl.
    apply in_or_app; left; exact Hin. }
  assert (Hd : In k (readyReactions (drain c)))
    by (rewrite drain_readyReactions; exact Hin).
  destruct ev; simpl in *; rewrite ?drain_readyReactions;
    unfold get, isEmpty;
    try apply Hcall; try exact Hin.
  - unfold call_refresh.
    pose proof (attach_gate (nextSub c) (with_nextSub (S (nextSub c)) c)) as E.
    unfold gate in E; injection E as _ -> _. exact Hin.
  - rewrite set_recorded. destruct (useLocalStorage c); [|exact Hin].
    unfold ready_then; simpl; rewrite Hr; simpl.
    apply in_or_app; left; exact Hin.
  - unfold subscribe_get_stream. destruct (isScalar c); [|apply Hcall].
    rewrite run_reaction_readyReactions. exact Hin.
  - unfold storage_ready_ok; destruct (probe_is _ _); exact Hd.
  - unfold storage_ready_fail; destruct (probe_is _ _); exact Hd.
  - rewrite drain_readyResolved in Hshut.
    destruct (probe_is AwaitStorageGet (drain c)) eqn:Ep.
    + rewrite storage_get_ok_resolved in Hshut by exact Ep. discriminate.
    + unfold storage_get_ok; rewrite Ep; exact Hd.
  - unfold storage_get_fail; destruct (probe_is _ _); exact Hd.
  - unfold storage_set_ok; destruct (writes _); exact Hd.
  - unfold storage_set_fail; destruct (writes _); exact Hd.
  - rewrite drain_readyResolved in Hshut.
    assert (Hr0 : readyResolved (drain c) = false)
      by (rewrite drain_readyResolved; exact Hr).
    unfold producer_settles. destruct (shared_subscribers (drain c)); [exact Hd|].
    destruct r as [v|e]; unfold settle; rewrite ?notify_all_closed, ?notify_error_closed; simpl;
      [|exact Hd].
    rewrite set_recorded; simpl. destruct (useLocalStorage (drain c)); [|exact Hd].
    unfold ready_then; simpl. rewrite Hr0; simpl.
    apply in_or_app; left; exact Hd.
Qed.

(** The observer of a [get()] parked behind the gate is handed nothing as
    long as the gate is shut. *)
Lemma run_parked i evs : forall c,
  asleep true i c -> In (RGet i) (readyReactions c) ->
  readyResolved (run c evs) = false ->
  received (Caller i) (run c evs) = received (Caller i) c /\
  In (RGet i) (readyReactions (run c evs)) /\
  asleep true i (run c evs).
Proof.
  induction evs as [|ev evs IH]; intros c H Hin Hshut;
    [split; [reflexivity | split; assumption]|].
  pose proof (run_shut_before evs c ev Hshut) as Hs.
  destruct (step_asleep true i c ev H (fun _ => Hs)) as [H1 H2].
  destruct (IH (step c ev) H1 (step_keeps_parked c ev _ Hs Hin) Hshut)
    as (E1 & E2 & E3).
  split; [simpl in *; congruence | split; [exact E2 | exact E3]].
Qed.

Lemma fold_offer_kept d obs : forall c,
  kept (fold_left (offer d) obs c) = kept c.
Proof.
  induction obs as [|j obs IH]; simpl; intros c; auto.
  rewrite IH; apply offer_kept.
Qed.

Lemma data_next_value d c : value (data (data_next d c)) = d.
Proof.
  unfold data_next.
  destruct (kept_fields _ _ (fold_offer_kept d (observers (data c))
              (with_data {| value := d; observers := observers (data c) |} c)))
    as (_ & _ & _ & _ & _ & _ & _ & ->). reflexivity.
Qed.

(** ** C7, C10: [get()] and the gate *)

(** A call hands nothing to the observers of [get()] and [refresh()], and
    on a ready entity it only adds to the end of the queue. *)
Lemma call_queues c ev i :
  is_call ev = true -> readyResolved c = true ->
  received (Caller i) (step c ev) = received (Caller i) c /\
  readyResolved (step c ev) = true /\
  exists l, microtasks (step c ev) = microtasks c ++ l.
Proof.
  intros Hev Hr.
  assert (Hcall : forall k,
            let c' := ready_then k (with_nextSub (S (nextSub c)) c) in
            received (Caller i) c' = received (Caller i) c /\
            readyResolved c' = true /\
            exists l, microtasks c' = microtasks c ++ l).
  { intros k; unfold ready_then; simpl; rewrite Hr; simpl.
    repeat split; eauto. }
  destruct ev; try discriminate; simpl; try apply Hcall.
  - unfold call_refresh.
    pose proof (attach_gate (nextSub c) (with_nextSub (S (nextSub c)) c)) as E.
    unfold gate in E; injection E as E1 _ E3. rewrite E1, E3; simpl.
    split; [apply received_frame; rewrite attach_delivered; reflexivity|].
    split; [exact Hr|]. exists []; rewrite app_nil_r; reflexivity.
  - split.
    { unfold received; fold (picks (Caller i) (delivered (set d c))).
      rewrite set_delivered, picks_app, picks_streams. apply app_nil_r. }
    rewrite set_readyResolved. split; [exact Hr|].
    rewrite set_recorded. destruct (useLocalStorage c).
    + unfold ready_then; simpl; rewrite Hr; simpl. eauto.
    + exists []; rewrite app_nil_r; reflexivity.
  - repeat split; auto. exists []; rewrite app_nil_r; reflexivity.
  - unfold subscribe_get_stream. destruct (isScalar c); [|apply Hcall].
    split; [|split].
    + cbn [run_reaction].
      change (received (Caller i) (with_isScalar ?b ?x))
        with (received (Caller i) x).
      rewrite offer_received. reflexivity.
    + rewrite run_reaction_readyResolved. exact Hr.
    + rewrite run_reaction_microtasks. exists []. rewrite app_nil_r.
      reflexivity.
  - repeat split; auto. exists []; rewrite app_nil_r; reflexivity.
  - repeat split; auto. exists []; rewrite app_nil_r; reflexivity.
Qed.

Lemma calls_queue calls i : forall c l0,
  Forall (fun ev => is_call ev = true) calls ->
  readyResolved c = true -> microtasks c = l0 ->
  received (Caller i) (run c calls) = received (Caller i) c /\
  exists l, microtasks (run c calls) = l0 ++ l.
Proof.
  induction calls as [|ev calls IH]; simpl; intros c l0 Hall Hr Hm.
  - split; [reflexivity|]. exists []; rewrite app_nil_r; exact Hm.
  - inversion Hall as [|? ? Hev Hrest]; subst.
    destruct (call_queues c ev i Hev Hr) as (E1 & Hr' & l1 & Hm').
    destruct (IH (step c ev) (microtasks c ++ l1) Hrest Hr' Hm')
      as (E2 & l2 & Hm'').
    split; [congruence|]. exists (l1 ++ l2). rewrite Hm'', app_assoc.
    reflexivity.
Qed.

(** A [get()] subscribed on an entity that is not ready: its observer is
    parked behind the gate. *)
Lemma get_parked c :
  WF c -> readyResolved c = false ->
  let i := nextSub c in
  asleep true i (step c CallGet) /\
  In (RGet i) (readyReactions (step c CallGet)) /\
  received (Caller i) (step c CallGet) = received (Caller i) c.
Proof.
  intros Hwf Hr i. destruct Hwf as (_ & [_ Hlt] & _).
  rewrite ids_of_app, !Forall_app in Hlt. destruct Hlt as (L1 & L2 & _).
  simpl; unfold get, ready_then; simpl; rewrite Hr; simpl.
  split; [|split; [apply in_or_app; right; left; reflexivity | reflexivity]].
  split; [split; simpl; [lia | apply fresh_not_in, L1]|].
  split; [apply fresh_not_in, L2 | reflexivity].
Qed.


(** The body of [get()] on a ready entity runs when the subscribing task
    ends, after the reactions queued before it; these leave the flag and
    the snapshot alone. *)
Lemma get_body_at_task_end nm p (evs calls rest : list (Event T)) :
  let c := run (new_Cache nm p) evs in
  readyResolved c = true ->
  Forall (fun ev => is_call ev = true) calls ->
  let i := nextSub c in
  let c1 := run (step c CallGet) calls in
  truthy (empty c1) = false ->
  received (Caller i) (run c1 (Tick :: rest)) =
  received (Caller i) c ++ [Next (value (data c1)); Complete].
Proof.
  intros c Hr Hcalls i c1 Hne.
  pose proof (reachable_WF nm p evs) as Hwf. fold c in Hwf.
  assert (Hg : readyResolved (step c CallGet) = true /\
               microtasks (step c CallGet) = microtasks c ++ [RGet i] /\
               received (Caller i) (step c CallGet) = received (Caller i) c).
  { simpl; unfold get, ready_then; simpl; rewrite Hr; simpl.
    split; [exact Hr|]. split; reflexivity. }
  destruct Hg as (Hr' & Hm' & E0).
  destruct (calls_queue calls i (step c CallGet) _ Hcalls Hr' Hm')
    as (E1 & l & Hm1). fold c1 in E1, Hm1.
  assert (Hwf1 : WF c1) by (apply run_WF, step_WF, Hwf).
  destruct Hwf1 as (_ & [Hnd Hlt] & _).
  rewrite Hm1, <- !app_assoc in Hnd, Hlt. simpl in Hnd, Hlt.
  rewrite !ids_of_app in Hnd, Hlt. simpl in Hnd, Hlt.
  rewrite !app_assoc in Hnd, Hlt.
  apply NoDup_remove_2 in Hnd.
  apply Forall_app in Hlt as [_ Hlt]. apply Forall_inv in Hlt.
  rewrite !in_app_iff, ids_of_app, in_app_iff in Hnd.
  change (run c1 (Tick :: rest)) with (run (drain c1) rest).
  set (h0 := with_microtasks [] c1).
  assert (Hq0 : quiet i h0) by (split; [exact Hlt | tauto]).
  destruct (fold_reaction_quiet i (microtasks c) h0 Hq0 ltac:(tauto))
    as [Hq1 R1].
  set (h1 := fold_left run_reaction (microtasks c) h0) in *.
  destruct (kept_fields _ _ (fold_reaction_kept (microtasks c) h0))
    as (_ & _ & _ & _ & _ & _ & Ke & Kv). fold h1 in Ke, Kv.
  simpl in Ke, Kv.
  set (h2 := deliver (Caller i) Complete
               (deliver (Caller i) (Next (value (data c1))) h1)).
  assert (Hq2 : quiet i h2) by exact Hq1.
  destruct (fold_reaction_quiet i l h2 Hq2 ltac:(tauto)) as [Hq3 R3].
  assert (Hd : drain c1 = fold_left run_reaction l h2).
  { unfold drain; rewrite Hm1, !fold_left_app. fold h0; fold h1. simpl.
    rewrite Ke, Hne, Kv. reflexivity. }
  rewrite <- Hd in Hq3, R3.
  assert (Hret : asleep false i (drain c1)).
  { split; [exact Hq3|].
    rewrite drain_microtasks, drain_readyReactions. split; [intros [] | tauto]. }
  rewrite (run_retired i rest _ Hret), R3.
  unfold h2. rewrite !received_deliver, sub_eqb_refl, R1.
  rewrite <- app_assoc. simpl.
  rewrite (received_frame _ c1 h0) by reflexivity.
  rewrite E1, E0. reflexivity.
Qed.

(** The body of a [get()] subscribed on an entity that is not ready runs in
    the task in which the store answers the probe. *)
Lemma get_body_at_gate nm p (evs pre rest : list (Event T)) d :
  let c := run (new_Cache nm p) evs in
  readyResolved c = false ->
  let i := nextSub c in
  let c1 := run (step c CallGet) pre in
  readyResolved c1 = false ->
  probe c1 = AwaitStorageGet ->
  defined d && (allowNull c1 || not_null d) = true ->
  received (Caller i) (run c1 (StorageGetOk d :: rest)) =
  received (Caller i) c ++ [Next d; Complete].
Proof.
  intros c Hr i c1 Hr1 Hp1 Hd.
  pose proof (reachable_WF nm p evs) as Hwf. fold c in Hwf.
  (* the body is parked *)
  destruct (get_parked c Hwf Hr) as (Ha & Hin & E0). fold i in Ha, Hin, E0.
  destruct (run_parked i pre _ Ha Hin Hr1) as (E1 & Hin1 & Ha1).
  fold c1 in E1, Hin1, Ha1.
  assert (Hwf1 : WF c1) by (apply run_WF, step_WF, Hwf).
  (* the task of the store: what was queued runs first *)
  set (x := drain c1).
  destruct (drain_asleep true i c1 Ha1) as [Hax Ex]. fold x in Hax, Ex.
  assert (Hwfx : WF x) by (apply drain_WF, Hwf1).
  assert (Hmx : microtasks x = []) by apply drain_microtasks.
  assert (Hrx : readyResolved x = false)
    by (unfold x; rewrite drain_readyResolved; exact Hr1).
  assert (Hinx : In (RGet i) (readyReactions x))
    by (unfold x; rewrite drain_readyReactions; exact Hin1).
  destruct (kept_fields _ _ (drain_kept c1))
    as (_ & Kp & _ & Ka & _). fold x in Kp, Ka.
  (* the handler records [d] and opens the gate *)
  set (y := data_next d x).
  destruct (data_next_asleep true i d x Hax) as [[Hqy _] Ey]. fold y in Hqy, Ey.
  pose proof (data_next_gate d x) as Gy. fold y in Gy.
  unfold gate in Gy.
  assert (Gy1 : readyResolved y = readyResolved x)
    by exact (f_equal (fun t => fst (fst t)) Gy).
  assert (Gy2 : readyReactions y = readyReactions x)
    by exact (f_equal (fun t => snd (fst t)) Gy).
  assert (Gy3 : microtasks y = microtasks x)
    by exact (f_equal snd Gy).
  rewrite Hrx in Gy1. rewrite Hmx in Gy3.
  set (h0 := with_probe ProbeSettled
               (with_ready true []
                  (with_microtasks []
                     (with_loaded true (with_empty (Some false) y))))).
  assert (Estep : step c1 (StorageGetOk d) =
                  fold_left run_reaction (readyReactions x) h0).
  { simpl. fold x. unfold storage_get_ok, probe_is. rewrite Kp, Hp1, Ka, Hd.
    fold y. unfold readyResolve; simpl. rewrite Gy1.
    unfold drain; simpl. rewrite Gy3, Gy2; simpl. reflexivity. }
  (* the body of [get()] is one of the reactions the gate held back *)
  destruct (in_split _ _ Hinx) as (l1 & l2 & Hsplit).
  destruct Hwfx as (_ & [Hnd _] & _).
  rewrite Hmx, Hsplit in Hnd; simpl in Hnd.
  apply NoDup_app_remove_l in Hnd.
  rewrite ids_of_app in Hnd; simpl in Hnd.
  apply NoDup_remove_2 in Hnd. rewrite in_app_iff in Hnd.
  assert (Hq0 : quiet i h0) by exact Hqy.
  destruct (fold_reaction_quiet i l1 h0 Hq0 ltac:(tauto)) as [Hq1 R1].
  set (h1 := fold_left run_reaction l1 h0) in *.
  destruct (kept_fields _ _ (fold_reaction_kept l1 h0))
    as (_ & _ & _ & _ & _ & _ & Ke & Kv). fold h1 in Ke, Kv.
  simpl in Ke, Kv. unfold y in Kv. rewrite data_next_value in Kv.
  set (h2 := deliver (Caller i) Complete (deliver (Caller i) (Next d) h1)).
  assert (Hq2 : quiet i h2) by exact Hq1.
  destruct (fold_reaction_quiet i l2 h2 Hq2 ltac:(tauto)) as [Hq3 R3].
  assert (Efold : fold_left run_reaction (readyReactions x) h0 =
                  fold_left run_reaction l2 h2).
  { rewrite Hsplit, fold_left_app. fold h1. simpl.
    rewrite Ke, Kv. reflexivity. }
  (* from then on the observer is retired *)
  assert (Hret : asleep false i (step c1 (StorageGetOk d))).
  { split; [rewrite Estep, Efold; exact Hq3|].
    simpl. rewrite drain_microtasks, drain_readyReactions. fold x.
    unfold storage_get_ok, probe_is. rewrite Kp, Hp1, Ka, Hd.
    unfold readyResolve; simpl. fold y. rewrite Gy1; simpl.
    split; intros []. }
  change (run c1 (StorageGetOk d :: rest))
    with (run (step c1 (StorageGetOk d)) rest).
  rewrite (run_retired i rest _ Hret), Estep, Efold, R3.
  unfold h2. rewrite !received_deliver, sub_eqb_refl, R1.
  rewrite <- app_assoc. simpl. f_equal.
  rewrite <- E0, <- E1, <- Ex, <- Ey. apply received_frame; reflexivity.
Qed.

(** C10, as the code has it.  The body of [get()] runs after the gate:
    when the subscribing task ends if the entity is ready (whatever calls
    the task was made of before and goes on with), in the task in which the
    store answers the probe if it is not.  If the cache is not empty at that moment, the
    observer is handed exactly the snapshot of that moment, then the
    completion, and nothing else whatever happens afterwards. *)
Theorem get_is_one_shot nm p (evs : list (Event T)) :
  let c := run (new_Cache nm p) evs in
  let i := nextSub c in
  (readyResolved c = true ->
   forall calls rest,
     Forall (fun ev => is_call ev = true) calls ->
     let c1 := run (step c CallGet) calls in
     truthy (empty c1) = false ->
     received (Caller i) (run c1 (Tick :: rest)) =
     received (Caller i) c ++ [Next (value (data c1)); Complete]) /\
  (readyResolved c = false ->
   forall pre d rest,
     let c1 := run (step c CallGet) pre in
     readyResolved c1 = false ->
     probe c1 = AwaitStorageGet ->
     defined d && (allowNull c1 || not_null d) = true ->
     received (Caller i) (run c1 (StorageGetOk d :: rest)) =
     received (Caller i) c ++ [Next d; Complete]).
Proof.
  intros c i. split.
  - intros Hr calls rest Hcalls.
    exact (get_body_at_task_end nm p evs calls rest Hr Hcalls).
  - intros Hr pre d rest.
    exact (get_body_at_gate nm p evs pre rest d Hr).
Qed.

(** ** C3, C4: [null] *)

Lemma WF_running_outstanding c :
  WF c -> shared_subscribers c <> [] -> outstanding c = 1.
Proof.
  intros (Hs & _ & _) Hrun. unfold slot_ok in Hs.
  unfold outstanding, shared_subscribers in *.
  destruct (refreshObservable c); [|congruence]. destruct Hs as [_ ->]. lia.
Qed.

Lemma WF_idle_outstanding c :
  WF c -> refreshObservable c = None -> outstanding c = 0.
Proof.
  intros (Hs & _ & _) E. unfold slot_ok in Hs; rewrite E in Hs.
  unfold outstanding; lia.
Qed.

Lemma attach_invoked i c :
  slot_ok c ->
  invoked (attach i c) = invoked c ++ (if idle c then [observable c] else []).
Proof.
  unfold slot_ok, idle. attach_cases i c; simpl; [|reflexivity].
  intros [Hne _]. destruct (subscribers sh); [congruence|].
  rewrite app_nil_r; reflexivity.
Qed.

(** The reaction of a subscription of [get$] on a cache that is not empty:
    the filter lets the value of the subject through, whatever [allowNull]
    says: its second test looks at the subject, not at the value the
    subject holds. *)
Lemma stream_reaction_replays c i :
  truthy (empty c) = false ->
  delivered (run_reaction c (RStream i)) =
  delivered c ++ [(Stream i, Next (value (data c)))].
Proof.
  intros He. cbn [run_reaction].
  set (c1 := with_data _ c).
  assert (E : offer (value (data c)) c1 i =
              deliver (Stream i) (Next (value (data c))) c1).
  { unfold offer, get_filter. change (empty c1) with (empty c). rewrite He.
    unfold subject_not_null; rewrite orb_true_r. reflexivity. }
  rewrite E. reflexivity.
Qed.

(** The reaction of a subscription of [get$] on an empty cache: the filter
    subscribes [refresh()] with an observer of its own and lets nothing
    through. *)
Lemma stream_reaction_on_empty c i :
  truthy (empty c) = true -> slot_ok c ->
  let c' := run_reaction c (RStream i) in
  shared_subscribers c' = shared_subscribers c ++ [nextSub c] /\
  delivered c' = delivered c /\
  invoked c' = invoked c ++ (if idle c then [observable c] else []).
Proof.
  intros He Hs. cbn [run_reaction].
  set (c1 := with_data _ c).
  set (X := with_nextSub (S (nextSub c)) c1).
  assert (E : offer (value (data c)) c1 i =
              with_bare (bare c ++ [nextSub c]) (attach (nextSub c) X)).
  { unfold offer, get_filter. change (empty c1) with (empty c). rewrite He.
    reflexivity. }
  rewrite E.
  change (shared_subscribers (attach (nextSub c) X) =
            shared_subscribers c ++ [nextSub c] /\
          delivered (attach (nextSub c) X) = delivered c /\
          invoked (attach (nextSub c) X) =
            invoked c ++ (if idle c then [observable c] else [])).
  assert (HX : slot_ok X) by exact Hs.
  rewrite attach_subscribers, attach_delivered, (attach_invoked _ X HX).
  repeat split.
Qed.

(** A subscription of [get$] on an open gate is served by the end of the
    task: where the promise observable has fired, inside [subscribe]. *)
Lemma stream_served_by_task_end c :
  readyResolved c = true -> microtasks c = [] ->
  exists x,
    run c [SubscribeStream; Tick] = run_reaction x (RStream (nextSub c)) /\
    coord x = coord (with_nextSub (S (nextSub c)) c) /\
    kept x = kept c /\ delivered x = delivered c.
Proof.
  intros Hr Hm. cbn [run fold_left step]. unfold subscribe_get_stream.
  destruct (isScalar c).
  - exists (with_nextSub (S (nextSub c)) c).
    rewrite drain_nothing by (rewrite run_reaction_microtasks; exact Hm).
    repeat split.
  - unfold ready_then.
    change (readyResolved (with_nextSub (S (nextSub c)) c))
      with (readyResolved c).
    change (microtasks (with_nextSub (S (nextSub c)) c)) with (microtasks c).
    rewrite Hr, Hm. cbn [app].
    exists (with_microtasks [] (with_microtasks [RStream (nextSub c)]
              (with_nextSub (S (nextSub c)) c))).
    repeat split.
Qed.

Lemma stream_replays_snapshot c :
  readyResolved c = true -> microtasks c = [] -> truthy (empty c) = false ->
  delivered (run c [SubscribeStream; Tick]) =
  delivered c ++ [(Stream (nextSub c), Next (value (data c)))].
Proof.
  intros Hr Hm He.
  destruct (stream_served_by_task_end c Hr Hm) as (x & -> & _ & K & Hd).
  destruct (kept_fields _ _ K) as (_ & _ & _ & _ & _ & _ & Ke & Kv).
  rewrite stream_reaction_replays by (rewrite Ke; exact He).
  rewrite Hd, Kv. reflexivity.
Qed.

(** On an empty cache a new subscriber of [get$] is handed nothing; the
    filter subscribes [refresh()] with an observer of its own. *)
Lemma stream_on_empty c :
  readyResolved c = true -> microtasks c = [] -> truthy (empty c) = true ->
  slot_ok c ->
  let c' := run c [SubscribeStream; Tick] in
  shared_subscribers c' = shared_subscribers c ++ [S (nextSub c)] /\
  delivered c' = delivered c /\
  invoked c' = invoked c ++ (if idle c then [observable c] else []).
Proof.
  intros Hr Hm He Hs c'. unfold c'.
  destruct (stream_served_by_task_end c Hr Hm) as (x & -> & Hc & K & Hd).
  destruct (kept_fields _ _ K) as (_ & _ & _ & _ & _ & Ko & Ke & _).
  unfold coord in Hc.
  assert (E1 : refreshObservable x = refreshObservable c)
    by exact (f_equal (fun t => fst (fst (fst t))) Hc).
  assert (E2 : invoked x = invoked c)
    by exact (f_equal (fun t => snd (fst (fst t))) Hc).
  assert (E4 : nextSub x = S (nextSub c)) by exact (f_equal snd Hc).
  assert (E3 : settled x = settled c)
    by exact (f_equal (fun t => snd (fst t)) Hc).
  assert (Hx : slot_ok x)
    by (unfold slot_ok in *; rewrite E1, E2, E3; exact Hs).
  destruct (stream_reaction_on_empty x (nextSub c)
              ltac:(rewrite Ke; exact He) Hx) as (S1 & S2 & S3).
  rewrite S1, S2, S3. unfold shared_subscribers, idle.
  rewrite E1, E2, E4, Ko, Hd. repeat split.
Qed.

Lemma drain_settle_coord r c :
  microtasks c = [] -> coord (drain (settle r c)) = coord (settle r c).
Proof.
  intros Hm. unfold drain. rewrite settle_microtasks, Hm; simpl.
  destruct r as [v|e]; [|reflexivity].
  destruct (useLocalStorage c && readyResolved c); reflexivity.
Qed.

(** The store answers [null] and [allowNull] is off: the flag is set, the
    subject keeps its value, the gate opens. *)
Lemma load_null c :
  allowNull c = false -> probe c = AwaitStorageGet ->
  let c1 := step c (StorageGetOk Null) in
  empty c1 = Some true /\ value (data c1) = value (data c) /\
  readyResolved c1 = true /\ microtasks c1 = [].
Proof.
  intros Ha Hp c1.
  destruct (kept_fields _ _ (drain_kept c))
    as (_ & Kp & _ & Ka & _ & _ & _ & Kv).
  set (h := readyResolve (with_loaded true (with_empty (Some true) (drain c)))).
  assert (E1 : c1 = drain (with_probe ProbeSettled h)).
  { unfold c1, h; simpl. unfold storage_get_ok, probe_is.
    rewrite Kp, Hp, Ka, Ha. reflexivity. }
  destruct (kept_fields _ _ (drain_kept (with_probe ProbeSettled h)))
    as (_ & _ & _ & _ & _ & _ & He & Hv).
  rewrite <- E1 in He, Hv.
  destruct (kept_fields _ _ (readyResolve_kept
              (with_loaded true (with_empty (Some true) (drain c)))))
    as (_ & _ & _ & _ & _ & _ & He' & Hv'). fold h in He', Hv'.
  split; [rewrite He; simpl; rewrite He'; reflexivity|].
  split; [rewrite Hv; simpl; rewrite Hv'; simpl; exact Kv|].
  split; [|rewrite E1; apply drain_microtasks].
  rewrite E1, drain_readyResolved; simpl. apply readyResolve_resolved.
Qed.

(** C4, as the code has it.  With [allowNull] off, a [null] read from the
    store leaves the entity empty: the flag is set, and the next [get()]
    or subscription of [get$] subscribes [refresh()] (the producer is
    invoked if no refresh was running) while the subscriber of [get$] is
    handed nothing.  A [null] that goes through [set] - by a call, or as
    the value of a refresh - clears the flag like any other value: the
    next [get()] hands out [null] and leaves the producer alone. *)
Theorem null_is_empty_only_from_the_store nm p (evs : list (Event T)) :
  let c := run (new_Cache nm p) evs in
  allowNull c = false ->
  (probe c = AwaitStorageGet ->
   let c1 := step c (StorageGetOk Null) in
   empty c1 = Some true /\
   readyResolved c1 = true /\
   (let c2 := run c1 [CallGet; Tick] in
    outstanding c2 = 1 /\
    invoked c2 = invoked c1 ++ (if idle c1 then [observable c1] else [])) /\
   (let c2 := run c1 [SubscribeStream; Tick] in
    outstanding c2 = 1 /\
    invoked c2 = invoked c1 ++ (if idle c1 then [observable c1] else []) /\
    delivered c2 = delivered c1)) /\
  empty (step c (CallSet Null)) = Some false /\
  (shared_subscribers c <> [] -> readyResolved c = true ->
   let c1 := step c (ProducerSettles (Yield Null)) in
   empty c1 = Some false /\
   value (data c1) = Null /\
   let c2 := run c1 [CallGet; Tick] in
   invoked c2 = invoked c1 /\
   outstanding c2 = 0 /\
   delivered c2 =
     delivered c1 ++ [(Caller (nextSub c1), Next Null);
                      (Caller (nextSub c1), Complete)]).
Proof.
  intros c Ha.
  pose proof (reachable_WF nm p evs) as Hwf. fold c in Hwf.
  split; [|split].
  - intros Hp c1.
    destruct (load_null c Ha Hp) as (He & _ & Hr & Hm). fold c1 in He, Hr, Hm.
    assert (Hwf1 : WF c1) by (apply step_WF, Hwf).
    assert (Ht : truthy (empty c1) = true) by (rewrite He; reflexivity).
    split; [exact He|]. split; [exact Hr|]. split.
    + intros c2.
      assert (Hreq : Forall (request_on c1) [CallGet]).
      { apply Forall_cons; [right; repeat split; assumption | apply Forall_nil]. }
      destruct (requests_share_one_invocation c1 [CallGet] Hwf1
                  ltac:(discriminate) Hreq) as [Hinv Hin].
      split; [|exact Hinv].
      apply WF_running_outstanding; [apply run_WF, Hwf1|].
      specialize (Hin 0 ltac:(simpl; lia)). intros E.
      unfold c2 in E. simpl in Hin, E. rewrite E in Hin. destruct Hin.
    + intros c2.
      destruct (stream_on_empty c1 Hr Hm Ht ltac:(apply Hwf1))
        as (Hsub & Hdel & Hinv). fold c2 in Hsub, Hdel, Hinv.
      split; [|split; assumption].
      apply WF_running_outstanding; [apply run_WF, Hwf1|].
      rewrite Hsub. intros E; apply app_eq_nil in E as [_ E]; discriminate.
  - simpl. pose proof (set_memory Null c) as E. unfold memory in E.
    injection E as E _; exact E.
  - intros Hrun Hr c1.
    set (c0 := drain c).
    assert (Hrun0 : shared_subscribers c0 <> [])
      by (apply drain_keeps_running, Hrun).
    assert (Hm0 : microtasks c0 = []) by apply drain_microtasks.
    assert (E1 : c1 = drain (settle (Yield Null) c0)).
    { unfold c1.
      change (step c (ProducerSettles (Yield Null)))
        with (drain (producer_settles (Yield Null) c0)).
      rewrite producer_settles_running by exact Hrun0. reflexivity. }
    assert (Hmem : memory (settle (Yield Null) c0) = (Some false, Null)).
    { unfold settle; rewrite ?notify_all_closed, ?notify_error_closed.
      exact (set_memory Null (with_settled (S (settled c0)) c0)). }
    assert (He : empty (settle (Yield Null) c0) = Some false)
      by exact (f_equal fst Hmem).
    assert (Hv : value (data (settle (Yield Null) c0)) = Null)
      by exact (f_equal snd Hmem).
    destruct (kept_fields _ _ (drain_kept (settle (Yield Null) c0)))
      as (_ & _ & _ & _ & _ & _ & Ke & Kv).
    rewrite <- E1 in Ke, Kv. rewrite He in Ke. rewrite Hv in Kv.
    assert (Hr1 : readyResolved c1 = true).
    { rewrite E1, drain_readyResolved.
      assert (L : readyResolved (settle (Yield Null) c0) = readyResolved c0)
        by exact (f_equal snd (settle_latch (Yield Null) c0)).
      rewrite L. unfold c0; rewrite drain_readyResolved; exact Hr. }
    assert (Hm1 : microtasks c1 = []) by (rewrite E1; apply drain_microtasks).
    assert (Hslot : refreshObservable c1 = None).
    { pose proof (drain_settle_coord (Yield Null) c0 Hm0) as E.
      rewrite <- E1 in E.
      assert (E' : refreshObservable c1 =
                   refreshObservable (settle (Yield Null) c0))
        by exact (f_equal (fun x => fst (fst (fst x))) E).
      rewrite E'. apply settle_slot. }
    split; [exact Ke|]. split; [exact Kv|].
    intros c2.
    destruct (get_on_nonempty c1 Hr1 Hm1 ltac:(rewrite Ke; reflexivity))
      as (G1 & G2 & G3).
    fold c2 in G1, G2, G3. rewrite Kv in G3.
    split; [exact G1|]. split; [|exact G3].
    apply WF_idle_outstanding; [apply run_WF, step_WF, Hwf | congruence].
Qed.


End EntityFacts.

(** * More facts about the entity *)

Section EntityLaws.
Context {T : Type}.
Implicit Types (c : Cache T) (d : jsval T) (q : list (Reaction T))
  (k : Reaction T) (n : Notification T) (ev : Event T).

(** ** The gate, [loaded] and the error subject, event by event *)

Lemma probe_is_drain p c : probe_is p (drain c) = probe_is p c.
Proof.
  destruct (kept_fields _ _ (drain_kept c)) as (_ & E & _).
  unfold probe_is; rewrite E; reflexivity.
Qed.

Lemma call_readyResolved k c :
  readyResolved (ready_then k (with_nextSub (S (nextSub c)) c)) =
  readyResolved c.
Proof. rewrite ready_then_readyResolved; reflexivity. Qed.

Lemma call_refresh_readyResolved c :
  readyResolved (call_refresh c) = readyResolved c.
Proof.
  exact (f_equal (fun t => fst (fst t))
           (attach_gate (nextSub c) (with_nextSub (S (nextSub c)) c))).
Qed.

Lemma producer_settles_readyResolved r c :
  readyResolved (producer_settles r c) = readyResolved c.
Proof. exact (f_equal snd (producer_settles_latch r c)). Qed.

(** The gate opens when the store answers the pending probe, by nothing
    else, and never shuts. *)
Lemma step_readyResolved c ev :
  readyResolved (step c ev) = readyResolved c || opens_gate c ev.
Proof.
  destruct ev; cbn [step opens_gate];
    rewrite ?drain_readyResolved, ?orb_false_r;
    unfold get, isEmpty;
    rewrite ?subscribe_get_stream_readyResolved, ?call_readyResolved, ?call_refresh_readyResolved,
      ?set_readyResolved, ?producer_settles_readyResolved,
      ?drain_readyResolved; try reflexivity.
  - unfold storage_ready_ok; destruct (probe_is _ _); apply drain_readyResolved.
  - unfold storage_ready_fail; destruct (probe_is _ _); apply drain_readyResolved.
  - rewrite <- (probe_is_drain AwaitStorageGet c).
    destruct (probe_is AwaitStorageGet (drain c)) eqn:Ep.
    + rewrite storage_get_ok_resolved by exact Ep. rewrite orb_true_r; reflexivity.
    + unfold storage_get_ok; rewrite Ep, orb_false_r. apply drain_readyResolved.
  - unfold storage_get_fail; destruct (probe_is _ _); apply drain_readyResolved.
  - unfold storage_set_ok; destruct (writes _); apply drain_readyResolved.
  - unfold storage_set_fail; destruct (writes _); apply drain_readyResolved.
Qed.


Lemma kept_loaded c c' : kept c' = kept c -> loaded c' = loaded c.
Proof. intros K; apply (kept_fields _ _ K). Qed.

Lemma kept_error c c' : kept c' = kept c -> error c' = error c.
Proof. intros K; apply (kept_fields _ _ K). Qed.

Lemma config_fields c c' :
  config c' = config c ->
  name c' = name c /\ loaded c' = loaded c /\ error c' = error c /\
  probe c' = probe c /\ observable c' = observable c /\
  allowNull c' = allowNull c /\ useLocalStorage c' = useLocalStorage c.
Proof.
  unfold config; intros E. injection E as E1 E2 E3 E4 E5 E6 E7.
  repeat split; assumption.
Qed.

Lemma call_kept k c :
  kept (ready_then k (with_nextSub (S (nextSub c)) c)) = kept c.
Proof. rewrite ready_then_kept; reflexivity. Qed.

Lemma call_refresh_kept c : kept (call_refresh c) = kept c.
Proof. unfold call_refresh; rewrite attach_kept; reflexivity. Qed.

Lemma settle_config r c :
  config (settle r c) =
  (name c, useLocalStorage c, loaded c, allowNull c,
   error c ++ match r with Yield _ => [] | Fail e => [e] end,
   observable c, probe c).
Proof.
  destruct r as [v|e]; unfold settle; rewrite ?notify_all_closed, ?notify_error_closed.
  - change (config (set v (with_settled (S (settled c)) c)) =
            (name c, useLocalStorage c, loaded c, allowNull c,
             error c ++ [], observable c, probe c)).
    rewrite set_config, app_nil_r. reflexivity.
  - reflexivity.
Qed.

Lemma settle_loaded r c : loaded (settle r c) = loaded c.
Proof.
  exact (f_equal (fun t => snd (fst (fst (fst (fst t))))) (settle_config r c)).
Qed.

Lemma settle_error r c :
  error (settle r c) =
  error c ++ match r with Yield _ => [] | Fail e => [e] end.
Proof. exact (f_equal (fun t => snd (fst (fst t))) (settle_config r c)). Qed.

Lemma settle_observable r c : observable (settle r c) = observable c.
Proof. exact (f_equal (fun t => snd (fst t)) (settle_config r c)). Qed.

(** [loaded] is set by an answer of the store, by nothing else, and is
    never cleared. *)
Lemma step_loaded c ev :
  loaded (step c ev) = loaded c || acknowledged c ev.
Proof.
  pose proof (kept_loaded _ _ (drain_kept c)) as Kd.
  destruct ev; cbn [step acknowledged]; rewrite ?orb_false_r;
    unfold get, isEmpty;
    try (apply kept_loaded;
         first [apply call_kept | apply call_refresh_kept
               | apply subscribe_get_stream_kept | apply drain_kept]);
    try reflexivity.
  - apply (config_fields _ _ (set_config d c)).
  - rewrite (kept_loaded _ _ (drain_kept _)).
    unfold storage_ready_ok; destruct (probe_is _ _); exact Kd.
  - rewrite (kept_loaded _ _ (drain_kept _)).
    unfold storage_ready_fail; destruct (probe_is _ _); exact Kd.
  - rewrite (kept_loaded _ _ (drain_kept _)).
    rewrite <- (probe_is_drain AwaitStorageGet c).
    unfold storage_get_ok. destruct (probe_is AwaitStorageGet (drain c)).
    + simpl. rewrite (kept_loaded _ _ (readyResolve_kept _)).
      rewrite orb_true_r; reflexivity.
    + rewrite orb_false_r; exact Kd.
  - rewrite (kept_loaded _ _ (drain_kept _)).
    unfold storage_get_fail; destruct (probe_is _ _); exact Kd.
  - rewrite (kept_loaded _ _ (drain_kept _)).
    unfold storage_set_ok. destruct (writes (drain c)).
    + rewrite orb_false_r; exact Kd.
    + rewrite orb_true_r; reflexivity.
  - rewrite (kept_loaded _ _ (drain_kept _)).
    unfold storage_set_fail; destruct (writes (drain c)); exact Kd.
  - rewrite (kept_loaded _ _ (drain_kept _)).
    unfold producer_settles. destruct (shared_subscribers (drain c)); [exact Kd|].
    rewrite settle_loaded. exact Kd.
Qed.


Lemma probe_is_true p c : probe_is p c = true -> probe c = p.
Proof. unfold probe_is; destruct p, (probe c); congruence. Qed.

Lemma step_error c ev : error (step c ev) = error c ++ emitted c ev.
Proof.
  pose proof (kept_error _ _ (drain_kept c)) as Kd.
  pose proof (kept_name _ _ (drain_kept c)) as Kn.
  destruct ev; cbn [step emitted]; rewrite ?app_nil_r;
    unfold get, isEmpty;
    try (apply kept_error;
         first [apply call_kept | apply call_refresh_kept
               | apply subscribe_get_stream_kept | apply drain_kept]);
    try reflexivity.
  - apply (config_fields _ _ (set_config d c)).
  - rewrite (kept_error _ _ (drain_kept _)).
    unfold storage_ready_ok; destruct (probe_is _ _); exact Kd.
  - rewrite (kept_error _ _ (drain_kept _)).
    rewrite <- (probe_is_drain AwaitStorageReady c).
    unfold storage_ready_fail.
    destruct (probe_is AwaitStorageReady (drain c)) eqn:Ep;
      [|rewrite app_nil_r; exact Kd].
    rewrite probe_is_drain in Ep. apply probe_is_true in Ep.
    unfold probe_failure_message; rewrite Ep. simpl. rewrite Kd; reflexivity.
  - rewrite (kept_error _ _ (drain_kept _)).
    unfold storage_get_ok. destruct (probe_is AwaitStorageGet (drain c));
      [|exact Kd].
    simpl. rewrite (kept_error _ _ (readyResolve_kept _)). simpl.
    destruct (defined d && (allowNull (drain c) || not_null d)); simpl;
      [|exact Kd].
    unfold data_next.
    rewrite (kept_error _ _ (fold_offer_kept d _ _)). exact Kd.
  - rewrite (kept_error _ _ (drain_kept _)).
    rewrite <- (probe_is_drain AwaitStorageGet c).
    unfold storage_get_fail.
    destruct (probe_is AwaitStorageGet (drain c)) eqn:Ep;
      [|rewrite app_nil_r; exact Kd].
    rewrite probe_is_drain in Ep. apply probe_is_true in Ep.
    unfold probe_failure_message; rewrite Ep. simpl. rewrite Kd, Kn; reflexivity.
  - rewrite (kept_error _ _ (drain_kept _)).
    unfold storage_set_ok; destruct (writes (drain c)); exact Kd.
  - rewrite (kept_error _ _ (drain_kept _)).
    unfold storage_set_fail; destruct (writes (drain c)); exact Kd.
  - rewrite (kept_error _ _ (drain_kept _)).
    unfold producer_settles.
    destruct (shared_subscribers (drain c)).
    + destruct r; rewrite ?app_nil_r; exact Kd.
    + rewrite settle_error, Kd. destruct r; reflexivity.
Qed.

(** X1.  The error subject emits the message of a failed probe and the failure
    of a producer whose refresh is running, and nothing else: no call, no
    answer of the store to a write, no value of a producer adds to it. *)
Theorem errors_emitted c ev : error (step c ev) = error c ++ emitted c ev.
Proof. exact (step_error c ev). Qed.

(** ** The gate in the reachable states *)

Lemma attach_data i c : data (attach i c) = data c.
Proof.
  unfold attach, refresh, subscribe_refresh.
  destruct (refreshObservable c) as [sh|] eqn:E; simpl; rewrite ?E; simpl;
    [destruct (subscribers sh)|]; reflexivity.
Qed.

Lemma attach_writes i c : writes (attach i c) = writes c.
Proof.
  unfold attach, refresh, subscribe_refresh.
  destruct (refreshObservable c) as [sh|] eqn:E; simpl; rewrite ?E; simpl;
    [destruct (subscribers sh)|]; reflexivity.
Qed.

Lemma ready_then_still k c :
  data (ready_then k c) = data c /\ writes (ready_then k c) = writes c.
Proof. unfold ready_then; destruct (readyResolved c); split; reflexivity. Qed.

Lemma set_data d c :
  data (set d c) = {| value := d; observers := observers (data c) |}.
Proof.
  rewrite set_recorded. destruct (useLocalStorage c); [|reflexivity].
  rewrite (proj1 (ready_then_still _ _)). reflexivity.
Qed.

Lemma set_writes d c : writes (set d c) = writes c.
Proof.
  rewrite set_recorded. destruct (useLocalStorage c); [|reflexivity].
  rewrite (proj2 (ready_then_still _ _)). reflexivity.
Qed.

Lemma set_microtasks d c :
  microtasks (set d c) =
  microtasks c ++
  (if useLocalStorage c && readyResolved c then [RPersist d] else []).
Proof.
  rewrite set_recorded. destruct (useLocalStorage c); simpl;
    [|rewrite app_nil_r; reflexivity].
  unfold ready_then; simpl. destruct (readyResolved c); simpl;
    rewrite ?app_nil_r; reflexivity.
Qed.

Lemma settle_observers r c :
  observers (data (settle r c)) = observers (data c).
Proof.
  destruct r as [v|e]; unfold settle; rewrite ?notify_all_closed, ?notify_error_closed; simpl;
    [|reflexivity].
  rewrite set_data; reflexivity.
Qed.

Lemma settle_writes r c : writes (settle r c) = writes c.
Proof.
  destruct r as [v|e]; unfold settle; rewrite ?notify_all_closed, ?notify_error_closed; simpl;
    [|reflexivity].
  rewrite set_writes; reflexivity.
Qed.

Lemma settle_empty r c :
  empty (settle r c) = match r with Yield _ => Some false | Fail _ => empty c end.
Proof.
  destruct r as [v|e]; unfold settle; rewrite ?notify_all_closed, ?notify_error_closed; simpl;
    [|reflexivity].
  exact (f_equal fst (set_memory v (with_settled (S (settled c)) c))).
Qed.

Lemma kept_empty c c' : kept c' = kept c -> empty c' = empty c.
Proof. intros K; apply (kept_fields _ _ K). Qed.

(** The flag changes by [set], by the value of a producer and by the answer
    of the store only, and only the answer of the store sets it. *)
Lemma empty_step c ev :
  empty (step c ev) = empty c \/ empty (step c ev) = Some false \/
  (opens_gate c ev = true /\ empty (step c ev) = Some true).
Proof.
  pose proof (kept_empty _ _ (drain_kept c)) as Kd.
  destruct ev; cbn [step opens_gate];
    unfold get, isEmpty;
    try (left; apply kept_empty;
         first [apply call_kept | apply call_refresh_kept
               | apply subscribe_get_stream_kept | apply drain_kept]);
    try (left; reflexivity).
  - right; left. exact (f_equal fst (set_memory d c)).
  - left. rewrite (kept_empty _ _ (drain_kept _)).
    unfold storage_ready_ok; destruct (probe_is _ _); exact Kd.
  - left. rewrite (kept_empty _ _ (drain_kept _)).
    unfold storage_ready_fail; destruct (probe_is _ _); exact Kd.
  - rewrite (kept_empty _ _ (drain_kept _)).
    rewrite <- (probe_is_drain AwaitStorageGet c).
    unfold storage_get_ok. destruct (probe_is AwaitStorageGet (drain c));
      [|left; exact Kd].
    simpl. rewrite (kept_empty _ _ (readyResolve_kept _)). simpl.
    destruct (defined d && (allowNull (drain c) || not_null d)); simpl; auto.
  - left. rewrite (kept_empty _ _ (drain_kept _)).
    unfold storage_get_fail; destruct (probe_is _ _); exact Kd.
  - left. rewrite (kept_empty _ _ (drain_kept _)).
    unfold storage_set_ok; destruct (writes (drain c)); exact Kd.
  - left. rewrite (kept_empty _ _ (drain_kept _)).
    unfold storage_set_fail; destruct (writes (drain c)); exact Kd.
  - rewrite (kept_empty _ _ (drain_kept _)).
    unfold producer_settles.
    destruct (shared_subscribers (drain c)); [left; exact Kd|].
    rewrite settle_empty. destruct r; [right; left; reflexivity | left; exact Kd].
Qed.

Lemma ready_then_isScalar k c : isScalar (ready_then k c) = isScalar c.
Proof. unfold ready_then; destruct (readyResolved c); reflexivity. Qed.

Lemma attach_isScalar i c : isScalar (attach i c) = isScalar c.
Proof.
  unfold attach, refresh, subscribe_refresh.
  destruct (refreshObservable c) as [sh|] eqn:E; simpl; rewrite ?E; simpl;
    [destruct (subscribers sh)|]; reflexivity.
Qed.

Lemma set_isScalar d c : isScalar (set d c) = isScalar c.
Proof.
  rewrite set_recorded. destruct (useLocalStorage c); [|reflexivity].
  rewrite ready_then_isScalar; reflexivity.
Qed.

Lemma settle_isScalar r c : isScalar (settle r c) = isScalar c.
Proof.
  destruct r as [v|e]; unfold settle;
    rewrite ?notify_all_closed, ?notify_error_closed; simpl; [|reflexivity].
  rewrite set_isScalar; reflexivity.
Qed.

(** While the gate is shut, with nothing queued, no write issued and the
    promise observable of [get$] not fired, an event that does not open the
    gate queues nothing, issues no write, attaches no subscriber of [get$]
    and does not fire the promise observable. *)
Lemma shut_step c ev :
  readyResolved c = false -> microtasks c = [] -> writes c = [] ->
  isScalar c = false ->
  opens_gate c ev = false ->
  microtasks (step c ev) = [] /\ writes (step c ev) = [] /\
  observers (data (step c ev)) = observers (data c) /\
  isScalar (step c ev) = false.
Proof.
  intros Hr Hm Hw Hs Ho.
  assert (Hd : drain c = c) by (apply drain_nothing, Hm).
  assert (Hcall : forall k,
            let c' := ready_then k (with_nextSub (S (nextSub c)) c) in
            microtasks c' = [] /\ writes c' = [] /\
            observers (data c') = observers (data c) /\
            isScalar c' = false).
  { intros k; unfold ready_then; simpl; rewrite Hr; simpl. auto. }
  assert (Hplain : forall h : Cache T -> Cache T,
            microtasks (h c) = [] -> writes (h c) = [] ->
            observers (data (h c)) = observers (data c) ->
            isScalar (h c) = false ->
            microtasks (drain (h (drain c))) = [] /\
            writes (drain (h (drain c))) = [] /\
            observers (data (drain (h (drain c)))) = observers (data c) /\
            isScalar (drain (h (drain c))) = false).
  { intros h H1 H2 H3 H4. rewrite Hd, (drain_nothing (h c) H1). auto. }
  destruct ev; cbn [step opens_gate] in *;
    unfold get, isEmpty; try apply Hcall.
  - unfold call_refresh.
    rewrite attach_data, attach_writes, attach_isScalar.
    pose proof (f_equal snd (attach_gate (nextSub c)
                  (with_nextSub (S (nextSub c)) c))) as E.
    simpl in E. rewrite E. auto.
  - rewrite set_microtasks, set_writes, set_data, set_isScalar, Hr, Hm,
      andb_false_r. auto.
  - auto.
  - unfold subscribe_get_stream; rewrite Hs. apply Hcall.
  - auto.
  - auto.
  - rewrite Hd. auto.
  - apply Hplain; unfold storage_ready_ok; destruct (probe_is _ _); auto.
  - apply Hplain; unfold storage_ready_fail; destruct (probe_is _ _); auto.
  - apply Hplain; unfold storage_get_ok; rewrite Ho; auto.
  - apply Hplain; unfold storage_get_fail; destruct (probe_is _ _); auto.
  - apply Hplain; unfold storage_set_ok; rewrite Hw; auto.
  - apply Hplain; unfold storage_set_fail; rewrite Hw; auto.
  - apply Hplain; unfold producer_settles;
      destruct (shared_subscribers c); auto.
    + rewrite settle_microtasks, Hm, Hr. destruct r; simpl;
        rewrite ?andb_false_r; reflexivity.
    + rewrite settle_writes; exact Hw.
    + apply settle_observers.
    + rewrite settle_isScalar; exact Hs.
Qed.

Lemma kept_memory c c' : kept c' = kept c -> memory c' = memory c.
Proof. intros K; exact (f_equal snd K). Qed.

Lemma accepted_drain c d : accepted (drain c) d = accepted c d.
Proof.
  destruct (kept_fields _ _ (drain_kept c)) as (_ & _ & _ & E & _).
  unfold accepted; rewrite E; reflexivity.
Qed.

(** What the answer of the store to the probe leaves in memory. *)
Lemma store_answer_memory c d :
  probe_is AwaitStorageGet c = true ->
  memory (step c (StorageGetOk d)) =
  if accepted c d then (Some false, d) else (Some true, value (data c)).
Proof.
  intros Ho. cbn [step]. rewrite (kept_memory _ _ (drain_kept _)).
  unfold storage_get_ok. rewrite probe_is_drain, Ho.
  fold (accepted (drain c) d). rewrite accepted_drain.
  match goal with
  | |- memory (with_probe _ (readyResolve ?x)) = _ =>
      change (memory (readyResolve x) = if accepted c d
                then (Some false, d) else (Some true, value (data c)));
      rewrite (kept_memory _ _ (readyResolve_kept x))
  end.
  destruct (accepted c d); unfold memory; simpl.
  - rewrite data_next_value; reflexivity.
  - destruct (kept_fields _ _ (drain_kept c))
      as (_ & _ & _ & _ & _ & _ & _ & ->). reflexivity.
Qed.

Lemma new_Cache_gate_inv (nm : string) (p : Producer) :
  gate_inv (new_Cache nm p : Cache T).
Proof.
  unfold gate_inv; simpl. split; [reflexivity|].
  split; [discriminate|]. intros _; repeat split; discriminate.
Qed.

Lemma step_gate_inv c ev :
  gate_inv c -> (readyResolved c = false -> isScalar c = false) ->
  gate_inv (step c ev) /\
  (readyResolved (step c ev) = false -> isScalar (step c ev) = false).
Proof.
  intros (Hl & Hopen & Hshut) Hsc.
  pose proof (step_readyResolved c ev) as Eg.
  pose proof (step_loaded c ev) as El.
  pose proof (empty_step c ev) as Ee.
  destruct (readyResolved c) eqn:Hr.
  - (* the gate is open *)
    destruct (Hopen eq_refl) as (Hp & Hne).
    simpl in Eg. rewrite Hl in El; simpl in El.
    pose proof (f_equal fst (step_latch c ev Hp)) as Ep. simpl in Ep.
    split; [|congruence].
    split; [congruence|]. split; [|congruence].
    intros _. split; [congruence|].
    destruct Ee as [-> | [-> | [_ ->]]]; [exact Hne | discriminate | discriminate].
  - (* the gate is shut *)
    destruct (Hshut eq_refl) as (Hm & Hw & Hobs & Hne).
    simpl in Eg.
    destruct (opens_gate c ev) eqn:Ho.
    + (* the store answers the probe *)
      destruct ev; try discriminate. cbn [opens_gate] in Ho.
      cbn [acknowledged] in El. rewrite Ho, orb_true_r in El.
      split; [|congruence].
      split; [congruence|]. split; [|congruence].
      intros _. split.
      * cbn [step].
        destruct (kept_fields _ _ (drain_kept (storage_get_ok d (drain c))))
          as (_ & -> & _).
        unfold storage_get_ok. rewrite probe_is_drain, Ho. reflexivity.
      * assert (E : empty (step c (StorageGetOk d)) =
                    fst (if accepted c d then (Some false, d)
                         else (Some true, value (data c))))
          by exact (f_equal fst (store_answer_memory c d Ho)).
        rewrite E. destruct (accepted c d); discriminate.
    + destruct (shut_step c ev Hr Hm Hw (Hsc eq_refl) Ho)
        as (Hm' & Hw' & Hobs' & Hs').
      assert (Ha : acknowledged c ev = false).
      { destruct ev; try reflexivity; cbn [acknowledged opens_gate] in *;
          [exact Ho|]. rewrite (drain_nothing c Hm), Hw. reflexivity. }
      rewrite Ha, Hl in El. simpl in El.
      split; [|intros _; exact Hs'].
      split; [congruence|]. split; [intros E; congruence|].
      intros _. split; [exact Hm'|]. split; [exact Hw'|].
      split; [congruence|].
      destruct Ee as [-> | [-> | [E _]]]; [exact Hne | discriminate | congruence].
Qed.

Lemma reachable_gate_scalar nm p (evs : list (Event T)) :
  let c := run (new_Cache nm p) evs in
  gate_inv c /\ (readyResolved c = false -> isScalar c = false).
Proof.
  assert (H : forall evs' c,
            gate_inv c -> (readyResolved c = false -> isScalar c = false) ->
            gate_inv (run c evs') /\
            (readyResolved (run c evs') = false ->
             isScalar (run c evs') = false)).
  { induction evs' as [|ev evs' IH]; simpl; intros c Hc Hs; auto.
    destruct (step_gate_inv c ev Hc Hs) as [Hc' Hs']. apply IH; assumption. }
  exact (H evs _ (new_Cache_gate_inv nm p) (fun _ => eq_refl)).
Qed.

Lemma reachable_gate_inv nm p (evs : list (Event T)) :
  gate_inv (run (new_Cache nm p) evs).
Proof. exact (proj1 (reachable_gate_scalar nm p evs)). Qed.

(** While the gate is shut the promise observable at the head of [get$]
    has not fired. *)
Lemma reachable_shut_scalar nm p (evs : list (Event T)) :
  readyResolved (run (new_Cache nm p) evs) = false ->
  isScalar (run (new_Cache nm p) evs) = false.
Proof. exact (proj2 (reachable_gate_scalar nm p evs)). Qed.

(** X2.  In every state the entity can reach, [loaded] is true exactly when the
    gate is open.  Once the gate is open the probe has settled and the flag
    is assigned.  While it is shut no reaction parked behind it has run or
    is queued: no subscriber of [get$] is attached to the subject, no write
    has been issued to the store, and the flag is not set. *)
Theorem gate_invariant nm p (evs : list (Event T)) :
  let c := run (new_Cache nm p) evs in
  loaded c = readyResolved c /\
  (readyResolved c = true ->
   probe c = ProbeSettled /\ empty c <> None) /\
  (readyResolved c = false ->
   microtasks c = [] /\ writes c = [] /\ observers (data c) = [] /\
   empty c <> Some true).
Proof. exact (reachable_gate_inv nm p evs). Qed.

(** ** The answer of the store to the probe *)

Lemma run_snoc c (evs : list (Event T)) ev :
  run c (evs ++ [ev]) = step (run c evs) ev.
Proof. unfold run. rewrite fold_left_app. reflexivity. Qed.

Lemma probe_is_of p c : probe c = p -> probe_is p c = true.
Proof. intros <-. unfold probe_is. destruct (probe c); reflexivity. Qed.


Lemma store_answer_opens c d :
  probe c = AwaitStorageGet -> readyResolved (step c (StorageGetOk d)) = true.
Proof.
  intros Hp. rewrite step_readyResolved. cbn [opens_gate].
  rewrite (probe_is_of _ _ Hp). apply orb_true_r.
Qed.

(** X3.  The entity is ready exactly when the store has answered the read of the
    probe: the constructor never opens the gate itself, and assigning
    [useLocalStorage] afterwards, a failure of the store, a call of [set] or
    a settlement of the producer do not open it either. *)
Theorem ready_iff_store_answered nm p (evs : list (Event T)) :
  readyResolved (run (new_Cache nm p) evs) = true <->
  exists evs1 d evs2,
    evs = evs1 ++ StorageGetOk d :: evs2 /\
    probe (run (new_Cache nm p) evs1) = AwaitStorageGet.
Proof.
  split.
  - induction evs as [|ev evs IH] using rev_ind.
    + discriminate.
    + rewrite run_snoc, step_readyResolved.
      destruct (readyResolved (run (new_Cache nm p) evs)) eqn:Hr.
      * intros _. destruct (IH eq_refl) as (evs1 & d & evs2 & -> & Hp).
        exists evs1, d, (evs2 ++ [ev]). split; [|exact Hp].
        rewrite <- app_assoc. reflexivity.
      * cbn [orb]. intros Ho. destruct ev; try discriminate Ho.
        exists evs, d, []. split; [reflexivity|].
        apply probe_is_true, Ho.
  - intros (evs1 & d & evs2 & -> & Hp).
    rewrite run_app. cbn [run fold_left].
    change (fold_left step evs2 ?x) with (run x evs2).
    apply run_ready_mono, store_answer_opens, Hp.
Qed.




(** ** The producer yields a value *)

Lemma settle_memory v c : memory (settle (Yield v) c) = (Some false, v).
Proof.
  unfold settle; rewrite ?notify_all_closed, ?notify_error_closed.
  exact (set_memory v (with_settled (S (settled c)) c)).
Qed.

Lemma settle_readyReactions v c :
  readyReactions (settle (Yield v) c) =
  readyReactions c ++
  (if useLocalStorage c && negb (readyResolved c) then [RPersist v] else []).
Proof.
  unfold settle. rewrite ?notify_all_closed, ?notify_error_closed, set_recorded; simpl.
  destruct (useLocalStorage c); unfold ready_then; simpl;
    [destruct (readyResolved c)|]; simpl; rewrite ?app_nil_r; reflexivity.
Qed.

Lemma drain_one k c :
  microtasks c = [k] -> drain c = run_reaction (with_microtasks [] c) k.
Proof. intros H. unfold drain. rewrite H. reflexivity. Qed.

Lemma settles_alone r c :
  microtasks c = [] -> shared_subscribers c <> [] ->
  step c (ProducerSettles r) = drain (settle r c).
Proof.
  intros Hm Hrun. cbn [step]. rewrite (drain_nothing c Hm).
  rewrite producer_settles_running by exact Hrun. reflexivity.
Qed.

(** X5.  The producer of the running refresh yields [v] (lines 185-190,
    201-210), in a task of its own.  The entity holds [v] and is not empty,
    nothing is emitted on the error subject, the slot is free again and no
    producer subscription is outstanding.  Every subscriber of [get$] is
    handed [v], then every observer of the refresh is handed [v], then every
    one of them the completion.  The write of [v] to the store is issued in
    the same task when the entity uses the store and the gate is open; when
    the gate is shut it waits behind it. *)
Theorem producer_success_contract nm p (evs : list (Event T)) v :
  let c := run (new_Cache nm p) evs in
  shared_subscribers c <> [] -> microtasks c = [] ->
  let c1 := step c (ProducerSettles (Yield v)) in
  memory c1 = (Some false, v) /\
  error c1 = error c /\
  refreshObservable c1 = None /\
  invoked c1 = invoked c /\
  outstanding c1 = 0 /\
  delivered c1 =
    delivered c ++
    map (fun i => (Stream i, Next v)) (observers (data c)) ++
    map (fun i => (Caller i, Next v)) (shared_subscribers c) ++
    map (fun i => (Caller i, Complete)) (shared_subscribers c) /\
  writes c1 =
    writes c ++ (if useLocalStorage c && readyResolved c then [v] else []) /\
  readyReactions c1 =
    readyReactions c ++
    (if useLocalStorage c && negb (readyResolved c) then [RPersist v] else []).
Proof.
  intros c Hrun Hm c1.
  pose proof (reachable_WF nm p evs) as Hwf. fold c in Hwf.
  assert (E1 : c1 = drain (settle (Yield v) c))
    by (apply settles_alone; assumption).
  assert (Hc : coord c1 = coord (settle (Yield v) c))
    by (rewrite E1; apply drain_settle_coord, Hm).
  assert (Hslot : refreshObservable c1 = None).
  { assert (E : refreshObservable c1 = refreshObservable (settle (Yield v) c))
      by exact (f_equal (fun x => fst (fst (fst x))) Hc).
    rewrite E; apply settle_slot. }
  split.
  { rewrite E1, (kept_memory _ _ (drain_kept _)). apply settle_memory. }
  split.
  { unfold c1. rewrite step_error. cbn [emitted]. apply app_nil_r. }
  split; [exact Hslot|]. split.
  { assert (E : invoked c1 = invoked (settle (Yield v) c))
      by exact (f_equal (fun x => snd (fst (fst x))) Hc).
    rewrite E. apply settle_invoked. }
  split.
  { apply WF_idle_outstanding; [apply step_WF, Hwf | exact Hslot]. }
  split.
  { rewrite E1, (drain_settle_delivered _ _ Hm).
    apply (settle_delivered (Yield v) c). }
  split.
  - pose proof (settle_microtasks (Yield v) c) as Hq.
    rewrite Hm in Hq. cbn [app] in Hq. rewrite E1.
    destruct (useLocalStorage c && readyResolved c).
    + rewrite (drain_one _ _ Hq). cbn [run_reaction writes with_writes].
      cbn [with_microtasks writes]. rewrite settle_writes. reflexivity.
    + rewrite (drain_nothing _ Hq), app_nil_r. apply settle_writes.
  - rewrite E1, drain_readyReactions. apply settle_readyReactions.
Qed.

(** ** Binding another producer *)

Lemma settles_frees c r :
  WF c -> shared_subscribers c <> [] ->
  let c1 := step c (ProducerSettles r) in
  refreshObservable c1 = None /\ invoked c1 = invoked c /\
  observable c1 = observable c.
Proof.
  intros Hwf Hrun c1.
  set (c0 := drain c).
  assert (Hrun0 : shared_subscribers c0 <> [])
    by (apply drain_keeps_running, Hrun).
  assert (Hm0 : microtasks c0 = []) by apply drain_microtasks.
  assert (E1 : c1 = drain (settle r c0)).
  { unfold c1. cbn [step]. fold c0.
    rewrite producer_settles_running by exact Hrun0. reflexivity. }
  assert (Hc : coord c1 = coord (settle r c0))
    by (rewrite E1; apply drain_settle_coord, Hm0).
  split; [|split].
  - assert (E : refreshObservable c1 = refreshObservable (settle r c0))
      by exact (f_equal (fun x => fst (fst (fst x))) Hc).
    rewrite E; apply settle_slot.
  - assert (E : invoked c1 = invoked (settle r c0))
      by exact (f_equal (fun x => snd (fst (fst x))) Hc).
    rewrite E, settle_invoked. apply drain_running_invoked; assumption.
  - rewrite E1.
    destruct (kept_fields _ _ (drain_kept (settle r c0)))
      as (_ & _ & _ & _ & _ & -> & _).
    rewrite settle_observable.
    destruct (kept_fields _ _ (drain_kept c)) as (_ & _ & _ & _ & _ & E & _).
    exact E.
Qed.

Lemma call_refresh_invoked c :
  WF c ->
  invoked (step c CallRefresh) =
  invoked c ++ (if idle c then [observable c] else []).
Proof.
  intros (Hs & _). cbn [step]. unfold call_refresh.
  exact (attach_invoked (nextSub c) (with_nextSub (S (nextSub c)) c) Hs).
Qed.

(** X6.  [setObservable] binds the producer the next refresh will subscribe and
    touches nothing else: what the entity holds and the refresh that is
    running, if there is one, are as before.  A refresh requested while that
    one runs joins it and subscribes no producer; the new producer is
    subscribed by the first refresh requested once the slot is free. *)
Theorem rebinding_contract nm p (evs : list (Event T)) p' :
  let c := run (new_Cache nm p) evs in
  let c1 := step c (CallSetObservable p') in
  observable c1 = p' /\
  coord c1 = coord c /\
  memory c1 = memory c /\
  delivered c1 = delivered c /\
  invoked (step c1 CallRefresh) =
    invoked c ++ (if idle c then [p'] else []) /\
  (shared_subscribers c <> [] -> forall r,
     invoked (run c1 [ProducerSettles r; CallRefresh]) = invoked c ++ [p']).
Proof.
  intros c c1.
  pose proof (reachable_WF nm p evs) as Hwf. fold c in Hwf.
  assert (Hwf1 : WF c1) by (apply step_WF, Hwf).
  split; [reflexivity|]. split; [reflexivity|]. split; [reflexivity|].
  split; [reflexivity|]. split.
  - rewrite (call_refresh_invoked c1 Hwf1). reflexivity.
  - intros Hrun r. cbn [run fold_left].
    destruct (settles_frees c1 r Hwf1 Hrun) as (Hslot & Hinv & Hobs).
    rewrite call_refresh_invoked by (apply step_WF, Hwf1).
    unfold idle. rewrite Hslot, Hinv, Hobs. reflexivity.
Qed.

(** ** The log and the subscribers of [get$] in the reachable states *)

Lemma tidy_ext c c' q : surface c' = surface c -> tidy c q -> tidy c' q.
Proof.
  unfold surface, tidy. intros E. injection E as -> -> -> ->. auto.
Qed.

Lemma entry_ok_le b b' (x : Sub * Notification T) :
  b <= b' -> entry_ok b x -> entry_ok b' x.
Proof. unfold entry_ok. intros H [H1 H2]. split; [lia | exact H2]. Qed.

Lemma reaction_ok_le b b' k : b <= b' -> reaction_ok b k -> reaction_ok b' k.
Proof. destruct k; simpl; intros; auto; lia. Qed.

Lemma tidy_grow c c' q :
  delivered c' = delivered c ->
  shared_subscribers c' = shared_subscribers c ->
  observers (data c') = observers (data c) ->
  nextSub c <= nextSub c' ->
  tidy c q -> tidy c' q.
Proof.
  unfold tidy. intros -> -> -> Hle (H1 & H2 & H3 & H4 & H5).
  split; [|split; [|split; [|split]]].
  - revert H1; apply Forall_impl. intros x; apply entry_ok_le, Hle.
  - revert H2; apply Forall_impl. intros x; apply reaction_ok_le, Hle.
  - revert H3; apply Forall_impl. intros; lia.
  - revert H4; apply Forall_impl. intros; lia.
  - exact H5.
Qed.

Lemma deliver_tidy s n c q :
  sub_id s < nextSub c -> fits s n = true ->
  tidy c q -> tidy (deliver s n c) q.
Proof.
  intros Hs Hf (H1 & H2 & H3 & H4 & H5).
  split; [|split; [|split; [|split]]]; try assumption.
  cbn. apply Forall_app; split; [exact H1|].
  constructor; [split; assumption | constructor].
Qed.

Lemma attach_tidy i c q : i < nextSub c -> tidy c q -> tidy (attach i c) q.
Proof.
  intros Hi (H1 & H2 & H3 & H4 & H5). unfold tidy.
  rewrite attach_delivered, attach_nextSub, attach_subscribers, attach_data.
  split; [|split; [|split; [|split]]]; try assumption.
  apply Forall_app; split; [exact H3|]. constructor; [exact Hi | constructor].
Qed.

Lemma get_filter_tidy c q :
  tidy c q ->
  tidy (fst (get_filter c)) q /\ nextSub c <= nextSub (fst (get_filter c)).
Proof.
  intros H. unfold get_filter. destruct (truthy (empty c)); cbn [fst].
  - split.
    + apply (tidy_ext (attach (nextSub c) (with_nextSub (S (nextSub c)) c)));
        [reflexivity|].
      apply attach_tidy; [cbn; lia|].
      revert H; apply tidy_grow; try reflexivity. cbn; lia.
    + change (nextSub (with_bare _ ?x)) with (nextSub x).
      rewrite attach_nextSub; cbn; lia.
  - split; [exact H | lia].
Qed.

Lemma offer_tidy d c i q :
  i < nextSub c -> tidy c q ->
  tidy (offer d c i) q /\ nextSub c <= nextSub (offer d c i).
Proof.
  intros Hi H. destruct (get_filter_tidy c q H) as [H1 H2].
  destruct (offer_fst d c i) as [-> | ->].
  - split; assumption.
  - split; [|exact H2].
    apply deliver_tidy; [cbn; lia | reflexivity | exact H1].
Qed.

Lemma fold_offer_tidy d q obs : forall c,
  Forall (fun i => i < nextSub c) obs -> tidy c q ->
  tidy (fold_left (offer d) obs c) q /\
  nextSub c <= nextSub (fold_left (offer d) obs c).
Proof.
  induction obs as [|i obs IH]; intros c Hb H; cbn [fold_left].
  - split; [exact H | lia].
  - inversion Hb as [|? ? Hi Hb']; subst.
    destruct (offer_tidy d c i q Hi H) as [H1 Hle].
    destruct (IH (offer d c i)) as [H2 Hle']; [|exact H1|].
    + revert Hb'; apply Forall_impl; intros; lia.
    + split; [exact H2 | lia].
Qed.

Lemma data_next_tidy d c q : tidy c q -> tidy (data_next d c) q.
Proof.
  intros H. unfold data_next. apply fold_offer_tidy.
  - apply H.
  - revert H; apply tidy_ext; reflexivity.
Qed.

Lemma streams_of_app q1 q2 :
  streams_of (q1 ++ q2) = streams_of q1 ++ streams_of q2.
Proof. apply flat_map_app. Qed.

Lemma streams_bound b q :
  Forall (reaction_ok b) q -> Forall (fun i => i < b) (streams_of q).
Proof.
  induction 1 as [|k q Hk _ IH]; simpl; [constructor|].
  destruct k; simpl; auto.
Qed.

Lemma tidy_snoc c q k :
  reaction_ok (nextSub c) k ->
  (forall i, k = RStream i -> ~ In i (observers (data c) ++ streams_of q)) ->
  tidy c q -> tidy c (q ++ [k]).
Proof.
  intros Hk Hfresh (H1 & H2 & H3 & H4 & H5).
  split; [|split; [|split; [|split]]]; try assumption.
  - apply Forall_app; split; [exact H2|]. constructor; [exact Hk | constructor].
  - rewrite streams_of_app. simpl. rewrite app_nil_r.
    destruct k; simpl; rewrite ?app_nil_r; try exact H5.
    rewrite app_assoc.
    rewrite <- (app_nil_r ((_ ++ _) ++ [_])), <- app_assoc.
    apply nodup_insert; rewrite app_nil_r; [exact H5|].
    apply Hfresh; reflexivity.
Qed.

Lemma tidy_bump c q : tidy c q -> tidy (with_nextSub (S (nextSub c)) c) q.
Proof. apply tidy_grow; try reflexivity. cbn; lia. Qed.

Lemma ready_then_Tidy k c :
  gate_ok c -> tidy c ((microtasks c ++ readyReactions c) ++ [k]) ->
  Tidy (ready_then k c).
Proof.
  intros Hg H. unfold Tidy. rewrite ready_then_queue by exact Hg.
  revert H; apply tidy_ext.
  unfold ready_then; destruct (readyResolved c); reflexivity.
Qed.

(** A call that allocates a subscription and registers a reaction for it. *)
Lemma call_Tidy k c :
  gate_ok c -> Tidy c ->
  (k = RGet (nextSub c) \/ k = RStream (nextSub c) \/ k = RIsEmpty (nextSub c)) ->
  Tidy (ready_then k (with_nextSub (S (nextSub c)) c)).
Proof.
  intros Hg H Hk. apply ready_then_Tidy; [exact Hg|].
  apply tidy_snoc.
  - destruct Hk as [-> | [-> | ->]]; cbn; lia.
  - intros i Ei. assert (i = nextSub c) as ->.
    { destruct Hk as [-> | [-> | ->]]; try discriminate Ei.
      injection Ei as <-; reflexivity. }
    destruct H as (_ & H2 & _ & H4 & _).
    apply fresh_not_in. apply Forall_app; split; [exact H4|].
    apply streams_bound, H2.
  - apply tidy_bump, H.
Qed.

Lemma set_Tidy d c : gate_ok c -> Tidy c -> Tidy (set d c).
Proof.
  intros Hg H. rewrite set_recorded.
  assert (Hrec : tidy (recorded d c) (microtasks c ++ readyReactions c)).
  { destruct H as (H1 & H2 & H3 & H4 & H5).
    split; [|split; [|split; [|split]]]; try assumption.
    cbn. apply Forall_app; split; [exact H1|].
    apply Forall_forall. intros x Hx. apply in_map_iff in Hx as (i & <- & Hi).
    rewrite Forall_forall in H4. split; [exact (H4 i Hi) | reflexivity]. }
  destruct (useLocalStorage c); [|exact Hrec].
  apply ready_then_Tidy; [exact Hg|].
  apply tidy_snoc; [exact I | discriminate | exact Hrec].
Qed.

Lemma tidy_tail c k q : tidy c (k :: q) -> tidy c q.
Proof.
  intros (H1 & H2 & H3 & H4 & H5).
  split; [|split; [|split; [|split]]]; try assumption.
  - inversion H2; assumption.
  - destruct k; simpl in H5; try exact H5.
    apply NoDup_remove_1 in H5; exact H5.
Qed.

Lemma run_reaction_tidy c k q : tidy c (k :: q) -> tidy (run_reaction c k) q.
Proof.
  intros H. pose proof (tidy_tail c k q H) as Ht.
  assert (Hk : reaction_ok (nextSub c) k).
  { destruct H as (_ & H2 & _). inversion H2; assumption. }
  destruct k as [i|i|i|d]; cbn [run_reaction].
  - destruct (truthy (empty c)).
    + apply attach_tidy; assumption.
    + apply deliver_tidy; [exact Hk | reflexivity|].
      apply deliver_tidy; [exact Hk | reflexivity | exact Ht].
  - match goal with |- tidy (with_isScalar _ ?x) _ =>
      apply (tidy_ext x); [reflexivity|] end.
    apply offer_tidy; [exact Hk|].
    destruct H as (H1 & H2 & H3 & H4 & H5).
    split; [|split; [|split; [|split]]]; try assumption.
    + inversion H2; assumption.
    + cbn. apply Forall_app; split; [exact H4|].
      constructor; [exact Hk | constructor].
    + cbn. rewrite <- app_assoc. exact H5.
  - apply deliver_tidy; [exact Hk | reflexivity | exact Ht].
  - revert Ht; apply tidy_ext; reflexivity.
Qed.

Lemma fold_reaction_tidy q q' : forall c,
  tidy c (q ++ q') -> tidy (fold_left run_reaction q c) q'.
Proof.
  induction q as [|k q IH]; intros c H; cbn [fold_left]; [exact H|].
  apply IH, run_reaction_tidy, H.
Qed.

Lemma drain_Tidy c : Tidy c -> Tidy (drain c).
Proof.
  intros H. unfold Tidy.
  rewrite drain_microtasks, drain_readyReactions. cbn [app].
  unfold drain. apply fold_reaction_tidy.
  revert H; apply tidy_ext; reflexivity.
Qed.

Lemma frame_Tidy c c' :
  surface c' = surface c -> microtasks c' = microtasks c ->
  readyReactions c' = readyReactions c -> Tidy c -> Tidy c'.
Proof.
  unfold Tidy. intros E -> ->. apply tidy_ext, E.
Qed.

Lemma readyResolve_Tidy c : Tidy c -> Tidy (readyResolve c).
Proof.
  intros H. unfold readyResolve. destruct (readyResolved c); [exact H|].
  unfold Tidy. cbn. rewrite app_nil_r.
  revert H; apply tidy_ext; reflexivity.
Qed.

Lemma storage_get_ok_Tidy d c : Tidy c -> Tidy (storage_get_ok d c).
Proof.
  intros H. unfold storage_get_ok. destruct (probe_is _ _); [|exact H].
  match goal with |- Tidy (with_probe _ (readyResolve (with_loaded _ ?x))) =>
    assert (Hx : Tidy x) end.
  { destruct (defined d && (allowNull c || not_null d)).
    - pose proof (data_next_gate d c) as Eg. unfold gate in Eg.
      assert (Em : microtasks (data_next d c) = microtasks c)
        by exact (f_equal snd Eg).
      assert (Er : readyReactions (data_next d c) = readyReactions c)
        by exact (f_equal (fun t => snd (fst t)) Eg).
      pose proof (data_next_tidy d c _ H) as Hd.
      unfold Tidy. cbn. rewrite Em, Er.
      revert Hd; apply tidy_ext; reflexivity.
    - revert H; apply frame_Tidy; reflexivity. }
  match goal with |- Tidy (with_probe _ ?y) =>
    apply (frame_Tidy y); try reflexivity end.
  apply readyResolve_Tidy. revert Hx; apply frame_Tidy; reflexivity.
Qed.

Lemma notify_all_Tidy n c :
  fits (Caller 0) n = true -> Tidy c -> Tidy (notify_all n c).
Proof.
  intros Hf (H1 & H2 & H3 & H4 & H5). rewrite ?notify_all_closed, ?notify_error_closed.
  split; [|split; [|split; [|split]]]; try assumption.
  cbn. apply Forall_app; split; [exact H1|].
  apply Forall_forall. intros x Hx. apply in_map_iff in Hx as (i & <- & Hi).
  rewrite Forall_forall in H3. split; [exact (H3 i Hi) | exact Hf].
Qed.

Lemma notify_error_Tidy e c : Tidy c -> Tidy (notify_error e c).
Proof.
  intros (H1 & H2 & H3 & H4 & H5). rewrite notify_error_closed.
  split; [|split; [|split; [|split]]]; try assumption.
  cbn. apply Forall_app; split; [exact H1|].
  apply Forall_forall. intros x Hx. apply in_map_iff in Hx as (i & <- & Hi).
  apply heard_incl in Hi.
  rewrite Forall_forall in H3. split; [exact (H3 i Hi) | reflexivity].
Qed.

Lemma free_Tidy c : Tidy c -> Tidy (with_refreshObservable None c).
Proof.
  intros (H1 & H2 & H3 & H4 & H5).
  split; [|split; [|split; [|split]]]; try assumption. constructor.
Qed.

Lemma settle_Tidy r c : gate_ok c -> Tidy c -> Tidy (settle r c).
Proof.
  intros Hg H. unfold settle. destruct r as [v|e]; apply free_Tidy.
  - apply notify_all_Tidy; [reflexivity|].
    apply notify_all_Tidy; [reflexivity|].
    apply set_Tidy; [exact Hg|].
    revert H; apply frame_Tidy; reflexivity.
  - apply notify_error_Tidy.
    revert H; apply frame_Tidy; reflexivity.
Qed.

Lemma producer_settles_Tidy r c :
  gate_ok c -> Tidy c -> Tidy (producer_settles r c).
Proof.
  intros Hg H. unfold producer_settles.
  destruct (shared_subscribers c); [exact H | apply settle_Tidy; assumption].
Qed.

Lemma new_Cache_Tidy (nm : string) (p : Producer) :
  Tidy (new_Cache nm p : Cache T).
Proof.
  split; [|split; [|split; [|split]]]; constructor.
Qed.

Lemma tidy_new_stream c :
  Tidy c ->
  tidy (with_nextSub (S (nextSub c)) c)
    (RStream (nextSub c) :: microtasks c ++ readyReactions c).
Proof.
  intros H.
  pose proof (tidy_bump c _ H) as (H1 & H2 & H3 & H4 & H5).
  split; [|split; [|split; [|split]]]; try assumption.
  - constructor; [cbn; lia | exact H2].
  - change (streams_of (RStream (nextSub c) ::
                        microtasks c ++ readyReactions c))
      with (nextSub c :: streams_of (microtasks c ++ readyReactions c)).
    apply nodup_insert; [exact H5|].
    apply fresh_not_in. destruct H as (_ & G2 & _ & G4 & _).
    apply Forall_app; split; [exact G4 | apply streams_bound, G2].
Qed.

(** A subscription of [get$] served inside [subscribe]. *)
Lemma run_now_Tidy c :
  Tidy c ->
  Tidy (run_reaction (with_nextSub (S (nextSub c)) c) (RStream (nextSub c))).
Proof.
  intros H. unfold Tidy.
  rewrite run_reaction_microtasks, run_reaction_readyReactions.
  change (microtasks (with_nextSub (S (nextSub c)) c)) with (microtasks c).
  change (readyReactions (with_nextSub (S (nextSub c)) c))
    with (readyReactions c).
  apply run_reaction_tidy, tidy_new_stream, H.
Qed.

Lemma subscribe_get_stream_Tidy c :
  gate_ok c -> Tidy c -> Tidy (subscribe_get_stream c).
Proof.
  intros Hg H. unfold subscribe_get_stream. destruct (isScalar c).
  - apply run_now_Tidy, H.
  - apply call_Tidy; auto.
Qed.

Lemma step_Tidy c ev : WF c -> Tidy c -> Tidy (step c ev).
Proof.
  intros Hwf H.
  assert (Hg : gate_ok c) by apply Hwf.
  assert (Hgd : gate_ok (drain c)) by apply (drain_WF c Hwf).
  pose proof (drain_Tidy c H) as Hd.
  destruct ev; cbn [step].
  - apply call_Tidy; auto.
  - unfold call_refresh.
    pose proof (attach_gate (nextSub c) (with_nextSub (S (nextSub c)) c)) as Eg.
    unfold gate in Eg.
    assert (Em : microtasks (attach (nextSub c) (with_nextSub (S (nextSub c)) c))
                 = microtasks c) by exact (f_equal snd Eg).
    assert (Er : readyReactions
                   (attach (nextSub c) (with_nextSub (S (nextSub c)) c))
                 = readyReactions c) by exact (f_equal (fun t => snd (fst t)) Eg).
    unfold Tidy. rewrite Em, Er.
    apply attach_tidy; [cbn; lia | apply tidy_bump, H].
  - apply set_Tidy; assumption.
  - revert H; apply frame_Tidy; reflexivity.
  - apply call_Tidy; auto.
  - apply subscribe_get_stream_Tidy; assumption.
  - revert H; apply frame_Tidy; reflexivity.
  - revert H; apply frame_Tidy; reflexivity.
  - exact Hd.
  - apply drain_Tidy. unfold storage_ready_ok.
    destruct (probe_is _ _); [|exact Hd].
    revert Hd; apply frame_Tidy; reflexivity.
  - apply drain_Tidy. unfold storage_ready_fail.
    destruct (probe_is _ _); [|exact Hd].
    revert Hd; apply frame_Tidy; reflexivity.
  - apply drain_Tidy, storage_get_ok_Tidy, Hd.
  - apply drain_Tidy. unfold storage_get_fail.
    destruct (probe_is _ _); [|exact Hd].
    revert Hd; apply frame_Tidy; reflexivity.
  - apply drain_Tidy. unfold storage_set_ok.
    destruct (writes _); [exact Hd|].
    revert Hd; apply frame_Tidy; reflexivity.
  - apply drain_Tidy. unfold storage_set_fail.
    destruct (writes _); [exact Hd|].
    revert Hd; apply frame_Tidy; reflexivity.
  - apply drain_Tidy, producer_settles_Tidy; assumption.
Qed.

Lemma reachable_Tidy nm p (evs : list (Event T)) :
  Tidy (run (new_Cache nm p) evs).
Proof.
  induction evs as [|ev evs IH] using rev_ind.
  - apply new_Cache_Tidy.
  - rewrite run_snoc. apply step_Tidy; [apply reachable_WF | exact IH].
Qed.

(** ** What a subscription has received *)

Lemma sub_eqb_true s s' : sub_eqb s s' = true -> s = s'.
Proof.
  destruct s, s'; simpl; intros H; try discriminate H;
    apply Nat.eqb_eq in H; subst; reflexivity.
Qed.

Lemma sub_eqb_neq s s' : s <> s' -> sub_eqb s s' = false.
Proof.
  intros H. destruct (sub_eqb s s') eqn:E; [|reflexivity].
  destruct H. apply sub_eqb_true, E.
Qed.

Lemma received_in s n c : In n (received s c) -> In (s, n) (delivered c).
Proof.
  unfold received. intros H. apply in_map_iff in H as ([s' n'] & <- & H).
  apply filter_In in H as [H E]. cbn in E.
  apply sub_eqb_true in E; subst. exact H.
Qed.

(** A subscription that is not allocated yet has received nothing. *)
Lemma fresh_received s c q :
  tidy c q -> nextSub c <= sub_id s -> received s c = [].
Proof.
  intros (H1 & _) Hle. destruct (received s c) as [|n l] eqn:E; [reflexivity|].
  assert (Hin : In (s, n) (delivered c))
    by (apply received_in; rewrite E; left; reflexivity).
  rewrite Forall_forall in H1. destruct (H1 _ Hin) as [Hlt _].
  cbn in Hlt. lia.
Qed.

Lemma fresh_target b k s :
  reaction_ok b k -> b <= sub_id s -> target k <> Some s.
Proof.
  destruct k; cbn; intros Hk Hle E; try discriminate E;
    injection E as <-; cbn in Hle; lia.
Qed.

Lemma offer_others s d c i :
  s <> Stream i -> received s (offer d c i) = received s c.
Proof.
  intros Hs. destruct (offer_fst d c i) as [-> | ->].
  - apply received_frame, get_filter_delivered.
  - rewrite received_deliver, (sub_eqb_neq _ _ Hs), app_nil_r.
    apply received_frame, get_filter_delivered.
Qed.

(** A reaction hands nothing to a subscription it does not work for. *)
Lemma run_reaction_others s c k :
  target k <> Some s -> received s (run_reaction c k) = received s c.
Proof.
  intros Hk.
  destruct k as [i|i|i|d]; cbn [run_reaction target] in *.
  - assert (Hs : s <> Caller i) by congruence.
    destruct (truthy (empty c)).
    + apply received_frame, attach_delivered.
    + rewrite !received_deliver, (sub_eqb_neq _ _ Hs), !app_nil_r.
      reflexivity.
  - assert (Hs : s <> Stream i) by congruence.
    change (received s (with_isScalar ?b ?x)) with (received s x).
    rewrite (offer_others s _ _ i Hs). apply received_frame; reflexivity.
  - assert (Hs : s <> Asker i) by congruence.
    rewrite received_deliver, (sub_eqb_neq _ _ Hs), app_nil_r. reflexivity.
  - apply received_frame; reflexivity.
Qed.

Lemma fold_reaction_others s q : forall c,
  Forall (fun k => target k <> Some s) q ->
  received s (fold_left run_reaction q c) = received s c.
Proof.
  induction q as [|k q IH]; intros c H; cbn [fold_left]; [reflexivity|].
  inversion H; subst. rewrite IH by assumption.
  apply run_reaction_others; assumption.
Qed.

Lemma drain_last q k c :
  microtasks c = q ++ [k] ->
  drain c =
  run_reaction (fold_left run_reaction q (with_microtasks [] c)) k.
Proof. intros H. unfold drain. rewrite H, fold_left_app. reflexivity. Qed.

(** X7.  Every notification in the log fits the kind of the subscription it went
    to, whatever the store, the producer and the callers did: a subscriber
    of [get$] has been handed values and nothing else, so [get$] neither
    fails nor completes, and the consumer of [isEmpty()] the fulfilment of
    its promise and nothing else. *)
Theorem notifications_fit nm p (evs : list (Event T)) :
  let c := run (new_Cache nm p) evs in
  Forall (fun x => fits (fst x) (snd x) = true) (delivered c) /\
  forall i,
    Forall (fun n => exists d, n = Next d) (received (Stream i) c) /\
    Forall (fun n => exists b, n = Resolved b) (received (Asker i) c).
Proof.
  intros c. pose proof (reachable_Tidy nm p evs) as (H1 & _). fold c in H1.
  assert (H : forall s n, In n (received s c) -> fits s n = true).
  { intros s n Hin. apply received_in in Hin.
    rewrite Forall_forall in H1. apply (H1 _ Hin). }
  split; [|intros i; split].
  - revert H1; apply Forall_impl. intros x Hx; apply Hx.
  - apply Forall_forall. intros n Hn. apply H in Hn.
    destruct n; try discriminate Hn. eexists; reflexivity.
  - apply Forall_forall. intros n Hn. apply H in Hn.
    destruct n; try discriminate Hn. eexists; reflexivity.
Qed.

(** ** The reactions parked behind the gate run when the store answers *)

Lemma store_answer_runs_parked c d :
  probe_is AwaitStorageGet c = true -> readyResolved c = false ->
  microtasks c = [] -> observers (data c) = [] ->
  exists y,
    step c (StorageGetOk d) = fold_left run_reaction (readyReactions c) y /\
    memory y =
      (if accepted c d then (Some false, d) else (Some true, value (data c))) /\
    delivered y = delivered c /\
    observers (data y) = [] /\
    coord y = coord c /\
    allowNull y = allowNull c /\
    readyResolved y = true /\
    observable y = observable c.
Proof.
  intros Hp Hr Hm Ho.
  exists (with_microtasks []
            (with_probe ProbeSettled
               (with_ready true []
                  (with_microtasks (readyReactions c)
                     (with_loaded true
                        (if accepted c d
                         then with_empty (Some false)
                                (with_data {| value := d; observers := [] |} c)
                         else with_empty (Some true) c)))))).
  split.
  - cbn [step]. rewrite (drain_nothing c Hm).
    unfold storage_get_ok. rewrite Hp. fold (accepted c d).
    destruct (accepted c d).
    + unfold data_next. rewrite Ho. cbn [fold_left].
      unfold readyResolve; simpl. rewrite Hr. unfold drain; simpl.
      rewrite Hm; simpl. reflexivity.
    + unfold readyResolve; simpl. rewrite Hr. unfold drain; simpl.
      rewrite Hm; simpl. reflexivity.
  - destruct (accepted c d); repeat split; assumption.
Qed.

(** ** [isEmpty()] *)

Lemma call_parks k c :
  readyResolved c = false ->
  ready_then k (with_nextSub (S (nextSub c)) c) =
  with_ready false (readyReactions c ++ [k]) (with_nextSub (S (nextSub c)) c).
Proof. intros Hr. unfold ready_then. cbn. rewrite Hr. reflexivity. Qed.

Lemma call_queued k c :
  readyResolved c = true -> microtasks c = [] ->
  drain (ready_then k (with_nextSub (S (nextSub c)) c)) =
  run_reaction (with_microtasks [] (with_nextSub (S (nextSub c)) c)) k.
Proof.
  intros Hr Hm. unfold ready_then. cbn. rewrite Hr.
  unfold drain. cbn. rewrite Hm. reflexivity.
Qed.

Lemma shut_while_probing nm p (evs : list (Event T)) :
  let c := run (new_Cache nm p) evs in
  probe c = AwaitStorageGet ->
  readyResolved c = false /\ microtasks c = [] /\ observers (data c) = [].
Proof.
  intros c Hp.
  pose proof (reachable_gate_inv nm p evs) as (_ & Hopen & Hshut).
  fold c in Hopen, Hshut.
  assert (Hr : readyResolved c = false).
  { destruct (readyResolved c); [|reflexivity].
    destruct (Hopen eq_refl) as [E _]. rewrite Hp in E; discriminate. }
  destruct (Hshut Hr) as (Hm & _ & Ho & _). auto.
Qed.

(** X8.  [isEmpty()] (lines 226-228) on an entity that is ready: the promise is
    fulfilled when the task ends, with a boolean, the flag of the entity;
    the call subscribes no producer and changes nothing the entity holds.
    Asked while the store has not answered the probe, the promise is
    pending; it is fulfilled in the task of the answer, with [false] if what
    the store read passes the test of line 121 and with [true] otherwise. *)
Theorem isEmpty_contract nm p (evs : list (Event T)) :
  let c := run (new_Cache nm p) evs in
  let i := nextSub c in
  (readyResolved c = true -> microtasks c = [] ->
   let c' := run c [CallIsEmpty; Tick] in
   exists b,
     empty c = Some b /\
     received (Asker i) c' = [Resolved (Some b)] /\
     kept c' = kept c /\
     refreshObservable c' = refreshObservable c /\
     invoked c' = invoked c) /\
  (probe c = AwaitStorageGet ->
   forall d,
     received (Asker i) (step c CallIsEmpty) = [] /\
     received (Asker i) (run c [CallIsEmpty; StorageGetOk d]) =
       [Resolved (Some (negb (accepted c d)))]).
Proof.
  intros c i.
  pose proof (reachable_Tidy nm p evs) as Ht. fold c in Ht.
  assert (Hfresh : received (Asker i) c = [])
    by (apply (fresh_received _ _ _ Ht); cbn; unfold i; lia).
  split.
  - intros Hr Hm c'.
    pose proof (reachable_gate_inv nm p evs) as (_ & Hopen & _).
    fold c in Hopen. destruct (Hopen Hr) as [_ He].
    assert (E : c' = deliver (Asker i) (Resolved (empty c))
                       (with_microtasks [] (with_nextSub (S i) c)))
      by exact (call_queued (RIsEmpty i) c Hr Hm).
    destruct (empty c) as [b|] eqn:Eb; [|destruct He; reflexivity].
    exists b. split; [reflexivity|].
    split; [|split; [|split]].
    + rewrite E, received_deliver, sub_eqb_refl.
      change (received (Asker i) (with_microtasks [] (with_nextSub (S i) c)))
        with (received (Asker i) c).
      rewrite Hfresh. reflexivity.
    + rewrite E. reflexivity.
    + rewrite E. reflexivity.
    + rewrite E. reflexivity.
  - intros Hp d.
    destruct (shut_while_probing nm p evs Hp) as (Hr & Hm & Ho).
    fold c in Hr, Hm, Ho.
    assert (E : step c CallIsEmpty =
                with_ready false (readyReactions c ++ [RIsEmpty i])
                  (with_nextSub (S i) c))
      by exact (call_parks (RIsEmpty i) c Hr).
    split; [rewrite E; exact Hfresh|].
    cbn [run fold_left]. rewrite E.
    match goal with |- received _ (step ?x _) = _ => set (c' := x) end.
    destruct (store_answer_runs_parked c' d (probe_is_of _ c' Hp) eq_refl Hm Ho)
      as (y & Ey & Hmem & Hdel & _).
    rewrite Ey.
    change (readyReactions c') with (readyReactions c ++ [RIsEmpty i]).
    rewrite fold_left_app. cbn [fold_left run_reaction].
    set (z := fold_left run_reaction (readyReactions c) y).
    assert (Hz : received (Asker i) z = []).
    { unfold z. rewrite fold_reaction_others.
      - rewrite (received_frame _ _ _ Hdel). exact Hfresh.
      - destruct Ht as (_ & H2 & _). apply Forall_app in H2 as [_ H2].
        revert H2; apply Forall_impl. intros k Hk.
        apply (fresh_target _ _ _ Hk). cbn; unfold i; lia. }
    assert (Hez : empty z = Some (negb (accepted c d))).
    { unfold z. rewrite (kept_empty _ _ (fold_reaction_kept _ y)).
      assert (E1 : empty y = fst (memory y)) by reflexivity.
      rewrite E1, Hmem.
      change (accepted c' d) with (accepted c d).
      destruct (accepted c d); reflexivity. }
    rewrite received_deliver, sub_eqb_refl, Hz, Hez. reflexivity.
Qed.

(** ** The subscribers of [get$] *)

Lemma picks_map_out (f : SubId -> Sub) s n (l : list SubId) :
  (forall j, In j l -> f j <> s) ->
  picks s (map (fun j => (f j, n)) l) = [].
Proof.
  induction l as [|j l IH]; intros H; [reflexivity|].
  unfold picks in *; simpl.
  rewrite sub_eqb_neq by (intros E; apply (H j); [left; reflexivity | auto]).
  apply IH. intros j' Hj'. apply H; right; exact Hj'.
Qed.

Lemma picks_stream_in i n (l : list SubId) :
  NoDup l -> In i l -> picks (Stream i) (map (fun j => (Stream j, n)) l) = [n].
Proof.
  induction l as [|j l IH]; simpl; intros Hnd Hin; [destruct Hin|].
  inversion Hnd as [|? ? Hnotin Hnd']; subst.
  unfold picks in *; simpl.
  destruct (Nat.eqb_spec i j) as [-> | Hne]; simpl.
  - f_equal. apply (picks_map_out Stream (Stream j) n l).
    intros j' Hj' E. injection E as ->. contradiction.
  - apply IH; auto. destruct Hin; [congruence | assumption].
Qed.

Lemma get_filter_data c : data (fst (get_filter c)) = data c.
Proof.
  unfold get_filter. destruct (truthy (empty c)); cbn [fst]; [|reflexivity].
  change (data (with_bare ?b ?x)) with (data x).
  rewrite attach_data. reflexivity.
Qed.

Lemma offer_data d c i : data (offer d c i) = data c.
Proof.
  destruct (offer_fst d c i) as [-> | ->]; [|cbn [deliver with_delivered data]];
    apply get_filter_data.
Qed.

Lemma fold_offer_data d obs : forall c,
  data (fold_left (offer d) obs c) = data c.
Proof.
  induction obs as [|i obs IH]; intros c; cbn [fold_left]; [reflexivity|].
  rewrite IH. apply offer_data.
Qed.

Lemma data_next_observers d c :
  observers (data (data_next d c)) = observers (data c).
Proof. unfold data_next. rewrite fold_offer_data. reflexivity. Qed.

Lemma run_reaction_observers c k :
  observers (data (run_reaction c k)) = observers (data c) ++ stream_id k.
Proof.
  destruct k as [i|i|i|d]; cbn [run_reaction stream_id];
    rewrite ?app_nil_r.
  - destruct (truthy (empty c)); [rewrite attach_data|]; reflexivity.
  - change (data (with_isScalar ?b ?x)) with (data x).
    rewrite offer_data. reflexivity.
  - reflexivity.
  - reflexivity.
Qed.

Lemma fold_reaction_observers q : forall c,
  observers (data (fold_left run_reaction q c)) =
  observers (data c) ++ streams_of q.
Proof.
  induction q as [|k q IH]; intros c; cbn [fold_left].
  - symmetry; apply app_nil_r.
  - rewrite IH, run_reaction_observers, <- app_assoc. reflexivity.
Qed.

Lemma drain_observers c :
  observers (data (drain c)) = observers (data c) ++ streams_of (microtasks c).
Proof. unfold drain. rewrite fold_reaction_observers. reflexivity. Qed.

Lemma readyResolve_data c : data (readyResolve c) = data c.
Proof. unfold readyResolve. destruct (readyResolved c); reflexivity. Qed.

(** The subject never drops an observer. *)
Lemma step_observers c ev i :
  In i (observers (data c)) -> In i (observers (data (step c ev))).
Proof.
  intros Hi.
  assert (Hd : forall x : Cache T, In i (observers (data x)) ->
                         In i (observers (data (drain x)))).
  { intros x Hx. rewrite drain_observers. apply in_or_app; left; exact Hx. }
  pose proof (Hd c Hi) as Hi'.
  destruct ev; cbn [step]; unfold get, isEmpty;
    try (rewrite (proj1 (ready_then_still _ _)); exact Hi); try exact Hi.
  - unfold call_refresh. rewrite attach_data. exact Hi.
  - rewrite set_data. exact Hi.
  - unfold subscribe_get_stream. destruct (isScalar c).
    + rewrite run_reaction_observers. apply in_or_app; left; exact Hi.
    + rewrite (proj1 (ready_then_still _ _)); exact Hi.
  - exact Hi'.
  - apply Hd. unfold storage_ready_ok. destruct (probe_is _ _); exact Hi'.
  - apply Hd. unfold storage_ready_fail. destruct (probe_is _ _); exact Hi'.
  - apply Hd. unfold storage_get_ok. destruct (probe_is _ _); [|exact Hi'].
    cbn [with_probe data]. rewrite readyResolve_data. cbn [with_loaded data].
    destruct (defined d && (allowNull (drain c) || not_null d));
      cbn [with_empty data]; [rewrite data_next_observers|]; exact Hi'.
  - apply Hd. unfold storage_get_fail. destruct (probe_is _ _); exact Hi'.
  - apply Hd. unfold storage_set_ok. destruct (writes _); exact Hi'.
  - apply Hd. unfold storage_set_fail. destruct (writes _); exact Hi'.
  - apply Hd. unfold producer_settles.
    destruct (shared_subscribers _); [exact Hi'|].
    rewrite settle_observers. exact Hi'.
Qed.

Lemma run_observers (evs : list (Event T)) i : forall c,
  In i (observers (data c)) -> In i (observers (data (run c evs))).
Proof.
  induction evs as [|ev evs IH]; intros c H; [exact H|].
  apply IH, step_observers, H.
Qed.

Lemma offer_empty_attaches d c i :
  truthy (empty c) = true ->
  offer d c i =
  with_bare (bare c ++ [nextSub c])
    (attach (nextSub c) (with_nextSub (S (nextSub c)) c)).
Proof. intros H. unfold offer, get_filter. rewrite H. reflexivity. Qed.

Lemma attach_running i c : shared_subscribers (attach i c) <> [].
Proof.
  rewrite attach_subscribers. intros E.
  apply app_eq_nil in E as [_ E]; discriminate E.
Qed.

(** What the reaction of a subscription of [get$] hands its subscriber. *)
Lemma stream_reaction_received c i :
  received (Stream i) c = [] ->
  received (Stream i) (run_reaction c (RStream i)) =
  (if truthy (empty c) then [] else [Next (value (data c))]).
Proof.
  intros Hfresh. destruct (truthy (empty c)) eqn:He.
  - cbn [run_reaction].
    change (received (Stream i) (with_isScalar ?b ?x))
      with (received (Stream i) x).
    rewrite offer_empty_attaches by exact He.
    change (received (Stream i) (with_bare ?b ?x))
      with (received (Stream i) x).
    rewrite (received_frame _ _ _ (attach_delivered _ _)). exact Hfresh.
  - pose proof (stream_reaction_replays c i He) as Hd.
    unfold received in *. rewrite Hd, filter_app, map_app, Hfresh.
    cbn. rewrite Nat.eqb_refl. reflexivity.
Qed.

Lemma stream_reaction_fires c i : isScalar (run_reaction c (RStream i)) = true.
Proof. reflexivity. Qed.

(** X9.  A subscription of [get$] (lines 105-116).  [get$] is one observable
    and the promise observable at its head fires once.  On an entity that
    is ready the subscriber is an observer of the subject by the end of the
    task: if the entity is not empty it has been handed the snapshot, if
    the entity is empty it has been handed nothing and a refresh is running;
    and the promise observable has fired.  While the promise observable
    has not fired the subscription waits for the end of the task: the call
    registers no observer and hands out nothing.  Once it has fired, which
    happens on an open gate only, the subscription is served inside the
    call: the subscriber is registered and handed the snapshot, or, on an
    empty entity, nothing, the filter subscribing [refresh()] with an
    observer of its own.  Made while the store has not answered the probe,
    the subscription waits; in the task of the answer the subscriber is
    registered, and it is handed what the store read if that passes the
    test of line 121, and nothing otherwise, a refresh running
    afterwards. *)
Theorem stream_contract nm p (evs : list (Event T)) :
  let c := run (new_Cache nm p) evs in
  let i := nextSub c in
  (readyResolved c = true -> microtasks c = [] ->
   let c1 := run c [SubscribeStream; Tick] in
   In i (observers (data c1)) /\
   received (Stream i) c1 =
     (if truthy (empty c) then [] else [Next (value (data c))]) /\
   (truthy (empty c) = true -> outstanding c1 = 1) /\
   isScalar c1 = true) /\
  (readyResolved c = true -> isScalar c = false ->
   let c0 := step c SubscribeStream in
   microtasks c0 = microtasks c ++ [RStream i] /\
   ~ In i (observers (data c0)) /\
   received (Stream i) c0 = [] /\
   shared_subscribers c0 = shared_subscribers c) /\
  (isScalar c = true ->
   let c0 := step c SubscribeStream in
   readyResolved c = true /\
   microtasks c0 = microtasks c /\
   In i (observers (data c0)) /\
   received (Stream i) c0 =
     (if truthy (empty c) then [] else [Next (value (data c))]) /\
   (truthy (empty c) = true ->
    shared_subscribers c0 = shared_subscribers c ++ [S i] /\
    outstanding c0 = 1)) /\
  (probe c = AwaitStorageGet ->
   forall d,
     let c1 := run c [SubscribeStream; StorageGetOk d] in
     received (Stream i) (step c SubscribeStream) = [] /\
     In i (observers (data c1)) /\
     received (Stream i) c1 = (if accepted c d then [Next d] else []) /\
     (accepted c d = false -> outstanding c1 = 1) /\
     isScalar c1 = true).
Proof.
  intros c i.
  pose proof (reachable_Tidy nm p evs) as Ht. fold c in Ht.
  pose proof (reachable_WF nm p evs) as Hwf. fold c in Hwf.
  assert (Hfresh : received (Stream i) c = [])
    by (apply (fresh_received _ _ _ Ht); cbn; unfold i; lia).
  assert (Hnew : ~ In i (observers (data c))).
  { destruct Ht as (_ & _ & _ & H4 & _). apply fresh_not_in, H4. }
  split; [|split; [|split]].
  - intros Hr Hm c1.
    assert (Hwf1 : WF c1) by (apply run_WF, Hwf).
    destruct (stream_served_by_task_end c Hr Hm) as (x & E & _ & _ & _).
    fold c1 in E. fold i in E.
    split; [|split; [|split]].
    + rewrite E, run_reaction_observers. apply in_or_app; right; left.
      reflexivity.
    + destruct (truthy (empty c)) eqn:He.
      * destruct (stream_on_empty c Hr Hm He ltac:(apply Hwf)) as (_ & Hd & _).
        fold c1 in Hd. rewrite (received_frame _ _ _ Hd). exact Hfresh.
      * pose proof (stream_replays_snapshot c Hr Hm He) as Hd. fold c1 in Hd.
        unfold received in *. rewrite Hd, filter_app, map_app, Hfresh.
        cbn. rewrite Nat.eqb_refl. reflexivity.
    + intros He. apply WF_running_outstanding; [exact Hwf1|].
      destruct (stream_on_empty c Hr Hm He ltac:(apply Hwf)) as (Hs & _).
      fold c1 in Hs. rewrite Hs. intros E'.
      apply app_eq_nil in E' as [_ E']; discriminate E'.
    + rewrite E. apply stream_reaction_fires.
  - intros Hr Hs c0.
    assert (E : c0 = with_microtasks (microtasks c ++ [RStream i])
                       (with_nextSub (S i) c)).
    { unfold c0. cbn [step]. rewrite subscribe_get_stream_parks by exact Hs.
      unfold ready_then.
      change (readyResolved (with_nextSub (S (nextSub c)) c))
        with (readyResolved c).
      rewrite Hr. reflexivity. }
    rewrite E. repeat split; assumption.
  - intros Hs c0.
    assert (Hr : readyResolved c = true).
    { destruct (readyResolved c) eqn:Hr; [reflexivity|].
      pose proof (reachable_shut_scalar nm p evs Hr) as Hs'. fold c in Hs'.
      congruence. }
    assert (E : c0 = run_reaction (with_nextSub (S i) c) (RStream i)).
    { unfold c0. cbn [step]. apply subscribe_get_stream_served, Hs. }
    assert (Hwf0 : WF c0) by (apply step_WF, Hwf).
    split; [exact Hr|]. split; [rewrite E, run_reaction_microtasks; reflexivity|].
    split; [|split].
    + rewrite E, run_reaction_observers. apply in_or_app; right; left.
      reflexivity.
    + rewrite E. apply (stream_reaction_received (with_nextSub (S i) c) i).
      exact Hfresh.
    + intros He.
      destruct (stream_reaction_on_empty (with_nextSub (S i) c) i He
                  ltac:(apply Hwf)) as (Hsub & _).
      rewrite <- E in Hsub.
      split; [exact Hsub|].
      apply WF_running_outstanding; [exact Hwf0|].
      rewrite Hsub. intros E'.
      apply app_eq_nil in E' as [_ E']; discriminate E'.
  - intros Hp d c1.
    assert (Hwf1 : WF c1) by (apply run_WF, Hwf).
    destruct (shut_while_probing nm p evs Hp) as (Hr & Hm & Ho).
    fold c in Hr, Hm, Ho.
    assert (Hs : isScalar c = false)
      by exact (reachable_shut_scalar nm p evs Hr).
    assert (E : step c SubscribeStream =
                with_ready false (readyReactions c ++ [RStream i])
                  (with_nextSub (S i) c)).
    { cbn [step]. rewrite subscribe_get_stream_parks by exact Hs.
      exact (call_parks (RStream i) c Hr). }
    split; [rewrite E; exact Hfresh|].
    unfold c1 in *. cbn [run fold_left] in *. rewrite E in *.
    match goal with |- context [step ?x _] => set (c' := x) in * end.
    destruct (store_answer_runs_parked c' d (probe_is_of _ c' Hp) eq_refl Hm Ho)
      as (y & Ey & Hmem & Hdel & _).
    change (readyReactions c') with (readyReactions c ++ [RStream i]) in Ey.
    rewrite fold_left_app in Ey. cbn [fold_left] in Ey.
    set (z := fold_left run_reaction (readyReactions c) y) in *.
    assert (Hz : received (Stream i) z = []).
    { unfold z. rewrite fold_reaction_others.
      - rewrite (received_frame _ _ _ Hdel). exact Hfresh.
      - destruct Ht as (_ & H2 & _). apply Forall_app in H2 as [_ H2].
        revert H2; apply Forall_impl. intros k Hk.
        apply (fresh_target _ _ _ Hk). cbn; unfold i; lia. }
    assert (Hmz : memory z =
                  if accepted c d then (Some false, d)
                  else (Some true, value (data c))).
    { unfold z. rewrite (kept_memory _ _ (fold_reaction_kept _ y)).
      exact Hmem. }
    assert (Hez : empty z = fst (memory z)) by reflexivity.
    assert (Hvz : value (data z) = snd (memory z)) by reflexivity.
    rewrite Hmz in Hez, Hvz.
    split; [|split; [|split]].
    + rewrite Ey, run_reaction_observers. apply in_or_app; right; left.
      reflexivity.
    + rewrite Ey, (stream_reaction_received z i Hz), Hez, Hvz.
      destruct (accepted c d); reflexivity.
    + intros Ha. apply WF_running_outstanding; [exact Hwf1|].
      rewrite Ey. rewrite Ha in Hez. cbn [fst] in Hez.
      cbn [run_reaction].
      change (shared_subscribers (with_isScalar ?b ?x))
        with (shared_subscribers x).
      rewrite offer_empty_attaches by (cbn; rewrite Hez; reflexivity).
      change (shared_subscribers (with_bare ?b ?x))
        with (shared_subscribers x).
      apply attach_running.
    + rewrite Ey. apply stream_reaction_fires.
Qed.

(** X10.  [get$] is long-lived.  An observer of the subject stays one whatever
    happens next; it is handed every value [set] records, in the call, and
    every value the producer yields, in the task of the settlement; a
    failure of the producer hands it nothing. *)
Theorem stream_follows_updates nm p (evs : list (Event T)) i :
  let c := run (new_Cache nm p) evs in
  In i (observers (data c)) ->
  (forall evs', In i (observers (data (run c evs')))) /\
  (forall v,
     received (Stream i) (step c (CallSet v)) =
     received (Stream i) c ++ [Next v]) /\
  (forall v,
     shared_subscribers c <> [] -> microtasks c = [] ->
     received (Stream i) (step c (ProducerSettles (Yield v))) =
     received (Stream i) c ++ [Next v]) /\
  (forall e,
     microtasks c = [] ->
     received (Stream i) (step c (ProducerSettles (Fail e))) =
     received (Stream i) c).
Proof.
  intros c Hi.
  pose proof (reachable_Tidy nm p evs) as Ht. fold c in Ht.
  assert (Hnd : NoDup (observers (data c))).
  { destruct Ht as (_ & _ & _ & _ & H5). apply NoDup_app_remove_r in H5.
    exact H5. }
  split; [|split; [|split]].
  - intros evs'. apply run_observers, Hi.
  - intros v. cbn [step]. unfold received. rewrite set_delivered.
    fold (picks (Stream i)
            (delivered c ++
             map (fun j => (Stream j, Next v)) (observers (data c)))).
    rewrite picks_app, picks_stream_in by assumption. reflexivity.
  - intros v Hrun Hm. rewrite settles_alone by assumption.
    unfold received. rewrite (drain_settle_delivered _ _ Hm), settle_delivered.
    match goal with |- map snd (filter ?f ?l) = _ =>
      change (map snd (filter f l)) with (picks (Stream i) l) end.
    rewrite !picks_app, picks_stream_in by assumption.
    rewrite !(picks_map_out Caller) by (intros; discriminate).
    reflexivity.
  - intros e Hm. cbn [step]. rewrite (drain_nothing c Hm).
    unfold producer_settles.
    destruct (shared_subscribers c) eqn:Es.
    + rewrite (drain_nothing c Hm). reflexivity.
    + unfold received.
      rewrite (drain_settle_delivered _ _ Hm), settle_delivered, Es.
      match goal with |- map snd (filter ?f ?l) = _ =>
        change (map snd (filter f l)) with (picks (Stream i) l) end.
      rewrite picks_app, (picks_map_out Caller) by (intros; discriminate).
      apply app_nil_r.
Qed.

(** ** [set] before the store answered *)

Lemma set_parks_write v c :
  useLocalStorage c = true -> readyResolved c = false ->
  microtasks (set v c) = microtasks c /\
  readyReactions (set v c) = readyReactions c ++ [RPersist v].
Proof.
  intros Hu Hr. rewrite set_recorded, Hu. unfold ready_then. cbn.
  rewrite Hr. split; reflexivity.
Qed.

(** X11.  [set(v)] is called while the store has not answered the probe, then
    the store answers with [d].  The answer wins in memory: if [d] passes
    the test of line 121 the entity holds [d], and otherwise it is empty
    although the snapshot is [v].  The write of [v] that [set] parked behind
    the gate is nevertheless issued to the store, in the task of the answer,
    after the writes parked before it. *)
Theorem store_answer_overrides_early_set nm p (evs : list (Event T)) v d :
  let c := run (new_Cache nm p) evs in
  probe c = AwaitStorageGet ->
  let c1 := step c (CallSet v) in
  let c2 := step c1 (StorageGetOk d) in
  memory c1 = (Some false, v) /\
  writes c1 = [] /\
  memory c2 = (if accepted c d then (Some false, d) else (Some true, v)) /\
  (useLocalStorage c = true -> exists w, writes c2 = w ++ [v]).
Proof.
  intros c Hp c1 c2.
  destruct (shut_while_probing nm p evs Hp) as (Hr & Hm & Ho).
  fold c in Hr, Hm, Ho.
  pose proof (reachable_gate_inv nm p evs) as (_ & _ & Hshut).
  fold c in Hshut. destruct (Hshut Hr) as (_ & Hw & _).
  destruct (config_fields _ _ (set_config v c))
    as (_ & _ & _ & Kp & _ & Ka & _).
  assert (Hp1 : probe_is AwaitStorageGet c1 = true).
  { apply probe_is_of. unfold c1; cbn [step]. rewrite Kp. exact Hp. }
  assert (Hmem1 : memory c1 = (Some false, v)) by apply set_memory.
  split; [exact Hmem1|]. split.
  { unfold c1; cbn [step]. rewrite set_writes. exact Hw. }
  split.
  - unfold c2. rewrite (store_answer_memory c1 d Hp1).
    assert (Ea : accepted c1 d = accepted c d).
    { unfold accepted, c1; cbn [step]. rewrite Ka. reflexivity. }
    assert (Ev : value (data c1) = snd (memory c1)) by reflexivity.
    rewrite Ea, Ev, Hmem1. reflexivity.
  - intros Hu.
    destruct (set_parks_write v c Hu Hr) as [Em Er].
    assert (Hr1 : readyResolved c1 = false)
      by (unfold c1; cbn [step]; rewrite set_readyResolved; exact Hr).
    assert (Hm1 : microtasks c1 = [])
      by (unfold c1; cbn [step]; rewrite Em; exact Hm).
    assert (Ho1 : observers (data c1) = [])
      by (unfold c1; cbn [step]; rewrite set_data; exact Ho).
    destruct (store_answer_runs_parked c1 d Hp1 Hr1 Hm1 Ho1) as (y & Ey & _).
    unfold c2. rewrite Ey.
    assert (Er1 : readyReactions c1 = readyReactions c ++ [RPersist v])
      by exact Er.
    rewrite Er1, fold_left_app. cbn [fold_left run_reaction].
    eexists. reflexivity.
Qed.

(** ** The observers of [get()] and of [refresh()] *)

Lemma protocol_ext c c' q :
  delivered c' = delivered c ->
  shared_subscribers c' = shared_subscribers c ->
  protocol c q -> protocol c' q.
Proof. unfold protocol, received. intros -> ->. auto. Qed.

Lemma protocol_ids c q q' : ids_of q' = ids_of q -> protocol c q -> protocol c q'.
Proof. unfold protocol. intros ->. auto. Qed.

Lemma deliver_protocol s n c q :
  (forall i, s <> Caller i) -> protocol c q -> protocol (deliver s n c) q.
Proof.
  intros Hs H i. rewrite received_deliver.
  rewrite sub_eqb_neq by (intros E; apply (Hs i); symmetry; exact E).
  rewrite app_nil_r. exact (H i).
Qed.

Lemma attach_protocol j c q :
  received (Caller j) c = [] -> protocol c q -> protocol (attach j c) q.
Proof.
  intros Hj H i. destruct (H i) as [Hf Hz].
  rewrite (received_frame _ _ _ (attach_delivered j c)), attach_subscribers.
  split; [exact Hf|]. intros Hin.
  apply in_app_or in Hin as [Hin | Hin].
  - apply in_app_or in Hin as [Hin | [<- | []]]; [|exact Hj].
    apply Hz, in_or_app; left; exact Hin.
  - apply Hz, in_or_app; right; exact Hin.
Qed.

Lemma get_filter_protocol c q q0 :
  tidy c q0 -> protocol c q -> protocol (fst (get_filter c)) q.
Proof.
  intros Ht H. unfold get_filter. destruct (truthy (empty c)); cbn [fst];
    [|exact H].
  apply attach_protocol.
  - apply (fresh_received _ c q0 Ht). cbn; lia.
  - revert H; apply protocol_ext; reflexivity.
Qed.

Lemma offer_protocol d c i q q0 :
  tidy c q0 -> protocol c q -> protocol (offer d c i) q.
Proof.
  intros Ht H. pose proof (get_filter_protocol c q q0 Ht H) as Hg.
  destruct (offer_fst d c i) as [-> | ->]; [exact Hg|].
  apply deliver_protocol; [discriminate | exact Hg].
Qed.

Lemma fold_offer_protocol d q q0 obs : forall c,
  Forall (fun i => i < nextSub c) obs -> tidy c q0 -> protocol c q ->
  protocol (fold_left (offer d) obs c) q.
Proof.
  induction obs as [|i obs IH]; intros c Hb Ht H; cbn [fold_left]; [exact H|].
  inversion Hb as [|? ? Hi Hb']; subst.
  destruct (offer_tidy d c i q0 Hi Ht) as [Ht' Hle].
  apply IH.
  - revert Hb'; apply Forall_impl; intros; lia.
  - exact Ht'.
  - apply (offer_protocol d c i q q0); assumption.
Qed.

Lemma data_next_protocol d c q q0 :
  tidy c q0 -> protocol c q -> protocol (data_next d c) q.
Proof.
  intros Ht H. unfold data_next. apply (fold_offer_protocol d q q0).
  - apply Ht.
  - revert Ht; apply tidy_ext; reflexivity.
  - revert H; apply protocol_ext; reflexivity.
Qed.

Lemma ready_then_Protocol k c :
  gate_ok c -> protocol c ((microtasks c ++ readyReactions c) ++ [k]) ->
  Protocol (ready_then k c).
Proof.
  intros Hg H. unfold Protocol. rewrite ready_then_queue by exact Hg.
  revert H; apply protocol_ext;
    unfold ready_then; destruct (readyResolved c); reflexivity.
Qed.

Lemma protocol_snoc_plain c q k :
  get_id k = [] -> protocol c q -> protocol c (q ++ [k]).
Proof.
  intros Hk. apply protocol_ids. rewrite ids_of_app; simpl.
  rewrite Hk; simpl. apply app_nil_r.
Qed.

Lemma protocol_snoc_fresh c q j :
  received (Caller j) c = [] -> protocol c q -> protocol c (q ++ [RGet j]).
Proof.
  intros Hj H i. destruct (H i) as [Hf Hz]. split; [exact Hf|].
  rewrite ids_of_app. simpl. intros Hin.
  apply in_app_or in Hin as [Hin | Hin].
  - apply Hz, in_or_app; left; exact Hin.
  - apply in_app_or in Hin as [Hin | [<- | []]]; [|exact Hj].
    apply Hz, in_or_app; right; exact Hin.
Qed.

Lemma call_Protocol k c :
  gate_ok c -> Tidy c -> Protocol c ->
  (k = RGet (nextSub c) \/ k = RStream (nextSub c) \/ k = RIsEmpty (nextSub c)) ->
  Protocol (ready_then k (with_nextSub (S (nextSub c)) c)).
Proof.
  intros Hg Ht H Hk. apply ready_then_Protocol; [exact Hg|].
  assert (H' : protocol (with_nextSub (S (nextSub c)) c)
                 (microtasks c ++ readyReactions c))
    by (revert H; apply protocol_ext; reflexivity).
  destruct Hk as [-> | [-> | ->]].
  - apply protocol_snoc_fresh; [|exact H'].
    apply (fresh_received _ c _ Ht). cbn; lia.
  - apply protocol_snoc_plain; [reflexivity | exact H'].
  - apply protocol_snoc_plain; [reflexivity | exact H'].
Qed.

Lemma set_Protocol d c : gate_ok c -> Protocol c -> Protocol (set d c).
Proof.
  intros Hg H. rewrite set_recorded.
  assert (Hrec : protocol (recorded d c) (microtasks c ++ readyReactions c)).
  { intros i. destruct (H i) as [Hf Hz].
    assert (E : received (Caller i) (recorded d c) = received (Caller i) c).
    { change (received (Caller i) (recorded d c))
        with (picks (Caller i)
                (delivered c ++
                 map (fun j => (Stream j, Next d)) (observers (data c)))).
      rewrite picks_app, picks_streams. apply app_nil_r. }
    rewrite E. split; [exact Hf | exact Hz]. }
  destruct (useLocalStorage c); [|exact Hrec].
  apply ready_then_Protocol; [exact Hg|].
  apply protocol_snoc_plain; [reflexivity | exact Hrec].
Qed.

Lemma run_reaction_protocol c k q :
  WFq c (k :: q) -> tidy c (k :: q) -> protocol c (k :: q) ->
  protocol (run_reaction c k) q.
Proof.
  intros Hwf Ht H.
  destruct k as [i|i|i|d]; cbn [run_reaction].
  - assert (Hi : received (Caller i) c = []).
    { apply (H i). apply in_or_app; right; left; reflexivity. }
    destruct (truthy (empty c)).
    + apply attach_protocol; [exact Hi|].
      intros j. destruct (H j) as [Hf Hz]. split; [exact Hf|].
      intros Hin. apply Hz. apply in_app_or in Hin as [Hin | Hin];
        apply in_or_app; [left | right; right]; exact Hin.
    + destruct Hwf as (_ & [Hnd _] & _). cbn in Hnd.
      apply NoDup_remove_2 in Hnd.
      intros j. rewrite !received_deliver, sub_eqb_caller.
      destruct (Nat.eqb_spec j i) as [-> | Hne].
      * rewrite Hi. split; [right; left; eexists; reflexivity|].
        intros Hin. contradiction.
      * rewrite !app_nil_r. destruct (H j) as [Hf Hz]. split; [exact Hf|].
        intros Hin. apply Hz. apply in_app_or in Hin as [Hin | Hin];
          apply in_or_app; [left | right; right]; exact Hin.
  - apply (offer_protocol _ _ _ _ q).
    + destruct Ht as (H1 & H2 & H3 & H4 & H5).
      assert (Hk : i < nextSub c) by (inversion H2; assumption).
      split; [|split; [|split; [|split]]]; try assumption.
      * inversion H2; assumption.
      * cbn. apply Forall_app; split; [exact H4|].
        constructor; [exact Hk | constructor].
      * cbn. rewrite <- app_assoc. exact H5.
    + apply (protocol_ids _ (RStream i :: q)); [reflexivity|].
      revert H; apply protocol_ext; reflexivity.
  - apply deliver_protocol; [discriminate|].
    apply (protocol_ids _ (RIsEmpty i :: q)); [reflexivity | exact H].
  - apply (protocol_ids _ (RPersist d :: q)); [reflexivity|].
    revert H; apply protocol_ext; reflexivity.
Qed.

Lemma fold_reaction_protocol q q' : forall c,
  WFq c (q ++ q') -> tidy c (q ++ q') -> protocol c (q ++ q') ->
  protocol (fold_left run_reaction q c) q'.
Proof.
  induction q as [|k q IH]; intros c Hwf Ht H; cbn [fold_left]; [exact H|].
  apply IH.
  - apply run_reaction_WFq, Hwf.
  - apply run_reaction_tidy, Ht.
  - apply run_reaction_protocol; assumption.
Qed.

Lemma drain_Protocol c : WF c -> Tidy c -> Protocol c -> Protocol (drain c).
Proof.
  intros Hwf Ht H. unfold Protocol.
  rewrite drain_microtasks, drain_readyReactions. cbn [app].
  unfold drain. apply fold_reaction_protocol.
  - revert Hwf; apply WFq_ext; reflexivity.
  - revert Ht; apply tidy_ext; reflexivity.
  - revert H; apply protocol_ext; reflexivity.
Qed.

Lemma frame_Protocol c c' :
  delivered c' = delivered c ->
  shared_subscribers c' = shared_subscribers c ->
  microtasks c' = microtasks c ->
  readyReactions c' = readyReactions c -> Protocol c -> Protocol c'.
Proof.
  unfold Protocol. intros E1 E2 -> ->. apply protocol_ext; assumption.
Qed.

Lemma readyResolve_Protocol c : Protocol c -> Protocol (readyResolve c).
Proof.
  intros H. unfold readyResolve. destruct (readyResolved c); [exact H|].
  unfold Protocol. cbn. rewrite app_nil_r.
  revert H; apply protocol_ext; reflexivity.
Qed.

Lemma storage_get_ok_Protocol d c :
  Tidy c -> Protocol c -> Protocol (storage_get_ok d c).
Proof.
  intros Ht H. unfold storage_get_ok. destruct (probe_is _ _); [|exact H].
  match goal with |- Protocol (with_probe _ (readyResolve (with_loaded _ ?x))) =>
    assert (Hx : Protocol x) end.
  { destruct (defined d && (allowNull c || not_null d)).
    - pose proof (data_next_gate d c) as Eg. unfold gate in Eg.
      assert (Em : microtasks (data_next d c) = microtasks c)
        by exact (f_equal snd Eg).
      assert (Er : readyReactions (data_next d c) = readyReactions c)
        by exact (f_equal (fun t => snd (fst t)) Eg).
      pose proof (data_next_protocol d c _ _ Ht H) as Hd.
      unfold Protocol. cbn. rewrite Em, Er.
      revert Hd; apply protocol_ext; reflexivity.
    - revert H; apply frame_Protocol; reflexivity. }
  match goal with |- Protocol (with_probe _ ?y) =>
    apply (frame_Protocol y); try reflexivity end.
  apply readyResolve_Protocol. revert Hx; apply frame_Protocol; reflexivity.
Qed.

Lemma settle_received_out r c i :
  ~ In i (shared_subscribers c) ->
  received (Caller i) (settle r c) = received (Caller i) c.
Proof.
  intros Hout. unfold received; fold (picks (Caller i) (delivered c)).
  fold (picks (Caller i) (delivered (settle r c))).
  rewrite settle_delivered, picks_app.
  destruct r as [v|e]; simpl.
  - rewrite !picks_app, picks_streams, !picks_callers_out by assumption.
    apply app_nil_r.
  - rewrite picks_callers_out
      by (intros Hh; apply Hout, (heard_incl _ _ _ Hh)).
    apply app_nil_r.
Qed.

Lemma finished_outcome c i (r : Outcome (jsval T)) :
  finished (outcome_for c i r).
Proof.
  destruct r as [v|e]; cbn [outcome_for].
  - right; left; eexists; reflexivity.
  - destruct (reached c i); [right; right; eexists; reflexivity|].
    left; reflexivity.
Qed.

Lemma settle_Protocol r c : WF c -> Protocol c -> Protocol (settle r c).
Proof.
  intros (Hs & [Hnd Hlt] & Hg) H.
  destruct (settle_queue r c Hg) as [_ Hq].
  assert (Hsh : shared_subscribers (settle r c) = []).
  { unfold shared_subscribers. rewrite settle_slot. reflexivity. }
  intros i. rewrite Hsh, Hq. cbn [app].
  destruct (H i) as [Hf Hz].
  destruct (in_dec Nat.eq_dec i (shared_subscribers c)) as [Hin | Hout].
  - rewrite settle_received;
      [|apply NoDup_app_remove_r in Hnd; exact Hnd | exact Hin].
    rewrite Hz by (apply in_or_app; left; exact Hin). cbn [app].
    split; [apply finished_outcome|].
    intros Hin'. exfalso.
    revert Hnd Hin Hin'. generalize (shared_subscribers c).
    generalize (ids_of (microtasks c ++ readyReactions c)).
    intros l2 l1 Hnd H1 H2.
    induction l1 as [|a l1 IH]; [destruct H1|].
    cbn in Hnd. inversion Hnd as [|? ? Hna Hnd']; subst.
    destruct H1 as [-> | H1]; [|exact (IH Hnd' H1)].
    apply Hna, in_or_app; right; exact H2.
  - rewrite settle_received_out by exact Hout.
    split; [exact Hf|]. intros Hin. apply Hz, in_or_app; right; exact Hin.
Qed.

Lemma producer_settles_Protocol r c :
  WF c -> Protocol c -> Protocol (producer_settles r c).
Proof.
  intros Hwf H. unfold producer_settles.
  destruct (shared_subscribers c) eqn:E; [exact H|].
  apply settle_Protocol; assumption.
Qed.

Lemma new_Cache_Protocol (nm : string) (p : Producer) :
  Protocol (new_Cache nm p : Cache T).
Proof. intros i. split; [left; reflexivity | intros _; reflexivity]. Qed.

Lemma storage_ready_ok_Tidy c : Tidy c -> Tidy (storage_ready_ok c).
Proof.
  intros H. unfold storage_ready_ok. destruct (probe_is _ _); [|exact H].
  revert H; apply frame_Tidy; reflexivity.
Qed.

Lemma storage_ready_fail_Tidy e c : Tidy c -> Tidy (storage_ready_fail e c).
Proof.
  intros H. unfold storage_ready_fail. destruct (probe_is _ _); [|exact H].
  revert H; apply frame_Tidy; reflexivity.
Qed.

Lemma storage_get_fail_Tidy e c : Tidy c -> Tidy (storage_get_fail e c).
Proof.
  intros H. unfold storage_get_fail. destruct (probe_is _ _); [|exact H].
  revert H; apply frame_Tidy; reflexivity.
Qed.

Lemma storage_set_ok_Tidy c : Tidy c -> Tidy (storage_set_ok c).
Proof.
  intros H. unfold storage_set_ok. destruct (writes _); [exact H|].
  revert H; apply frame_Tidy; reflexivity.
Qed.

Lemma storage_set_fail_Tidy e c : Tidy c -> Tidy (storage_set_fail e c).
Proof.
  intros H. unfold storage_set_fail. destruct (writes _); [exact H|].
  revert H; apply frame_Tidy; reflexivity.
Qed.

Lemma storage_ready_ok_Protocol c :
  Protocol c -> Protocol (storage_ready_ok c).
Proof.
  intros H. unfold storage_ready_ok. destruct (probe_is _ _); [|exact H].
  revert H; apply frame_Protocol; reflexivity.
Qed.

Lemma storage_ready_fail_Protocol e c :
  Protocol c -> Protocol (storage_ready_fail e c).
Proof.
  intros H. unfold storage_ready_fail. destruct (probe_is _ _); [|exact H].
  revert H; apply frame_Protocol; reflexivity.
Qed.

Lemma storage_get_fail_Protocol e c :
  Protocol c -> Protocol (storage_get_fail e c).
Proof.
  intros H. unfold storage_get_fail. destruct (probe_is _ _); [|exact H].
  revert H; apply frame_Protocol; reflexivity.
Qed.

Lemma storage_set_ok_Protocol c : Protocol c -> Protocol (storage_set_ok c).
Proof.
  intros H. unfold storage_set_ok. destruct (writes _); [exact H|].
  revert H; apply frame_Protocol; reflexivity.
Qed.

Lemma storage_set_fail_Protocol e c :
  Protocol c -> Protocol (storage_set_fail e c).
Proof.
  intros H. unfold storage_set_fail. destruct (writes _); [exact H|].
  revert H; apply frame_Protocol; reflexivity.
Qed.

Lemma subscribe_get_stream_Protocol c :
  WF c -> Tidy c -> Protocol c -> Protocol (subscribe_get_stream c).
Proof.
  intros Hwf Ht H. unfold subscribe_get_stream. destruct (isScalar c).
  - unfold Protocol.
    rewrite run_reaction_microtasks, run_reaction_readyReactions.
    change (microtasks (with_nextSub (S (nextSub c)) c)) with (microtasks c).
    change (readyReactions (with_nextSub (S (nextSub c)) c))
      with (readyReactions c).
    apply run_reaction_protocol.
    + apply (WFq_ids _ (microtasks c ++ readyReactions c)); [reflexivity|].
      apply (bump_WFq c), Hwf.
    + apply tidy_new_stream, Ht.
    + apply (protocol_ids _ (microtasks c ++ readyReactions c));
        [reflexivity|].
      revert H; apply protocol_ext; reflexivity.
  - apply call_Protocol; auto. apply Hwf.
Qed.

Lemma step_Protocol c ev :
  WF c -> Tidy c -> Protocol c -> Protocol (step c ev).
Proof.
  intros Hwf Ht H.
  assert (Hg : gate_ok c) by apply Hwf.
  pose proof (drain_WF c Hwf) as Hwfd.
  pose proof (drain_Tidy c Ht) as Htd.
  pose proof (drain_Protocol c Hwf Ht H) as Hd.
  destruct ev; cbn [step].
  - apply call_Protocol; auto.
  - unfold call_refresh.
    pose proof (attach_gate (nextSub c) (with_nextSub (S (nextSub c)) c)) as Eg.
    unfold gate in Eg.
    assert (Em : microtasks (attach (nextSub c) (with_nextSub (S (nextSub c)) c))
                 = microtasks c) by exact (f_equal snd Eg).
    assert (Er : readyReactions
                   (attach (nextSub c) (with_nextSub (S (nextSub c)) c))
                 = readyReactions c) by exact (f_equal (fun t => snd (fst t)) Eg).
    unfold Protocol. rewrite Em, Er.
    apply attach_protocol.
    + apply (fresh_received _ c _ Ht). cbn; lia.
    + revert H; apply protocol_ext; reflexivity.
  - apply set_Protocol; assumption.
  - revert H; apply frame_Protocol; reflexivity.
  - apply call_Protocol; auto.
  - apply subscribe_get_stream_Protocol; assumption.
  - revert H; apply frame_Protocol; reflexivity.
  - revert H; apply frame_Protocol; reflexivity.
  - exact Hd.
  - apply drain_Protocol;
      [apply storage_ready_ok_WF | apply storage_ready_ok_Tidy
       | apply storage_ready_ok_Protocol]; assumption.
  - apply drain_Protocol;
      [apply storage_ready_fail_WF | apply storage_ready_fail_Tidy
       | apply storage_ready_fail_Protocol]; assumption.
  - apply drain_Protocol;
      [apply storage_get_ok_WF | apply storage_get_ok_Tidy
       | apply storage_get_ok_Protocol]; assumption.
  - apply drain_Protocol;
      [apply storage_get_fail_WF | apply storage_get_fail_Tidy
       | apply storage_get_fail_Protocol]; assumption.
  - apply drain_Protocol;
      [apply storage_set_ok_WF | apply storage_set_ok_Tidy
       | apply storage_set_ok_Protocol]; assumption.
  - apply drain_Protocol;
      [apply storage_set_fail_WF | apply storage_set_fail_Tidy
       | apply storage_set_fail_Protocol]; assumption.
  - apply drain_Protocol;
      [apply producer_settles_WF | apply producer_settles_Tidy; [apply Hwfd|]
       | apply producer_settles_Protocol]; assumption.
Qed.

Lemma reachable_Protocol nm p (evs : list (Event T)) :
  Protocol (run (new_Cache nm p) evs).
Proof.
  induction evs as [|ev evs IH] using rev_ind.
  - apply new_Cache_Protocol.
  - rewrite run_snoc.
    apply step_Protocol;
      [apply reachable_WF | apply reachable_Tidy | exact IH].
Qed.

(** X12.  An observer of [get()] or of [refresh()] is handed at most one value,
    followed by the completion, or one failure, and nothing after that,
    whatever happens to the entity: at any time it has been handed nothing
    yet, a value and the completion, or a failure. *)
Theorem caller_protocol nm p (evs : list (Event T)) i :
  let l := received (Caller i) (run (new_Cache nm p) evs) in
  l = [] \/ (exists v, l = [Next v; Complete]) \/ (exists e, l = [Error e]).
Proof. intros l. apply (reachable_Protocol nm p evs i). Qed.

(** ** An entity that holds a value *)

Lemma stocked_kept c c' :
  kept c' = kept c -> readyResolved c' = readyResolved c ->
  stocked c -> stocked c'.
Proof.
  intros K Hr (H1 & H2 & H3).
  destruct (kept_fields _ _ K) as (_ & Kp & _ & _ & _ & _ & Ke & _).
  split; [|split]; congruence.
Qed.

Lemma stocked_nonempty c : stocked c -> truthy (empty c) = false.
Proof. intros (_ & _ & He). rewrite He. reflexivity. Qed.

Lemma run_reaction_invoked c k :
  truthy (empty c) = false -> invoked (run_reaction c k) = invoked c.
Proof.
  intros He. destruct k as [i|i|i|d]; cbn [run_reaction].
  - rewrite He. reflexivity.
  - rewrite offer_nonempty by exact He. reflexivity.
  - reflexivity.
  - reflexivity.
Qed.

Lemma fold_reaction_invoked q : forall c,
  truthy (empty c) = false ->
  invoked (fold_left run_reaction q c) = invoked c.
Proof.
  induction q as [|k q IH]; intros c He; cbn [fold_left]; [reflexivity|].
  rewrite IH by (rewrite run_reaction_empty; exact He).
  apply run_reaction_invoked, He.
Qed.

Lemma drain_stocked c :
  stocked c -> stocked (drain c) /\ invoked (drain c) = invoked c.
Proof.
  intros H. split.
  - revert H; apply stocked_kept; [apply drain_kept | apply drain_readyResolved].
  - unfold drain. rewrite fold_reaction_invoked; [reflexivity|].
    exact (stocked_nonempty c H).
Qed.

Lemma settled_probe_is p c :
  probe c = ProbeSettled -> p <> ProbeSettled -> probe_is p c = false.
Proof.
  intros Hp Hne. unfold probe_is. rewrite Hp.
  destruct p; try reflexivity. destruct Hne; reflexivity.
Qed.

(** What the store and the producer do to an entity that holds a value. *)
Lemma handlers_stocked (ev : Event T) c :
  stocked c ->
  match ev with
  | StorageReadyOk => storage_ready_ok c = c
  | StorageReadyFail e => storage_ready_fail e c = c
  | StorageGetOk d => storage_get_ok d c = c
  | StorageGetFail e => storage_get_fail e c = c
  | StorageSetOk =>
      stocked (storage_set_ok c) /\ invoked (storage_set_ok c) = invoked c
  | StorageSetFail e =>
      stocked (storage_set_fail e c) /\
      invoked (storage_set_fail e c) = invoked c
  | ProducerSettles r =>
      stocked (producer_settles r c) /\
      invoked (producer_settles r c) = invoked c
  | _ => True
  end.
Proof.
  intros H. pose proof H as (Hr & Hp & He).
  destruct ev; try exact I.
  - unfold storage_ready_ok.
    rewrite (settled_probe_is _ c Hp) by discriminate. reflexivity.
  - unfold storage_ready_fail.
    rewrite (settled_probe_is _ c Hp) by discriminate. reflexivity.
  - unfold storage_get_ok.
    rewrite (settled_probe_is _ c Hp) by discriminate. reflexivity.
  - unfold storage_get_fail.
    rewrite (settled_probe_is _ c Hp) by discriminate. reflexivity.
  - unfold storage_set_ok. destruct (writes c); split; try assumption;
      reflexivity.
  - unfold storage_set_fail. destruct (writes c); split; try assumption;
      reflexivity.
  - unfold producer_settles. destruct (shared_subscribers c);
      [split; [exact H | reflexivity]|].
    split; [|apply settle_invoked].
    pose proof (settle_latch r c) as L. unfold latch in L.
    assert (L1 : probe (settle r c) = probe c) by exact (f_equal fst L).
    assert (L2 : readyResolved (settle r c) = readyResolved c)
      by exact (f_equal snd L).
    split; [|split]; [congruence | congruence|].
    rewrite settle_empty. destruct r; [reflexivity | exact He].
Qed.

Lemma step_stocked c ev :
  WF c -> stocked c ->
  stocked (step c ev) /\
  exists l,
    invoked (step c ev) = invoked c ++ l /\
    List.length l <= if is_refresh ev then 1 else 0.
Proof.
  intros Hwf H.
  assert (Hsame : forall x : Cache T,
            stocked x /\ invoked x = invoked c ->
            stocked x /\
            exists l, invoked x = invoked c ++ l /\ List.length l <= 0).
  { intros x [Hx Ex]. split; [exact Hx|]. exists [].
    rewrite app_nil_r. split; [exact Ex | apply Nat.le_refl]. }
  assert (Hcall : forall k,
            stocked (ready_then k (with_nextSub (S (nextSub c)) c)) /\
            invoked (ready_then k (with_nextSub (S (nextSub c)) c)) =
            invoked c).
  { intros k. split.
    - revert H; apply stocked_kept;
        [apply call_kept | apply call_readyResolved].
    - exact (f_equal (fun t => snd (fst (fst t)))
               (ready_then_coord k (with_nextSub (S (nextSub c)) c))). }
  destruct (drain_stocked c H) as [Hd Ed].
  assert (Hthen : forall x : Cache T,
            stocked x /\ invoked x = invoked (drain c) ->
            stocked (drain x) /\ invoked (drain x) = invoked c).
  { intros x [Hx Ex]. destruct (drain_stocked x Hx) as [Hx' Ex'].
    split; [exact Hx' | congruence]. }
  pose proof (handlers_stocked ev (drain c) Hd) as Hh.
  destruct ev; cbn [step is_refresh]; try (apply Hsame);
    try (apply Hcall); try (apply Hthen); try exact Hh;
    try (rewrite Hh; split; [exact Hd | reflexivity]).
  - split.
    + revert H; apply stocked_kept;
        [apply call_refresh_kept | apply call_refresh_readyResolved].
    + pose proof (call_refresh_invoked c Hwf) as E. cbn [step] in E.
      rewrite E.
      eexists; split; [reflexivity|]. destruct (idle c); cbn; lia.
  - split.
    + destruct H as (Hr & Hp & He).
      destruct (config_fields _ _ (set_config d c))
        as (_ & _ & _ & Kp & _).
      split; [|split].
      * rewrite set_readyResolved; exact Hr.
      * congruence.
      * exact (f_equal fst (set_memory d c)).
    + exact (f_equal (fun t => snd (fst (fst t))) (set_coord d c)).
  - split; [exact H | reflexivity].
  - unfold subscribe_get_stream. destruct (isScalar c); [|apply Hcall].
    split.
    + revert H; apply stocked_kept;
        [rewrite run_reaction_kept | rewrite run_reaction_readyResolved];
        reflexivity.
    + rewrite run_reaction_invoked by exact (stocked_nonempty c H).
      reflexivity.
  - split; [exact H | reflexivity].
  - split; [exact H | reflexivity].
  - split; [exact H | symmetry; exact Ed].
Qed.

Lemma run_stocked (evs : list (Event T)) : forall c,
  WF c -> stocked c ->
  stocked (run c evs) /\
  exists l,
    invoked (run c evs) = invoked c ++ l /\
    List.length l <= List.length (filter is_refresh evs).
Proof.
  induction evs as [|ev evs IH]; intros c Hwf H.
  - split; [exact H|]. exists []. rewrite app_nil_r.
    split; [reflexivity | apply Nat.le_refl].
  - destruct (step_stocked c ev Hwf H) as (H1 & l1 & E1 & Hl1).
    destruct (IH (step c ev) (step_WF c ev Hwf) H1) as (H2 & l2 & E2 & Hl2).
    split; [exact H2|]. exists (l1 ++ l2). split.
    + cbn [run fold_left]. change (fold_left step evs (step c ev))
        with (run (step c ev) evs).
      rewrite E2, E1, app_assoc. reflexivity.
    + rewrite length_app. cbn [filter].
      destruct (is_refresh ev); cbn [List.length]; lia.
Qed.

(** X13.  Once the entity is ready and holds a value it never becomes empty
    again, and from then on the producer is subscribed by [refresh()] only:
    [get()], [get$], [isEmpty()], [set], the store and the settlements of
    the producer subscribe no producer, so the producer subscriptions made
    since are at most as many as the calls of [refresh()]. *)
Theorem stocked_entity_refreshes_on_request_only nm p (evs : list (Event T)) :
  let c := run (new_Cache nm p) evs in
  readyResolved c = true -> empty c = Some false ->
  forall evs',
    let c' := run c evs' in
    readyResolved c' = true /\ empty c' = Some false /\
    exists l,
      invoked c' = invoked c ++ l /\
      List.length l <= List.length (filter is_refresh evs').
Proof.
  intros c Hr He evs' c'.
  pose proof (reachable_WF nm p evs) as Hwf. fold c in Hwf.
  pose proof (reachable_gate_inv nm p evs) as (_ & Hopen & _).
  fold c in Hopen. destruct (Hopen Hr) as [Hp _].
  destruct (run_stocked evs' c Hwf (conj Hr (conj Hp He)))
    as ((Hr' & _ & He') & Hl).
  split; [exact Hr'|]. split; [exact He' | exact Hl].
Qed.

(** ** An entity whose [get$] is never subscribed *)


















(** ** Requests, before and after the gate *)










End EntityLaws.

(** * Facts about the registry *)

Module Registry.
Import CacheService.
Section Service.
Context {T : Type}.
Implicit Types (s : CacheService (T:=T)) (l : list (Cache T)).

Lemma find_from_none nm l : forall i,
  (forall c, In c l -> name c <> nm) -> find_from nm l i = None.
Proof.
  induction l as [|c l IH]; simpl; intros i H; auto.
  destruct (String.eqb_spec (name c) nm) as [E | _].
  - exfalso; apply (H c); auto.
  - apply IH; intros c' Hin; apply H; auto.
Qed.

Lemma find_from_some nm l : forall i j,
  find_from nm l i = Some j ->
  exists k c, j = i + k /\ nth_error l k = Some c /\ name c = nm.
Proof.
  induction l as [|c l IH]; simpl; intros i j H; [discriminate|].
  destruct (String.eqb_spec (name c) nm) as [E | _].
  - injection H as <-. exists 0, c. rewrite Nat.add_0_r; auto.
  - destruct (IH _ _ H) as (k & c' & -> & Hn & Hc).
    exists (S k), c'. repeat split; auto; lia.
Qed.

Lemma update_length i f l : List.length (update i f l) = List.length l.
Proof.
  revert i; induction l as [|c l IH]; intros [|i]; simpl; auto.
Qed.

Lemma update_same i f l c :
  nth_error l i = Some c -> nth_error (update i f l) i = Some (f c).
Proof.
  revert i; induction l as [|c' l IH]; intros [|i]; simpl; try discriminate.
  - intros [= ->]; reflexivity.
  - apply IH.
Qed.

Lemma update_other i k f l :
  k <> i -> nth_error (update i f l) k = nth_error l k.
Proof.
  revert i k; induction l as [|c' l IH]; intros [|i] [|k]; simpl;
    intros H; try congruence; try reflexivity.
  apply IH; congruence.
Qed.

Lemma update_names i p l :
  map name (update i (setObservable p) l) = map name l.
Proof.
  revert i; induction l as [|c l IH]; intros [|i]; simpl; auto.
  rewrite IH; reflexivity.
Qed.

(** The loop of [get] on an array that has grown. *)
Lemma find_from_extends nm l0 : forall l ns i j,
  map name l = map name l0 ++ ns ->
  find_from nm l0 i = Some j -> find_from nm l i = Some j.
Proof.
  induction l0 as [|c0 l0 IH]; simpl; intros l ns i j E H; [discriminate|].
  destruct l as [|c l]; [discriminate|]. simpl in E. injection E as En E.
  simpl. rewrite En. destruct (String.eqb (name c0) nm); [exact H|].
  exact (IH l ns (S i) j E H).
Qed.

Lemma extends_refl (s : CacheService (T:=T)) : extends s s.
Proof. exists []. symmetry; apply app_nil_r. Qed.

(** C9.  Looking up a name that no cache of the registry carries yields
    the error the service throws into the observable, a value.  Registering
    a name the registry already holds when [register] is called hands back
    the cache found, whenever the observable is subscribed (in the registry
    [s0] of the call or in a registry [s] that has grown since): the
    subscription adds nothing to the array and renames nothing; the
    producer of that cache is the supplied one when [overwrite] is not
    [false] and the old one when it is [false]; the other caches are
    untouched. *)
Theorem registry_contract (s0 s : CacheService (T:=T)) (nm : string) :
  ((forall c, In c (caches s) -> name c <> nm) ->
   get nm s = inr (not_registered nm)) /\
  forall i p overwrite,
    extends s0 s ->
    get nm s0 = inl i ->
    exists c,
      deref s i = Some c /\ name c = nm /\
      let (s', j) := subscribe (register nm p overwrite s0) s in
      j = i /\
      List.length (caches s') = List.length (caches s) /\
      map name (caches s') = map name (caches s) /\
      deref s' i =
        Some (if not_false overwrite then setObservable p c else c) /\
      (forall c', deref s' i = Some c' ->
         observable c' = if not_false overwrite then p else observable c) /\
      forall k, k <> i -> deref s' k = deref s k.
Proof.
  split.
  - intros H; unfold get. rewrite find_from_none; auto.
  - intros i p overwrite [ns Hext] Hget. unfold get in Hget.
    destruct (find_from nm (caches s0) 0) as [j|] eqn:E; [|discriminate].
    injection Hget as ->.
    pose proof (find_from_extends nm _ _ ns 0 i Hext E) as Es.
    destruct (find_from_some _ _ _ _ Es) as (k & c & Ek & Hn & Hc).
    simpl in Ek; subst k.
    exists c. split; [exact Hn|]. split; [exact Hc|].
    unfold subscribe, register, get; cbn [found reg_overwrite reg_observable].
    rewrite E.
    destruct (not_false overwrite); unfold deref; simpl.
    + split; [reflexivity|]. split; [apply update_length|].
      split; [apply update_names|].
      split; [apply update_same, Hn|].
      split; [|intros k' Hk; apply update_other, Hk].
      intros c'. rewrite (update_same _ _ _ _ Hn). intros [= <-]; reflexivity.
    + repeat split; auto. intros c'. rewrite Hn. intros [= <-]; reflexivity.
Qed.

End Service.
End Registry.

(** * More facts about the registry *)

Module RegistryLaws.
Import CacheService Registry.
Section Service.
Context {T : Type}.
Implicit Types (s : CacheService (T:=T)) (l : list (Cache T)).

(** The loop of [get] looks at the names only. *)
Lemma find_from_names nm l l' : forall i,
  map name l = map name l' -> find_from nm l i = find_from nm l' i.
Proof.
  revert l'; induction l as [|c l IH]; intros [|c' l'] i E; simpl in *;
    try discriminate; auto.
  injection E as -> E. destruct (String.eqb (name c') nm); auto.
Qed.

Lemma find_from_none_inv nm l : forall i,
  find_from nm l i = None -> forall c, In c l -> name c <> nm.
Proof.
  induction l as [|c l IH]; simpl; intros i H c' Hin; [destruct Hin|].
  destruct (String.eqb_spec (name c) nm) as [E | Hne]; [discriminate|].
  destruct Hin as [<- | Hin]; [exact Hne | exact (IH _ H c' Hin)].
Qed.

Lemma find_from_app_some nm l l' : forall i j,
  find_from nm l i = Some j -> find_from nm (l ++ l') i = Some j.
Proof.
  induction l as [|c l IH]; simpl; intros i j H; [discriminate|].
  destruct (String.eqb (name c) nm); auto.
Qed.

Lemma find_from_app_none nm l l' : forall i,
  find_from nm l i = None ->
  find_from nm (l ++ l') i = find_from nm l' (i + List.length l).
Proof.
  induction l as [|c l IH]; simpl; intros i H.
  - rewrite Nat.add_0_r; reflexivity.
  - destruct (String.eqb (name c) nm); [discriminate|].
    rewrite IH by exact H. f_equal; lia.
Qed.

Lemma update_end f l c :
  update (List.length l) f (l ++ [c]) = l ++ [f c].
Proof. induction l as [|c' l IH]; simpl; [reflexivity | rewrite IH; reflexivity]. Qed.

Lemma new_Cache_name (nm : string) (p : Producer) :
  name (new_Cache nm p : Cache T) = nm.
Proof. reflexivity. Qed.

Lemma rebind_new (nm : string) (p : Producer) :
  setObservable p (new_Cache nm p : Cache T) = new_Cache nm p.
Proof. reflexivity. Qed.

(** A subscription of a registration whose lookup failed. *)
Lemma subscribe_missing (r : Registration) s e :
  found r = inr e ->
  subscribe r s =
  ({| caches := caches s ++ [new_Cache (reg_name r) (reg_observable r)] |},
   List.length (caches s)).
Proof.
  intros E. unfold subscribe. rewrite E.
  destruct (not_false (reg_overwrite r)); [|reflexivity]. simpl.
  rewrite update_end, rebind_new. reflexivity.
Qed.

(** A subscription of a registration whose lookup succeeded. *)
Lemma subscribe_found (r : Registration) s i :
  found r = inl i ->
  subscribe r s =
  (if not_false (reg_overwrite r)
   then {| caches := update i (setObservable (reg_observable r)) (caches s) |}
   else s, i).
Proof.
  intros E. unfold subscribe. rewrite E.
  destruct (not_false (reg_overwrite r)); reflexivity.
Qed.

(** The outcome of [register], subscribed at once, on a name the registry
    does not hold. *)
Lemma register_unknown s nm p overwrite :
  find_from nm (caches s) 0 = None ->
  subscribe (register nm p overwrite s) s =
  ({| caches := caches s ++ [new_Cache nm p] |}, List.length (caches s)).
Proof.
  intros E.
  exact (subscribe_missing (register nm p overwrite s) s (not_registered nm)
           ltac:(unfold register, get; cbn [found]; rewrite E; reflexivity)).
Qed.

(** The outcome of [register], subscribed at once, on a name the registry
    holds. *)
Lemma register_known s nm p overwrite i :
  find_from nm (caches s) 0 = Some i ->
  subscribe (register nm p overwrite s) s =
  (if not_false overwrite
   then {| caches := update i (setObservable p) (caches s) |} else s, i).
Proof.
  intros E.
  exact (subscribe_found (register nm p overwrite s) s i
           ltac:(unfold register, get; cbn [found]; rewrite E; reflexivity)).
Qed.

Lemma get_cases nm s :
  (exists i, get nm s = inl i /\ find_from nm (caches s) 0 = Some i) \/
  (get nm s = inr (not_registered nm) /\ find_from nm (caches s) 0 = None).
Proof.
  unfold get. destruct (find_from nm (caches s) 0) as [i|];
    [left; exists i | right]; split; reflexivity.
Qed.

Lemma update_names_any i (f : Cache T -> Cache T) l :
  (forall c, name (f c) = name c) -> map name (update i f l) = map name l.
Proof.
  intros Hf. revert i; induction l as [|c l IH]; intros [|i]; simpl; auto.
  - rewrite Hf; reflexivity.
  - rewrite IH; reflexivity.
Qed.

(** What a subscription does to the names of the registry. *)
Lemma subscribe_names (r : Registration) s :
  map name (caches (fst (subscribe r s))) =
  map name (caches s) ++
  match found r with inl _ => [] | inr _ => [reg_name r] end.
Proof.
  destruct (found r) as [i|e] eqn:E.
  - rewrite (subscribe_found r s i E), app_nil_r.
    destruct (not_false (reg_overwrite r)); cbn [fst caches]; [|reflexivity].
    apply update_names.
  - rewrite (subscribe_missing r s e E). cbn [fst caches].
    rewrite map_app. reflexivity.
Qed.

Lemma find_from_lt nm l : forall i j,
  find_from nm l i = Some j -> j < i + List.length l.
Proof.
  intros i j H. destruct (find_from_some _ _ _ _ H) as (k & c & -> & Hn & _).
  assert (k < List.length l) by (apply nth_error_Some; congruence). lia.
Qed.

Lemma find_from_in nm l : forall i,
  find_from nm l i = None <-> ~ In nm (map name l).
Proof.
  induction l as [|c l IH]; simpl; intros i.
  - split; [intros _ [] | reflexivity].
  - destruct (String.eqb_spec (name c) nm) as [E | Hne].
    + split; [discriminate | intros H; destruct H; left; exact E].
    + rewrite IH. split; [intros H [H' | H']; auto | intros H H'; auto].
Qed.

(** X14.  Registering a name and looking it up.  [register] looks the name
    up when it is called and creates the cache when the observable it
    returns is subscribed, in a registry that may have grown in between.
    The subscriber is handed a cache of that name, and a lookup of the name
    succeeds from then on.  The lookup hands back that very cache if the
    call had found the name or if the name is still unknown at the
    subscription.  If the call had not found the name and the name was
    registered in between, the subscription adds a second cache of that
    name and the lookup hands back the first, not the one the subscriber
    was handed. *)
Theorem register_then_get s0 s nm p overwrite :
  extends s0 s ->
  let r := register nm p overwrite s0 in
  let (s', i) := subscribe r s in
  (exists c, deref s' i = Some c /\ name c = nm) /\
  (exists j, get nm s' = inl j /\ j <= i) /\
  ((exists k, found r = inl k) \/ get nm s = inr (not_registered nm) ->
   get nm s' = inl i) /\
  (forall j, found r = inr (not_registered nm) -> get nm s = inl j ->
     get nm s' = inl j /\ j < i /\
     caches s' = caches s ++ [new_Cache nm p]).
Proof.
  intros [ns Hext] r.
  destruct (get_cases nm s0) as [(k & Hg & Hf) | [Hg Hf]].
  - (* the call found the name *)
    assert (Hr : found r = inl k) by exact Hg.
    rewrite (subscribe_found r s k Hr).
    pose proof (find_from_extends nm _ _ ns 0 k Hext Hf) as Hfs.
    destruct (find_from_some _ _ _ _ Hfs) as (k' & c & Ek & Hn & Hc).
    simpl in Ek; subst k'.
    assert (Hget : forall s', map name (caches s') = map name (caches s) ->
                     get nm s' = inl k).
    { intros s' E. unfold get.
      rewrite (find_from_names nm _ (caches s)) by exact E.
      rewrite Hfs. reflexivity. }
    cbn [reg_overwrite reg_observable r register].
    destruct (not_false overwrite).
    + assert (Hg' : get nm {| caches := update k (setObservable p) (caches s) |}
                    = inl k) by (apply Hget, update_names).
      split; [|split; [|split]].
      * exists (setObservable p c). split; [|exact Hc].
        unfold deref; simpl. apply update_same, Hn.
      * exists k. split; [exact Hg' | apply Nat.le_refl].
      * intros _. exact Hg'.
      * intros j Hj. rewrite Hr in Hj. discriminate Hj.
    + split; [|split; [|split]].
      * exists c. split; assumption.
      * exists k. split; [apply Hget; reflexivity | apply Nat.le_refl].
      * intros _. apply Hget; reflexivity.
      * intros j Hj. rewrite Hr in Hj. discriminate Hj.
  - (* the call did not find the name *)
    assert (Hr : found r = inr (not_registered nm)) by exact Hg.
    rewrite (subscribe_missing r s _ Hr).
    cbn [reg_name reg_observable r register].
    assert (Hnew : deref {| caches := caches s ++ [new_Cache nm p] |}
                     (List.length (caches s)) = Some (new_Cache nm p)).
    { unfold deref; simpl. rewrite nth_error_app2 by lia.
      rewrite Nat.sub_diag. reflexivity. }
    destruct (get_cases nm s) as [(j & Hgs & Hfs) | [Hgs Hfs]].
    + assert (Hg' : get nm {| caches := caches s ++ [new_Cache nm p] |} = inl j).
      { unfold get; simpl. rewrite (find_from_app_some _ _ _ _ _ Hfs).
        reflexivity. }
      pose proof (find_from_lt _ _ _ _ Hfs) as Hlt. simpl in Hlt.
      split; [|split; [|split]].
      * exists (new_Cache nm p). split; [exact Hnew | reflexivity].
      * exists j. split; [exact Hg' | lia].
      * intros [[k Hk] | Hk]; [rewrite Hr in Hk; discriminate Hk|].
        rewrite Hgs in Hk; discriminate Hk.
      * intros j' _ Hj'. rewrite Hgs in Hj'. injection Hj' as <-.
        split; [exact Hg'|]. split; [exact Hlt | reflexivity].
    + assert (Hg' : get nm {| caches := caches s ++ [new_Cache nm p] |} =
                    inl (List.length (caches s))).
      { unfold get; simpl. rewrite find_from_app_none by exact Hfs. simpl.
        rewrite String.eqb_refl. reflexivity. }
      split; [|split; [|split]].
      * exists (new_Cache nm p). split; [exact Hnew | reflexivity].
      * eexists. split; [exact Hg' | apply Nat.le_refl].
      * intros _. exact Hg'.
      * intros j _ Hj. rewrite Hgs in Hj. discriminate Hj.
Qed.

(** X15.  Registering a name the registry does not hold when [register] is
    called appends one new cache at each subscription of the observable,
    built from the name and the producer supplied whatever [overwrite] is,
    and leaves the caches already there as they are, whatever the registry
    holds by then. *)
Theorem register_unknown_appends s0 s nm p overwrite :
  (forall c, In c (caches s0) -> name c <> nm) ->
  let (s', i) := subscribe (register nm p overwrite s0) s in
  i = List.length (caches s) /\
  caches s' = caches s ++ [new_Cache nm p] /\
  observable (new_Cache nm p : Cache T) = p.
Proof.
  intros H.
  rewrite (subscribe_missing (register nm p overwrite s0) s
             (not_registered nm)).
  - repeat split.
  - unfold register, get; cbn [found].
    rewrite find_from_none by exact H. reflexivity.
Qed.

(** X16.  The names of the registry stay pairwise distinct exactly when
    every registration is subscribed before the name is registered again:
    a subscription keeps them distinct if the call of [register] had found
    the name, or if the name is still unknown when the observable is
    subscribed, and in no other case. *)
Theorem register_keeps_names_distinct s0 s nm p overwrite :
  NoDup (map name (caches s)) ->
  let r := register nm p overwrite s0 in
  NoDup (map name (caches (fst (subscribe r s)))) <->
  ((exists k, found r = inl k) \/ get nm s = inr (not_registered nm)).
Proof.
  intros Hnd r. rewrite subscribe_names.
  destruct (get_cases nm s0) as [(k & Hg & _) | [Hg _]].
  - assert (Hr : found r = inl k) by exact Hg.
    rewrite Hr, app_nil_r. split; [intros _; left; exists k; reflexivity|].
    intros _; exact Hnd.
  - assert (Hr : found r = inr (not_registered nm)) by exact Hg.
    rewrite Hr. cbn [reg_name r register].
    split.
    + intros H. right.
      destruct (get_cases nm s) as [(j & _ & Hfs) | [Hgs _]]; [|exact Hgs].
      exfalso.
      assert (Hin : In nm (map name (caches s))).
      { destruct (in_dec string_dec nm (map name (caches s))) as [Hi | Hi];
          [exact Hi|].
        apply (find_from_in nm (caches s) 0) in Hi. congruence. }
      apply NoDup_remove_2 with (l := map name (caches s)) (l' := []) in H.
      apply H. rewrite app_nil_r. exact Hin.
    + intros [[k Hk] | Hk]; [discriminate Hk|].
      destruct (get_cases nm s) as [(j & Hgs & _) | [_ Hfs]];
        [rewrite Hgs in Hk; discriminate Hk|].
      apply (find_from_in nm (caches s) 0) in Hfs.
      rewrite <- (app_nil_r (map name (caches s) ++ [nm])), <- app_assoc.
      apply NoDup_Add with (a := nm) (l := map name (caches s) ++ []);
        [apply Add_app|].
      rewrite app_nil_r. split; [exact Hnd | exact Hfs].
Qed.

(** X17.  Registering one name changes the outcome of no lookup of another,
    whenever the observable is subscribed. *)
Theorem register_keeps_other_lookups s0 s nm nm' p overwrite :
  nm' <> nm ->
  get nm' (fst (subscribe (register nm p overwrite s0) s)) = get nm' s.
Proof.
  intros Hne. unfold get.
  set (r := register nm p overwrite s0).
  assert (E : find_from nm' (caches (fst (subscribe r s))) 0 =
              find_from nm' (caches s) 0).
  { destruct (found r) as [i|e] eqn:Er.
    - rewrite (subscribe_found r s i Er).
      destruct (not_false (reg_overwrite r)); cbn [fst caches];
        [|reflexivity].
      apply find_from_names, update_names.
    - rewrite (subscribe_missing r s e Er). cbn [fst caches reg_name r register].
      destruct (find_from nm' (caches s) 0) as [j|] eqn:E'.
      + apply (find_from_app_some _ _ _ _ _ E').
      + rewrite find_from_app_none by exact E'. simpl.
        destruct (String.eqb_spec nm nm') as [-> | _]; [congruence|].
        reflexivity. }
  rewrite E. reflexivity.
Qed.

End Service.
End RegistryLaws.

(** * Concrete runs *)

Module Runs.
Import Inputs.

(** ** A failing refresh and the observer of the filter (C1) *)

(** C1.  [get$] is subscribed on an entity that is ready and empty: its
    filter subscribes [refresh()] with an observer that has no error
    handler (line 108).  A caller then subscribes [refresh()]: the two
    observers share one subscription of the producer.  The producer fails:
    the failure is emitted on the error subject and the slot is freed, the
    observer of the filter rethrows the failure inside the loop of the
    subject, and the caller is handed nothing, then and ever after.  With
    a caller attached before the filter and one after it, the first is
    handed the failure and the second nothing.  Had the producer yielded a
    value, every caller would have been handed it. *)
Theorem refresh_failure_skips_callers :
  (let c : Cache nat :=
     run (new_Cache "shoppingList" 7)
       (boot ++ [SubscribeStream; Tick; CallRefresh]) in
   shared_subscribers c = [1; 2] /\ bare c = [1] /\
   invoked c = [7] /\ outstanding c = 1 /\
   (let c' := step c (ProducerSettles (Fail "offline")) in
    error c' = ["offline"] /\ refreshObservable c' = None /\
    received (Caller 2) c' = [] /\
    forall evs, received (Caller 2) (run c' evs) = []) /\
   (let c' := step c (ProducerSettles (Yield (Val 5))) in
    received (Caller 2) c' = [Next (Val 5); Complete])) /\
  (let c : Cache nat :=
     run (new_Cache "shoppingList" 7)
       (boot ++ [CallRefresh; SubscribeStream; Tick; CallRefresh]) in
   shared_subscribers c = [0; 2; 3] /\ bare c = [2] /\
   invoked c = [7] /\ outstanding c = 1 /\
   (let c' := step c (ProducerSettles (Fail "offline")) in
    received (Caller 0) c' = [Error "offline"] /\
    received (Caller 3) c' = [] /\
    forall evs, received (Caller 3) (run c' evs) = []) /\
   (let c' := step c (ProducerSettles (Yield (Val 5))) in
    received (Caller 0) c' = [Next (Val 5); Complete] /\
    received (Caller 3) c' = [Next (Val 5); Complete])).
Proof.
  split.
  - intros c. do 4 (split; [vm_compute; reflexivity|]). split.
    + intros c'. do 3 (split; [vm_compute; reflexivity|]).
      intros evs. rewrite run_retired; [vm_compute; reflexivity|].
      unfold asleep, quiet. repeat split; vm_compute; try lia; tauto.
    + vm_compute; reflexivity.
  - intros c. do 4 (split; [vm_compute; reflexivity|]). split.
    + intros c'. do 2 (split; [vm_compute; reflexivity|]).
      intros evs. rewrite run_retired; [vm_compute; reflexivity|].
      unfold asleep, quiet. repeat split; vm_compute; try lia; tauto.
    + vm_compute. split; reflexivity.
Qed.

(** ** Requests share one refresh *)

Example three_requests_one_invocation :
  invoked (run fresh (three_requests ++ [Tick])) = [7].
Proof. vm_compute; reflexivity. Qed.

Example three_requests_same_value :
  let c := run fresh (three_requests ++ [Tick; ProducerSettles (Yield (Val 5))]) in
  (received (Caller 0) c, received (Caller 1) c, received (Caller 2) c) =
  ([Next (Val 5); Complete], [Next (Val 5); Complete], [Next (Val 5); Complete]).
Proof. vm_compute; reflexivity. Qed.

(** ** The probe fails (C2) *)

(** [isEmpty()] and [get()] are called on a new entity, then the store
    fails to become ready: the message is emitted, the gate stays shut, the
    flag is not set, and neither call is ever answered. *)
Lemma probe_failure_counterexample :
  let c : Cache nat :=
    run (new_Cache "shoppingList" 7)
      [CallIsEmpty; CallGet; StorageReadyFail "locked"; Tick] in
  error c = ["Cache failed to access local storage."] /\
  readyResolved c = false /\
  empty c <> Some true /\
  received (Asker 0) c = [] /\
  received (Caller 1) c = [].
Proof. vm_compute. repeat split; discriminate. Qed.

Lemma probe_failure_witness :
  let c : Cache nat := new_Cache "shoppingList" 7 in
  readyResolved c = false /\
  (probe c = AwaitStorageReady \/ probe c = AwaitStorageGet) /\
  let c1 := step c (probe_failure c "locked") in
  error c1 = error c ++ [probe_failure_message c] /\
  empty c1 = empty c /\
  loaded c1 = loaded c /\
  forall evs, readyResolved (run c1 evs) = false.
Proof.
  intros c.
  assert (Hr : readyResolved c = false) by reflexivity.
  assert (Hp : probe c = AwaitStorageReady \/ probe c = AwaitStorageGet)
    by (left; reflexivity).
  split; [exact Hr|]. split; [exact Hp|].
  exact (probe_failure_leaves_gate_shut c "locked" Hr Hp).
Defined.

(** ** [null] (C3, C4) *)

(** C3.  [allowNull] is off.  A [null] passed to [set] is replayed to a
    new subscriber of [get$]; a [null] produced by the refresh that an
    empty cache triggers is handed to the subscriber that waited for it. *)
Theorem stream_hands_out_null :
  let c1 : Cache nat :=
    run (new_Cache "shoppingList" 7)
      (boot ++ [CallSet Null; SubscribeStream; Tick]) in
  let c2 : Cache nat :=
    run (new_Cache "shoppingList" 7)
      (boot ++ [SubscribeStream; Tick; ProducerSettles (Yield Null)]) in
  allowNull c1 = false /\ received (Stream 0) c1 = [Next Null] /\
  allowNull c2 = false /\ received (Stream 0) c2 = [Next Null].
Proof. vm_compute. repeat split. Qed.

(** A refresh produces [null] while [allowNull] is off: the flag is
    cleared, and the next [get()] hands out [null] without a refresh. *)
Lemma produced_null_counterexample :
  let c : Cache nat :=
    run fresh [CallRefresh; ProducerSettles (Yield Null)] in
  let c' := run c [CallGet; Tick] in
  allowNull c = false /\
  empty c = Some false /\
  invoked c' = invoked c /\
  outstanding c' = 0 /\
  received (Caller 1) c' = [Next Null; Complete].
Proof. vm_compute. repeat split. Qed.

Lemma null_witness :
  (let c := run (new_Cache "shoppingList" 7) [@StorageReadyOk nat] in
   allowNull c = false /\ probe c = AwaitStorageGet /\
   let c1 := step c (StorageGetOk Null) in
   empty c1 = Some true /\
   readyResolved c1 = true /\
   (let c2 := run c1 [CallGet; Tick] in
    outstanding c2 = 1 /\
    invoked c2 = invoked c1 ++ (if idle c1 then [observable c1] else [])) /\
   (let c2 := run c1 [SubscribeStream; Tick] in
    outstanding c2 = 1 /\
    invoked c2 = invoked c1 ++ (if idle c1 then [observable c1] else []) /\
    delivered c2 = delivered c1)) /\
  (let c := run (new_Cache "shoppingList" 7) (boot ++ [CallRefresh]) in
   allowNull c = false /\ shared_subscribers c <> [] /\
   readyResolved c = true /\
   let c1 := step c (ProducerSettles (Yield Null)) in
   empty c1 = Some false /\
   value (data c1) = Null /\
   let c2 := run c1 [CallGet; Tick] in
   invoked c2 = invoked c1 /\
   outstanding c2 = 0 /\
   delivered c2 =
     delivered c1 ++ [(Caller (nextSub c1), Next Null);
                      (Caller (nextSub c1), Complete)]).
Proof.
  split.
  - intros c.
    assert (Ha : allowNull c = false) by (vm_compute; reflexivity).
    assert (Hp : probe c = AwaitStorageGet) by (vm_compute; reflexivity).
    split; [exact Ha|]. split; [exact Hp|].
    pose proof (null_is_empty_only_from_the_store (T:=nat)
                  "shoppingList" 7 [StorageReadyOk]) as H.
    cbv zeta in H; fold c in H.
    exact (proj1 (H Ha) Hp).
  - intros c.
    assert (Ha : allowNull c = false) by (vm_compute; reflexivity).
    assert (Hs : shared_subscribers c <> []) by (vm_compute; discriminate).
    assert (Hr : readyResolved c = true) by (vm_compute; reflexivity).
    split; [exact Ha|]. split; [exact Hs|]. split; [exact Hr|].
    pose proof (null_is_empty_only_from_the_store (T:=nat)
                  "shoppingList" 7 (boot ++ [CallRefresh])) as H.
    cbv zeta in H; fold c in H.
    exact (proj2 (proj2 (H Ha)) Hs Hr).
Defined.

(** ** [set] and the write-back (C5, C6) *)

Lemma set_witness :
  let c := fresh in
  let v := Val 5 in
  microtasks c = [] /\ useLocalStorage c = true /\ readyResolved c = true /\
  empty (set v c) = Some false /\
  value (data (set v c)) = v /\
  delivered (set v c) =
    delivered c ++ map (fun i => (Stream i, Next v)) (observers (data c)) /\
  writes (step (set v c) Tick) = writes c ++ [v] /\
  forall e,
    let c' := run (set v c) [Tick; StorageSetFail e] in
    empty c' = Some false /\ value (data c') = v.
Proof.
  intros c v.
  assert (Hm : microtasks c = []) by (vm_compute; reflexivity).
  assert (Hu : useLocalStorage c = true) by (vm_compute; reflexivity).
  assert (Hr : readyResolved c = true) by (vm_compute; reflexivity).
  destruct (set_records_synchronously c v) as (H1 & H2 & H3 & H4 & H5).
  repeat (split; [assumption|]). split; [exact (H4 Hm Hu Hr) | exact H5].
Defined.

(** The write of [set] is pending, then fails: nothing is emitted on the
    error subject. *)
Lemma persist_failure_counterexample :
  let c : Cache nat := run fresh [CallSet (Val 5); Tick] in
  let c' := step c (StorageSetFail "quota exceeded") in
  writes c = [Val 5] /\ writes c' = [] /\ error c' = [].
Proof. vm_compute. repeat split. Qed.

(** ** [get()] (C7, C10) *)


(** A [get()] subscribed before the store answered, on a store that holds
    nothing under the key: the body runs in the task of the answer and
    subscribes [refresh()]; the observer is handed what the producer
    yields. *)
Example parked_get_run :
  let c : Cache nat :=
    run (new_Cache "shoppingList" 7)
      [StorageReadyOk; CallGet; StorageGetOk Undefined] in
  let c' := step c (ProducerSettles (Yield (Val 5))) in
  (received (Caller 0) c, invoked c, shared_subscribers c,
   received (Caller 0) c') =
  ([], [7], [0], [Next (Val 5); Complete]).
Proof. vm_compute; reflexivity. Qed.

(** The snapshot is [1] when [get()] is subscribed; [set(2)] follows in the
    same task; the observer of [get()] is handed [2].  And on an entity
    that is not ready, whose flag an early [set(1)] cleared, the observer
    of [get()] is handed nothing until the gate opens, and then the value
    the store held. *)
Lemma get_snapshot_counterexample :
  let c : Cache nat := run (new_Cache "shoppingList" 7) stored in
  let c' := run c [CallGet; CallSet (Val 2); Tick] in
  let d : Cache nat :=
    run (new_Cache "shoppingList" 7) [CallSet (Val 1); CallGet; Tick] in
  let d' := run d [StorageReadyOk; StorageGetOk (Val 7)] in
  (empty c = Some false /\ value (data c) = Val 1 /\
   received (Caller 0) c' = [Next (Val 2); Complete]) /\
  (empty d = Some false /\ value (data d) = Val 1 /\
   received (Caller 0) d = [] /\
   received (Caller 0) d' = [Next (Val 7); Complete]).
Proof. vm_compute. repeat split. Qed.

Lemma get_one_shot_witness :
  (let c := run (new_Cache "shoppingList" 7) stored in
   let calls : list (Event nat) := [CallSet (Val 2)] in
   let rest : list (Event nat) := [CallSet (Val 3); Tick; CallRefresh;
                                   ProducerSettles (Yield (Val 4))] in
   readyResolved c = true /\
   Forall (fun ev => is_call ev = true) calls /\
   let i := nextSub c in
   let c1 := run (step c CallGet) calls in
   truthy (empty c1) = false /\
   received (Caller i) (run c1 (Tick :: rest)) =
   received (Caller i) c ++ [Next (value (data c1)); Complete]) /\
  (let c := run (new_Cache "shoppingList" 7) [@CallSet nat (Val 1)] in
   let pre : list (Event nat) := [CallSet (Val 2); Tick; StorageReadyOk] in
   let rest : list (Event nat) := [CallSet (Val 3); Tick] in
   readyResolved c = false /\
   let i := nextSub c in
   let c1 := run (step c CallGet) pre in
   readyResolved c1 = false /\
   probe c1 = AwaitStorageGet /\
   defined (Val 7) && (allowNull c1 || not_null (Val 7)) = true /\
   received (Caller i) (run c1 (StorageGetOk (Val 7) :: rest)) =
   received (Caller i) c ++ [Next (Val 7); Complete]).
Proof.
  split.
  - intros c calls rest.
    assert (Hr : readyResolved c = true) by (vm_compute; reflexivity).
    assert (Hc : Forall (fun ev => is_call ev = true) calls)
      by (repeat constructor).
    split; [exact Hr|]. split; [exact Hc|].
    intros i c1.
    assert (He : truthy (empty c1) = false) by (vm_compute; reflexivity).
    split; [exact He|].
    pose proof (get_is_one_shot (T:=nat) "shoppingList" 7 stored) as H.
    cbv zeta in H; fold c in H; fold i in H. destruct H as [H _].
    exact (H Hr calls rest Hc He).
  - intros c pre rest.
    assert (Hr : readyResolved c = false) by (vm_compute; reflexivity).
    split; [exact Hr|].
    intros i c1.
    assert (Hr1 : readyResolved c1 = false) by (vm_compute; reflexivity).
    assert (Hp : probe c1 = AwaitStorageGet) by (vm_compute; reflexivity).
    assert (Hd : defined (Val 7) && (allowNull c1 || not_null (Val 7)) = true)
      by (vm_compute; reflexivity).
    split; [exact Hr1|]. split; [exact Hp|]. split; [exact Hd|].
    pose proof (get_is_one_shot (T:=nat) "shoppingList" 7 [CallSet (Val 1)]) as H.
    cbv zeta in H; fold c in H; fold i in H. destruct H as [_ H].
    exact (H Hr pre (Val 7) rest Hr1 Hp Hd).
Defined.

Example get_one_shot_value :
  let c := run (new_Cache "shoppingList" 7) stored in
  received (Caller 0)
    (run c [CallGet; CallSet (Val 2); Tick; CallSet (Val 3); Tick;
            CallRefresh; ProducerSettles (Yield (Val 4))]) =
  [Next (Val 2); Complete].
Proof. vm_compute; reflexivity. Qed.

(** ** The producer fails (C8) *)

Lemma producer_failure_witness :
  let c := run (new_Cache "shoppingList" 7) (boot ++ [CallRefresh]) in
  shared_subscribers c <> [] /\
  let c1 := step c (ProducerSettles (Fail "offline")) in
  error c1 = error c ++ ["offline"] /\
  empty c1 = empty c /\
  value (data c1) = value (data c) /\
  refreshObservable c1 = None /\
  invoked c1 = invoked c /\
  outstanding c1 = 0 /\
  readyResolved c = true /\
  received (Asker (nextSub c1)) (run c1 [CallIsEmpty; Tick]) =
  received (Asker (nextSub c1)) c1 ++ [Resolved (empty c)] /\
  let c2 := step c1 CallRefresh in
  invoked c2 = invoked c ++ [observable c] /\ outstanding c2 = 1.
Proof.
  intros c.
  assert (Hs : shared_subscribers c <> []) by (vm_compute; discriminate).
  assert (Hr : readyResolved c = true) by (vm_compute; reflexivity).
  split; [exact Hs|].
  pose proof (producer_failure_contract (T:=nat) "shoppingList" 7
                (boot ++ [CallRefresh]) "offline") as H.
  cbv zeta in H; fold c in H.
  destruct (H Hs) as (H1 & H2 & H3 & H4 & H5 & H6 & H7 & H8).
  cbv zeta.
  repeat (split; [assumption|]). split; [exact (H7 Hr) | exact H8].
Defined.

Example producer_failure_run :
  let c : Cache nat :=
    run fresh [CallRefresh; ProducerSettles (Fail "offline"); CallIsEmpty;
               Tick; CallRefresh] in
  (error c, invoked c, outstanding c, received (Asker 1) c,
   received (Caller 0) c) =
  (["offline"], [7; 7], 1, [Resolved (Some true)], [Error "offline"]).
Proof. vm_compute; reflexivity. Qed.

(** ** The registry (C9) *)

Lemma registry_witness :
  (forall c, In c (CacheService.caches two_caches) -> name c <> "orders") /\
  CacheService.get "orders" two_caches =
    inr (CacheService.not_registered "orders") /\
  CacheService.extends two_caches three_caches /\
  CacheService.get "recipes" two_caches = inl 1 /\
  exists c,
    CacheService.deref three_caches 1 = Some c /\ name c = "recipes" /\
    let (s', j) :=
      CacheService.subscribe
        (CacheService.register "recipes" 9 (Some false) two_caches)
        three_caches in
    j = 1 /\
    List.length (CacheService.caches s') =
      List.length (CacheService.caches three_caches) /\
    map name (CacheService.caches s') =
      map name (CacheService.caches three_caches) /\
    CacheService.deref s' 1 =
      Some (if CacheService.not_false (Some false)
            then setObservable 9 c else c) /\
    (forall c', CacheService.deref s' 1 = Some c' ->
       observable c' =
       if CacheService.not_false (Some false) then 9 else observable c) /\
    forall k, k <> 1 ->
      CacheService.deref s' k = CacheService.deref three_caches k.
Proof.
  assert (Hn : forall c, In c (CacheService.caches two_caches) ->
                         name c <> "orders").
  { intros c [<- | [<- | []]]; discriminate. }
  assert (He : CacheService.extends two_caches three_caches)
    by (exists ["menu"%string]; reflexivity).
  assert (Hg : CacheService.get "recipes" two_caches = inl 1)
    by (vm_compute; reflexivity).
  split; [exact Hn|].
  split; [exact (proj1 (Registry.registry_contract two_caches two_caches
                          "orders") Hn)|].
  split; [exact He|]. split; [exact Hg|].
  exact (proj2 (Registry.registry_contract two_caches three_caches "recipes")
           1 9 (Some false) He Hg).
Defined.

Example register_twice :
  let register nm p o s :=
    CacheService.subscribe (CacheService.register nm p o s) s in
  let (s1, i) := register "recipes" 9 None two_caches in
  let (s2, j) := register "recipes" 10 (Some false) s1 in
  let (s3, k) := register "orders" 11 (Some false) s2 in
  (i, j, k, map name (CacheService.caches s3),
   map observable (CacheService.caches s3)) =
  (1, 1, 2, ["shoppingList"; "recipes"; "orders"], [7; 9; 11]).
Proof. vm_compute; reflexivity. Qed.

Example lookup_message :
  CacheService.get "orders" two_caches =
  inr ("Cache " ++ dquote ++ "orders has not been registered yet.")%string.
Proof. reflexivity. Qed.

End Runs.

(** * More concrete runs *)

Module MoreRuns.
Import Inputs.

(** ** The gate *)

Lemma ready_witness :
  (exists evs1 d evs2,
     stored = evs1 ++ StorageGetOk d :: evs2 /\
     probe (run (new_Cache "shoppingList" 7) evs1) = AwaitStorageGet) /\
  readyResolved (run (new_Cache "shoppingList" 7) stored) = true.
Proof.
  assert (H : exists evs1 d evs2,
            stored = evs1 ++ StorageGetOk d :: evs2 /\
            probe (run (new_Cache "shoppingList" 7) evs1) = AwaitStorageGet).
  { exists [StorageReadyOk], (Val 1), []. split; reflexivity. }
  split; [exact H|].
  pose proof (ready_iff_store_answered (T:=nat) "shoppingList" 7 stored) as E.
  exact (proj2 E H).
Defined.

(** Assigning [useLocalStorage] after the construction does not make the
    entity ready. *)
Example no_store_no_gate :
  readyResolved
    (run (new_Cache "shoppingList" 7)
       [AssignUseLocalStorage false; CallSet (Val 1); Tick; CallGet; Tick]
     : Cache nat) = false.
Proof. vm_compute; reflexivity. Qed.

Lemma gate_invariant_witness :
  (let c := run (new_Cache "shoppingList" 7) boot in
   readyResolved c = true /\
   loaded c = readyResolved c /\ probe c = ProbeSettled /\ empty c <> None) /\
  (let c := run (new_Cache "shoppingList" 7) [CallSet (Val 1); Tick] in
   readyResolved c = false /\
   microtasks c = [] /\ writes c = [] /\ observers (data c) = [] /\
   empty c <> Some true).
Proof.
  split.
  - intros c.
    assert (Hr : readyResolved c = true) by (vm_compute; reflexivity).
    pose proof (gate_invariant (T:=nat) "shoppingList" 7 boot) as H.
    cbv zeta in H; fold c in H. destruct H as (Hl & Ho & _).
    destruct (Ho Hr) as [Hp He].
    split; [exact Hr|]. split; [exact Hl|]. split; [exact Hp | exact He].
  - intros c.
    assert (Hr : readyResolved c = false) by (vm_compute; reflexivity).
    pose proof (gate_invariant (T:=nat) "shoppingList" 7
                  [CallSet (Val 1); Tick]) as H.
    cbv zeta in H; fold c in H. destruct H as (_ & _ & Hs).
    split; [exact Hr | exact (Hs Hr)].
Defined.

(** ** The answer of the store *)


Lemma early_set_witness :
  let c := run (new_Cache "shoppingList" 7) probing in
  probe c = AwaitStorageGet /\
  useLocalStorage c = true /\
  let c1 := step c (CallSet (Val 2)) in
  let c2 := step c1 (StorageGetOk (Val 1)) in
  memory c1 = (Some false, Val 2) /\
  writes c1 = [] /\
  memory c2 =
    (if accepted c (Val 1) then (Some false, Val 1) else (Some true, Val 2)) /\
  exists w, writes c2 = w ++ [Val 2].
Proof.
  intros c.
  assert (Hp : probe c = AwaitStorageGet) by reflexivity.
  assert (Hu : useLocalStorage c = true) by reflexivity.
  split; [exact Hp|]. split; [exact Hu|].
  pose proof (store_answer_overrides_early_set (T:=nat) "shoppingList" 7
                probing (Val 2) (Val 1)) as H.
  cbv zeta in H; fold c in H.
  destruct (H Hp) as (H1 & H2 & H3 & H4).
  split; [exact H1|]. split; [exact H2|]. split; [exact H3 | exact (H4 Hu)].
Defined.

(** The store holds 1, [set(2)] is called before it answers: the entity
    holds 1 and the store is sent 2. *)
Example early_set_is_lost :
  let c : Cache nat :=
    run (new_Cache "shoppingList" 7)
      [StorageReadyOk; CallSet (Val 2); StorageGetOk (Val 1)] in
  value (data c) = Val 1 /\ writes c = [Val 2].
Proof. vm_compute. split; reflexivity. Qed.

(** ** The producer yields *)

Lemma producer_success_witness :
  let c := run (new_Cache "shoppingList" 7) refreshing in
  shared_subscribers c <> [] /\ microtasks c = [] /\
  let c1 := step c (ProducerSettles (Yield (Val 5))) in
  memory c1 = (Some false, Val 5) /\
  error c1 = error c /\
  refreshObservable c1 = None /\
  invoked c1 = invoked c /\
  outstanding c1 = 0 /\
  delivered c1 =
    delivered c ++
    map (fun i => (Stream i, Next (Val 5))) (observers (data c)) ++
    map (fun i => (Caller i, Next (Val 5))) (shared_subscribers c) ++
    map (fun i => (Caller i, Complete)) (shared_subscribers c) /\
  writes c1 =
    writes c ++
    (if useLocalStorage c && readyResolved c then [Val 5] else []) /\
  readyReactions c1 =
    readyReactions c ++
    (if useLocalStorage c && negb (readyResolved c)
     then [RPersist (Val 5)] else []).
Proof.
  intros c.
  assert (Hrun : shared_subscribers c <> []) by (vm_compute; discriminate).
  assert (Hm : microtasks c = []) by (vm_compute; reflexivity).
  split; [exact Hrun|]. split; [exact Hm|].
  pose proof (producer_success_contract (T:=nat) "shoppingList" 7 refreshing
                (Val 5)) as H.
  cbv zeta in H; fold c in H. exact (H Hrun Hm).
Defined.

(** ** Binding another producer *)

Lemma rebinding_witness :
  let c := run (new_Cache "shoppingList" 7) refreshing in
  shared_subscribers c <> [] /\
  let c1 := step c (CallSetObservable 9) in
  observable c1 = 9 /\
  invoked (step c1 CallRefresh) = invoked c ++ (if idle c then [9] else []) /\
  forall r,
    invoked (run c1 [ProducerSettles r; CallRefresh]) = invoked c ++ [9].
Proof.
  intros c.
  assert (Hrun : shared_subscribers c <> []) by (vm_compute; discriminate).
  split; [exact Hrun|].
  pose proof (rebinding_contract (T:=nat) "shoppingList" 7 refreshing 9) as H.
  cbv zeta in H; fold c in H.
  destruct H as (H1 & _ & _ & _ & H5 & H6).
  split; [exact H1|]. split; [exact H5 | exact (H6 Hrun)].
Defined.

(** The producer bound while a refresh runs is subscribed by the next
    one. *)
Example rebinding_run :
  invoked
    (run (new_Cache "shoppingList" 7 : Cache nat)
       (refreshing ++
        [CallSetObservable 9; CallRefresh; ProducerSettles (Yield (Val 5));
         CallRefresh])) = [7; 9].
Proof. vm_compute; reflexivity. Qed.

(** ** [isEmpty()] *)

Lemma isEmpty_witness :
  (let c := run (new_Cache "shoppingList" 7) boot in
   let i := nextSub c in
   readyResolved c = true /\ microtasks c = [] /\
   let c' := run c [CallIsEmpty; Tick] in
   exists b,
     empty c = Some b /\
     received (Asker i) c' = [Resolved (Some b)] /\
     kept c' = kept c /\
     refreshObservable c' = refreshObservable c /\
     invoked c' = invoked c) /\
  (let c := run (new_Cache "shoppingList" 7) probing in
   let i := nextSub c in
   probe c = AwaitStorageGet /\
   forall d,
     received (Asker i) (step c CallIsEmpty) = [] /\
     received (Asker i) (run c [CallIsEmpty; StorageGetOk d]) =
       [Resolved (Some (negb (accepted c d)))]).
Proof.
  split.
  - intros c i.
    assert (Hr : readyResolved c = true) by (vm_compute; reflexivity).
    assert (Hm : microtasks c = []) by (vm_compute; reflexivity).
    split; [exact Hr|]. split; [exact Hm|].
    pose proof (isEmpty_contract (T:=nat) "shoppingList" 7 boot) as H.
    cbv zeta in H; fold c in H; fold i in H.
    exact (proj1 H Hr Hm).
  - intros c i.
    assert (Hp : probe c = AwaitStorageGet) by reflexivity.
    split; [exact Hp|].
    pose proof (isEmpty_contract (T:=nat) "shoppingList" 7 probing) as H.
    cbv zeta in H; fold c in H; fold i in H.
    exact (proj2 H Hp).
Defined.

(** ** The subscribers of [get$] *)

Lemma stream_witness :
  (let c := run (new_Cache "shoppingList" 7) stored in
   let i := nextSub c in
   readyResolved c = true /\ microtasks c = [] /\
   let c1 := run c [SubscribeStream; Tick] in
   In i (observers (data c1)) /\
   received (Stream i) c1 =
     (if truthy (empty c) then [] else [Next (value (data c))]) /\
   (truthy (empty c) = true -> outstanding c1 = 1) /\
   isScalar c1 = true) /\
  (let c := run (new_Cache "shoppingList" 7) stored in
   let i := nextSub c in
   readyResolved c = true /\ isScalar c = false /\
   let c0 := step c SubscribeStream in
   microtasks c0 = microtasks c ++ [RStream i] /\
   ~ In i (observers (data c0)) /\
   received (Stream i) c0 = [] /\
   shared_subscribers c0 = shared_subscribers c) /\
  (let c := run (new_Cache "shoppingList" 7) watched in
   let i := nextSub c in
   isScalar c = true /\
   let c0 := step c SubscribeStream in
   readyResolved c = true /\
   microtasks c0 = microtasks c /\
   In i (observers (data c0)) /\
   received (Stream i) c0 =
     (if truthy (empty c) then [] else [Next (value (data c))]) /\
   (truthy (empty c) = true ->
    shared_subscribers c0 = shared_subscribers c ++ [S i] /\
    outstanding c0 = 1)) /\
  (let c := run (new_Cache "shoppingList" 7) probing in
   let i := nextSub c in
   probe c = AwaitStorageGet /\
   forall d,
     let c1 := run c [SubscribeStream; StorageGetOk d] in
     received (Stream i) (step c SubscribeStream) = [] /\
     In i (observers (data c1)) /\
     received (Stream i) c1 = (if accepted c d then [Next d] else []) /\
     (accepted c d = false -> outstanding c1 = 1) /\
     isScalar c1 = true).
Proof.
  split; [|split; [|split]].
  - intros c i.
    assert (Hr : readyResolved c = true) by (vm_compute; reflexivity).
    assert (Hm : microtasks c = []) by (vm_compute; reflexivity).
    split; [exact Hr|]. split; [exact Hm|].
    pose proof (stream_contract (T:=nat) "shoppingList" 7 stored) as H.
    cbv zeta in H; fold c in H; fold i in H.
    exact (proj1 H Hr Hm).
  - intros c i.
    assert (Hr : readyResolved c = true) by (vm_compute; reflexivity).
    assert (Hs : isScalar c = false) by (vm_compute; reflexivity).
    split; [exact Hr|]. split; [exact Hs|].
    pose proof (stream_contract (T:=nat) "shoppingList" 7 stored) as H.
    cbv zeta in H; fold c in H; fold i in H.
    exact (proj1 (proj2 H) Hr Hs).
  - intros c i.
    assert (Hs : isScalar c = true) by (vm_compute; reflexivity).
    split; [exact Hs|].
    pose proof (stream_contract (T:=nat) "shoppingList" 7 watched) as H.
    cbv zeta in H; fold c in H; fold i in H.
    exact (proj1 (proj2 (proj2 H)) Hs).
  - intros c i.
    assert (Hp : probe c = AwaitStorageGet) by reflexivity.
    split; [exact Hp|].
    pose proof (stream_contract (T:=nat) "shoppingList" 7 probing) as H.
    cbv zeta in H; fold c in H; fold i in H.
    exact (proj2 (proj2 (proj2 H)) Hp).
Defined.

(** The first subscriber of [get$] is served when the task ends, after the
    [set] that follows its subscription; the second is served inside its
    subscription, before the [set] that follows it. *)
Example stream_served_at_once :
  let c : Cache nat :=
    run (new_Cache "shoppingList" 7)
      (stored ++ [SubscribeStream; CallSet (Val 2); Tick;
                  SubscribeStream; CallSet (Val 3); Tick]) in
  (received (Stream 0) c, received (Stream 1) c) =
  ([Next (Val 2); Next (Val 3)], [Next (Val 2); Next (Val 3)]).
Proof. vm_compute; reflexivity. Qed.

Lemma stream_follows_witness :
  let c := run (new_Cache "shoppingList" 7) watched in
  In 0 (observers (data c)) /\
  (forall evs', In 0 (observers (data (run c evs')))) /\
  (forall v,
     received (Stream 0) (step c (CallSet v)) =
     received (Stream 0) c ++ [Next v]) /\
  (forall e,
     received (Stream 0) (step c (ProducerSettles (Fail e))) =
     received (Stream 0) c).
Proof.
  intros c.
  assert (Hi : In 0 (observers (data c))) by (vm_compute; left; reflexivity).
  assert (Hm : microtasks c = []) by (vm_compute; reflexivity).
  split; [exact Hi|].
  pose proof (stream_follows_updates (T:=nat) "shoppingList" 7 watched 0) as H.
  cbv zeta in H; fold c in H.
  destruct (H Hi) as (H1 & H2 & _ & H4).
  split; [exact H1|]. split; [exact H2|].
  intros e. exact (H4 e Hm).
Defined.

(** The subscriber is handed the snapshot, then what [set] records, then
    what a refresh yields; the failure of a refresh hands it nothing. *)
Example stream_run :
  received (Stream 0)
    (run (new_Cache "shoppingList" 7 : Cache nat)
       (watched ++
        [CallSet (Val 2); CallRefresh; ProducerSettles (Yield (Val 3));
         CallRefresh; ProducerSettles (Fail "offline")])) =
  [Next (Val 1); Next (Val 2); Next (Val 3)].
Proof. vm_compute; reflexivity. Qed.

(** ** An entity that holds a value *)

Lemma stocked_witness :
  let c := run (new_Cache "shoppingList" 7) stored in
  readyResolved c = true /\ empty c = Some false /\
  forall evs',
    let c' := run c evs' in
    readyResolved c' = true /\ empty c' = Some false /\
    exists l,
      invoked c' = invoked c ++ l /\
      List.length l <= List.length (filter is_refresh evs').
Proof.
  intros c.
  assert (Hr : readyResolved c = true) by (vm_compute; reflexivity).
  assert (He : empty c = Some false) by (vm_compute; reflexivity).
  split; [exact Hr|]. split; [exact He|].
  pose proof (stocked_entity_refreshes_on_request_only (T:=nat)
                "shoppingList" 7 stored) as H.
  cbv zeta in H; fold c in H. exact (H Hr He).
Defined.

(** The store holds a value: requests, subscriptions and a write go by
    without the producer being subscribed. *)
Example stocked_run :
  invoked
    (run (new_Cache "shoppingList" 7 : Cache nat)
       (stored ++
        [CallGet; SubscribeStream; CallIsEmpty; Tick; CallSet (Val 2); Tick;
         StorageSetOk; CallGet; Tick])) = [].
Proof. vm_compute; reflexivity. Qed.

(** An observer of [get()] on an empty entity whose refresh fails is handed
    the failure and nothing else, whatever comes next. *)
Example failed_get_run :
  received (Caller 0)
    (run (new_Cache "shoppingList" 7 : Cache nat)
       (boot ++
        [CallGet; Tick; ProducerSettles (Fail "offline"); CallRefresh;
         ProducerSettles (Yield (Val 3)); CallSet (Val 4); Tick])) =
  [Error "offline"].
Proof. vm_compute; reflexivity. Qed.

(** ** Requests *)


(** Requests made before the store answered share one refresh: the
    producer is subscribed once, by the [refresh()] that did not wait, and
    the observers of [get()] join it in the task of the answer. *)
Example parked_requests_run :
  let c : Cache nat :=
    run (new_Cache "shoppingList" 7)
      (probing ++ three_requests ++ [StorageGetOk Undefined]) in
  let c' := step c (ProducerSettles (Fail "offline")) in
  (invoked c, shared_subscribers c, received (Caller 0) c',
   received (Caller 1) c', received (Caller 2) c') =
  ([7], [1; 0; 2], [Error "offline"], [Error "offline"], [Error "offline"]).
Proof. vm_compute; reflexivity. Qed.

(** ** The registry *)

Lemma register_then_get_witness :
  CacheService.extends two_caches three_caches /\
  let r := CacheService.register "menu" 10 None two_caches in
  let (s', i) := CacheService.subscribe r three_caches in
  (exists c, CacheService.deref s' i = Some c /\ name c = "menu") /\
  (exists j, CacheService.get "menu" s' = inl j /\ j <= i) /\
  ((exists k, CacheService.found r = inl k) \/
   CacheService.get "menu" three_caches =
     inr (CacheService.not_registered "menu") ->
   CacheService.get "menu" s' = inl i) /\
  (forall j,
     CacheService.found r = inr (CacheService.not_registered "menu") ->
     CacheService.get "menu" three_caches = inl j ->
     CacheService.get "menu" s' = inl j /\ j < i /\
     CacheService.caches s' =
       CacheService.caches three_caches ++ [new_Cache "menu" 10]).
Proof.
  assert (H : CacheService.extends two_caches three_caches)
    by (exists ["menu"%string]; reflexivity).
  split; [exact H|].
  exact (RegistryLaws.register_then_get two_caches three_caches "menu" 10
           None H).
Defined.

(** Two components register the same new name and subscribe afterwards:
    the registry holds two caches of that name, the second subscriber is
    handed the second, and a lookup hands back the first. *)
Example register_race :
  let s0 : CacheService.CacheService (T:=nat) :=
    {| CacheService.caches := [] |} in
  let r1 := CacheService.register "recipes" 8 None s0 in
  let r2 := CacheService.register "recipes" 9 None s0 in
  let (s1, i) := CacheService.subscribe r1 s0 in
  let (s2, j) := CacheService.subscribe r2 s1 in
  (i, j, map name (CacheService.caches s2),
   map observable (CacheService.caches s2),
   CacheService.get "recipes" s2) =
  (0, 1, ["recipes"; "recipes"]%string, [8; 9], inl 0).
Proof. vm_compute; reflexivity. Qed.

(** The handlers run at every subscription: the observable of one call,
    subscribed twice, creates two caches; never subscribed, none. *)
Example register_subscribed_twice :
  let s0 : CacheService.CacheService (T:=nat) :=
    {| CacheService.caches := [] |} in
  let r := CacheService.register "recipes" 8 None s0 in
  let (s1, i) := CacheService.subscribe r s0 in
  let (s2, j) := CacheService.subscribe r s1 in
  (CacheService.get "recipes" s0, i, j, map name (CacheService.caches s2)) =
  (inr (CacheService.not_registered "recipes"), 0, 1,
   ["recipes"; "recipes"]%string).
Proof. vm_compute; reflexivity. Qed.

Lemma register_unknown_witness :
  (forall c, In c (CacheService.caches two_caches) -> name c <> "menu") /\
  (let (s', i) :=
     CacheService.subscribe (CacheService.register "menu" 9 None two_caches)
       two_caches in
   i = List.length (CacheService.caches two_caches) /\
   CacheService.caches s' =
     CacheService.caches two_caches ++ [new_Cache "menu" 9] /\
   observable (new_Cache "menu" 9 : Cache nat) = 9) /\
  (let (s', i) :=
     CacheService.subscribe (CacheService.register "menu" 9 None two_caches)
       three_caches in
   i = List.length (CacheService.caches three_caches) /\
   CacheService.caches s' =
     CacheService.caches three_caches ++ [new_Cache "menu" 9] /\
   observable (new_Cache "menu" 9 : Cache nat) = 9).
Proof.
  assert (H : forall c, In c (CacheService.caches two_caches) ->
                        name c <> "menu").
  { intros c [<- | [<- | []]]; discriminate. }
  split; [exact H|]. split.
  - exact (RegistryLaws.register_unknown_appends two_caches two_caches "menu"
             9 None H).
  - exact (RegistryLaws.register_unknown_appends two_caches three_caches
             "menu" 9 None H).
Defined.

Lemma register_distinct_witness :
  NoDup (map name (CacheService.caches three_caches)) /\
  let r := CacheService.register "menu" 9 None two_caches in
  (NoDup (map name
            (CacheService.caches
               (fst (CacheService.subscribe r three_caches))))
   <->
   ((exists k, CacheService.found r = inl k) \/
    CacheService.get "menu" three_caches =
      inr (CacheService.not_registered "menu"))).
Proof.
  assert (H : NoDup (map name (CacheService.caches three_caches))).
  { cbn. constructor; [intros [E | [E | []]]; discriminate E|].
    constructor; [intros [E | []]; discriminate E|].
    constructor; [intros []|constructor]. }
  split; [exact H|].
  exact (RegistryLaws.register_keeps_names_distinct two_caches three_caches
           "menu" 9 None H).
Defined.

Lemma register_other_witness :
  "shoppingList" <> "recipes" /\
  CacheService.get "shoppingList"
    (fst (CacheService.subscribe
            (CacheService.register "recipes" 9 None two_caches) two_caches)) =
  CacheService.get "shoppingList" two_caches.
Proof.
  assert (H : "shoppingList" <> "recipes") by discriminate.
  split; [exact H|].
  exact (RegistryLaws.register_keeps_other_lookups two_caches two_caches
           "recipes" "shoppingList" 9 None H).
Defined.

End MoreRuns.
